(** * LearnNodeJS e-commerce models: cart, order, review and category logic

    A shallow embedding of the mongoose model methods of the repository
    (cart totals and line items, cart merge, order status and refund
    bookkeeping, order-number generation, review helpful votes and the
    category ancestor denormalisation), with the properties the
    specification states about them.

    Conventions of the embedding:
    - a JavaScript [Number] is an integer of [Z] (quantities, and prices in
      minor units); [Date] values are epoch milliseconds in [Z];
    - an [ObjectId] is a [nat]; a field that may be [null]/[undefined] is an
      [option]; the [sessionId] of a cart is absent, [null] or a string, as
      the index on it tells them apart; the [product] of a cart line is a reference that reads as
      the id or, after [populate], as the product document; a [variant] is
      [undefined], [null] or an object whose keys keep their order, and is
      compared through its [JSON.stringify] text as the code compares it;
    - a method that mutates [this] is a computation of the state-and-exception
      monad [M] over the document, a [throw] leaves the state as it was at the
      throw; [return this] hands back the receiver, whose value is the
      threaded state, so such methods return [unit];
    - a collection of the document store is the list of its documents in
      natural order ([findOne] is [list_find]) or, where it is only read by
      id, a [gmap] from ids to documents; the validators of the cart schema
      run at a cart's [save], ahead of its hooks, a save writes the paths
      that changed since the document was loaded, and the unique index on
      [sessionId] is checked at a write of that path; an error that the
      runtime, mongoose or the database raises is a [Throw] of the name of
      its class. *)

From stdpp Require Import base option list strings gmap.
From Stdlib Require Import ZArith Lia Ascii.

#[local] Open Scope Z_scope.

(** ** JavaScript runtime: completions and the method monad *)

Definition ObjectId : Type := nat.
Bind Scope nat_scope with ObjectId.

Inductive completion (A : Type) : Type :=
  | Normal (a : A)
  | Throw (message : string).
Arguments Normal {A} a.
Arguments Throw {A} message.

Definition M (S A : Type) : Type := S → completion A * S.

#[global] Instance M_ret {S} : MRet (M S) := λ A a s, (Normal a, s).
#[global] Instance M_bind {S} : MBind (M S) := λ A B f m s,
  match m s with
  | (Normal a, s') => f a s'
  | (Throw e, s') => (Throw e, s')
  end.

#[global] Instance M_fmap {S} : FMap (M S) := λ A B f m, a ← m; mret (f a).

Definition get {S} : M S S := λ s, (Normal s, s).
Definition put {S} (s : S) : M S unit := λ _, (Normal tt, s).
Definition modify {S} (f : S → S) : M S unit := λ s, (Normal tt, f s).
Definition throw {S A} (message : string) : M S A := λ s, (Throw message, s).

(** The state a method leaves behind. *)
Definition exec {S A} (m : M S A) (s : S) : S := (m s).2.

(** [x || d] on a Number that may be undefined: [0] and [undefined] are
    falsy. *)
Definition or_default (x : option Z) (d : Z) : Z :=
  match x with
  | Some n => if decide (n = 0) then d else n
  | None => d
  end.

(** ** Product (the fields the cart reads) *)

Module Product.
Record t : Type := mk {
  _id : ObjectId;
  name : string;
  sku : option string;
  price : Z;
  primaryImage : option string;
  maxOrderQuantity : option Z   (* inventory.maxOrderQuantity *)
}.
End Product.

(** ** Product documents: images and inventory *)

Module Image.
Record t : Type := mk { url : string; alt : option string; isPrimary : bool }.
End Image.

Module Inventory.
Record t : Type := mk {
  quantity : Z;
  lowStockThreshold : Z;
  trackQuantity : bool;
  allowBackorder : bool;
  maxOrderQuantity : option Z
}.
End Inventory.

Module ProductDoc.
Record t : Type := mk {
  _id : ObjectId;
  name : string;
  sku : option string;
  price : Z;
  images : list Image.t;
  inventory : Inventory.t;
  status : string
}.

(** Virtual [primaryImage]:
    [const primary = this.images.find(img => img.isPrimary);
     return primary ? primary.url
                    : (this.images[0] ? this.images[0].url : null)] *)
Definition primaryImage (this : t) : option string :=
  match list_find (λ img, Image.isPrimary img = true) (images this) with
  | Some (_, primary) => Some (Image.url primary)
  | None =>
      match images this with
      | img :: _ => Some (Image.url img)
      | [] => None
      end
  end.

(** Virtual [inStock]:
    [if (!this.inventory.trackQuantity) return true;
     return this.inventory.quantity > 0 || this.inventory.allowBackorder] *)
Definition inStock (this : t) : bool :=
  if negb (Inventory.trackQuantity (inventory this)) then true
  else bool_decide (Inventory.quantity (inventory this) > 0)
       || Inventory.allowBackorder (inventory this).

(** Virtual [lowStock]:
    [this.inventory.quantity <= this.inventory.lowStockThreshold &&
     this.inventory.quantity > 0] *)
Definition lowStock (this : t) : bool :=
  bool_decide (Inventory.quantity (inventory this)
               <= Inventory.lowStockThreshold (inventory this))
  && bool_decide (Inventory.quantity (inventory this) > 0).

(** The product as [cart.addItem] reads it: [_id], [name], [sku], [price],
    the [primaryImage] virtual and [inventory.maxOrderQuantity]. *)
Definition as_product (this : t) : Product.t :=
  Product.mk (_id this) (name this) (sku this) (price this) (primaryImage this)
    (Inventory.maxOrderQuantity (inventory this)).
End ProductDoc.

(** ** References to a product *)

Module ProductRef.
(** What the [product] path of a cart line holds: the [ObjectId] it is
    stored as, or, on a document loaded with
    [populate('items.product', ...)], what populate put there for that id.
    That is the product document, or [null] when no product has the id;
    the methods of a cart are modelled on lines whose populated product is
    there (on [null] they end in a TypeError), and [mergeCarts], which
    populates what it loads, asks the catalog. *)
Inductive t : Type :=
  | Id (o : ObjectId)
  | Populated (o : ObjectId).

#[global] Instance eq_dec : EqDecision t.
Proof. solve_decision. Defined.

Definition id (r : t) : ObjectId :=
  match r with
  | Id o | Populated o => o
  end.

(** The text [toString()] gives, as far as [===] tells two of them apart:
    an [ObjectId] prints as its 24 hexadecimal digits, the same for equal
    ids only; a document prints as the inspection of the document, which
    is no such string and differs between different products. *)
Inductive text : Type :=
  | hex (o : ObjectId)
  | inspection (o : ObjectId).

#[global] Instance text_eq_dec : EqDecision text.
Proof. solve_decision. Defined.

(** [item.product.toString()] *)
Definition toString (r : t) : text :=
  match r with
  | Id o => hex o
  | Populated o => inspection o
  end.

(** [Product.findById(ref)]: a populated document is cast to its [_id]. *)
#[global] Instance lookup {A} : Lookup t A (gmap ObjectId A) | 100 :=
  λ r catalog, catalog !! id r.
End ProductRef.

(** A line is stored with the id of its product. *)
Coercion ProductRef.Id : ObjectId >-> ProductRef.t.

(** [product._id.toString()] *)
Definition ObjectId_toString (o : ObjectId) : ProductRef.text := ProductRef.hex o.

(** ** Variants and their [JSON.stringify] text *)

Module Variant.
(** A [variant] as the code reads one: [null], or an object with its keys
    in insertion order (none of them an array index) and strings as
    values. [undefined] is the [None] of [option Variant.t]: an omitted
    argument, or a path that reads undefined. *)
Inductive t : Type :=
  | null
  | object (fields : list (string * string)).

#[global] Instance eq_dec : EqDecision t.
Proof. solve_decision. Defined.

(** The same keys with the same values, in whatever order. *)
Definition structurally_equal (v w : t) : Prop :=
  match v, w with
  | null, null => True
  | object fields, object fields' => fields ≡ₚ fields'
  | _, _ => False
  end.
End Variant.

Module Json.
#[local] Open Scope string_scope.

Definition hex_digit (d : nat) : Ascii.ascii :=
  Ascii.ascii_of_nat (if decide (d < 10)%nat then 48 + d else 87 + d).

(** The two-character escape of [x]: a backslash, then [x]. *)
Definition escape (x : Ascii.ascii) : string := String "092" (String x "").

(** One character inside a JSON string: the quote and the backslash are
    escaped, the control characters are written b, t, n, f or r after a
    backslash or as u00XX after one, every other character stands for
    itself. *)
Definition quote_char (c : Ascii.ascii) : string :=
  let n := Ascii.nat_of_ascii c in
  if decide (n = 34)%nat then escape "034"
  else if decide (n = 92)%nat then escape "092"
  else if decide (n = 8)%nat then escape "b"
  else if decide (n = 9)%nat then escape "t"
  else if decide (n = 10)%nat then escape "n"
  else if decide (n = 12)%nat then escape "f"
  else if decide (n = 13)%nat then escape "r"
  else if decide (n < 32)%nat then
    String "092" (String "u" (String "0" (String "0"
      (String (hex_digit (n / 16)) (String (hex_digit (n mod 16)) "")))))
  else String c "".

Fixpoint quote_chars (s : string) : string :=
  match s with
  | "" => ""
  | String c s => quote_char c +:+ quote_chars s
  end.

(** [JSON.stringify(s)] of a string. *)
Definition quote (s : string) : string :=
  String "034" (quote_chars s +:+ String "034" "").

(** The members of an object, [key:value] separated by commas. *)
Fixpoint members (fields : list (string * string)) : string :=
  match fields with
  | [] => ""
  | (k, v) :: fields =>
      match fields with
      | [] => quote k +:+ ":" +:+ quote v
      | _ :: _ => quote k +:+ ":" +:+ quote v +:+ "," +:+ members fields
      end
  end.

(** [JSON.stringify(v)]: [undefined] for [undefined], the text otherwise. *)
Definition stringify (v : option Variant.t) : option string :=
  match v with
  | None => None
  | Some Variant.null => Some "null"
  | Some (Variant.object fields) => Some ("{" +:+ members fields +:+ "}")
  end.
End Json.

(** What [item.variant] reads on the subdocument that mongoose makes of a
    pushed line [{ ..., variant, ... }]: the object is cast to the nested
    path [variant: { name: String, option: String }] of the line schema. *)
Class Casting : Type := cast_variant : Variant.t → option Variant.t.

(** ** Cart line items *)

Module CartItem.
Record t : Type := mk {
  _id : ObjectId;
  product : ProductRef.t;
  name : string;
  sku : option string;
  quantity : Z;
  price : Z;
  total : Z;
  variant : option Variant.t;
  image : option string;
  available : bool;
  maxQuantity : Z
}.

#[global] Instance eq_dec : EqDecision t.
Proof. solve_decision. Defined.

Definition set_product (r : ProductRef.t) (i : t) : t :=
  mk (_id i) r (name i) (sku i) (quantity i) (price i) (total i)
     (variant i) (image i) (available i) (maxQuantity i).

Definition set_quantity (q : Z) (i : t) : t :=
  mk (_id i) (product i) (name i) (sku i) q (price i) (total i)
     (variant i) (image i) (available i) (maxQuantity i).
Definition set_total (x : Z) (i : t) : t :=
  mk (_id i) (product i) (name i) (sku i) (quantity i) (price i) x
     (variant i) (image i) (available i) (maxQuantity i).

(** [item.product.toString() === p.toString() &&
     JSON.stringify(item.variant) === JSON.stringify(v)]: both are
    comparisons of texts. [v] is the [variant] parameter, [null] when the
    argument was omitted. *)
Definition same_line (p : ObjectId) (v : Variant.t) (item : t) : Prop :=
  ProductRef.toString (product item) = ObjectId_toString p ∧
  Json.stringify (variant item) = Json.stringify (Some v).

#[global] Instance same_line_dec p v item : Decision (same_line p v item).
Proof. unfold same_line. apply _. Defined.

(** [existingItem.quantity += n;
     existingItem.total = existingItem.quantity * existingItem.price] *)
Definition increment (n : Z) (existingItem : t) : t :=
  let existingItem := set_quantity (quantity existingItem + n) existingItem in
  set_total (quantity existingItem * price existingItem) existingItem.
End CartItem.

(** ** Cart *)

Module Shipping.
Record t : Type := mk { cost : Z; method : option string; address : option string }.
#[global] Instance eq_dec : EqDecision t.
Proof. solve_decision. Defined.
End Shipping.

Module Discount.
Record t : Type := mk {
  code : option string;
  amount : Z;
  type : string;
  valid : bool
}.
#[global] Instance eq_dec : EqDecision t.
Proof. solve_decision. Defined.
End Discount.

Module SessionId.
(** What the [sessionId] path of a cart holds when it is there: [null] or
    a string. *)
Inductive t : Type :=
  | null
  | value (s : string).

#[global] Instance eq_dec : EqDecision t.
Proof. solve_decision. Defined.
End SessionId.

Module Cart.
Record t : Type := mk {
  _id : ObjectId;
  user : option ObjectId;
  sessionId : option SessionId.t;
  items : list CartItem.t;
  subtotal : Z;
  tax : Z;
  shipping : Shipping.t;
  discount : Discount.t;
  total : Z;
  currency : string;
  expiresAt : Z;
  isActive : bool;
  lastActivity : Z
}.

Definition set_user (x : option ObjectId) (c : t) : t :=
  mk (_id c) x (sessionId c) (items c) (subtotal c) (tax c) (shipping c)
     (discount c) (total c) (currency c) (expiresAt c) (isActive c) (lastActivity c).
Definition set_sessionId (x : option SessionId.t) (c : t) : t :=
  mk (_id c) (user c) x (items c) (subtotal c) (tax c) (shipping c)
     (discount c) (total c) (currency c) (expiresAt c) (isActive c) (lastActivity c).
Definition set_items (x : list CartItem.t) (c : t) : t :=
  mk (_id c) (user c) (sessionId c) x (subtotal c) (tax c) (shipping c)
     (discount c) (total c) (currency c) (expiresAt c) (isActive c) (lastActivity c).
Definition set_subtotal (x : Z) (c : t) : t :=
  mk (_id c) (user c) (sessionId c) (items c) x (tax c) (shipping c)
     (discount c) (total c) (currency c) (expiresAt c) (isActive c) (lastActivity c).
Definition set_discount (x : Discount.t) (c : t) : t :=
  mk (_id c) (user c) (sessionId c) (items c) (subtotal c) (tax c) (shipping c)
     x (total c) (currency c) (expiresAt c) (isActive c) (lastActivity c).
Definition set_total (x : Z) (c : t) : t :=
  mk (_id c) (user c) (sessionId c) (items c) (subtotal c) (tax c) (shipping c)
     (discount c) x (currency c) (expiresAt c) (isActive c) (lastActivity c).
Definition set_isActive (x : bool) (c : t) : t :=
  mk (_id c) (user c) (sessionId c) (items c) (subtotal c) (tax c) (shipping c)
     (discount c) (total c) (currency c) (expiresAt c) x (lastActivity c).
Definition set_lastActivity (x : Z) (c : t) : t :=
  mk (_id c) (user c) (sessionId c) (items c) (subtotal c) (tax c) (shipping c)
     (discount c) (total c) (currency c) (expiresAt c) (isActive c) x.

(** Virtual [uniqueItems]: [this.items.length]. *)
Definition uniqueItems (this : t) : nat := length (items this).

(** Virtual [totalItems]. *)
Definition totalItems (this : t) : Z :=
  foldl (λ total item, total + CartItem.quantity item) 0 (items this).

(** [calculateTotals]:
    [this.subtotal = this.items.reduce((total, item) => total + item.total, 0);
     this.total = this.subtotal + this.tax + this.shipping.cost
                  - this.discount.amount] *)
Definition calculateTotals : M t unit :=
  modify (λ this,
    let this :=
      set_subtotal
        (foldl (λ total item, total + CartItem.total item) 0 (items this)) this in
    set_total
      (subtotal this + tax this + Shipping.cost (shipping this)
       - Discount.amount (discount this)) this).

(** [items.pull(itemId)] of a mongoose document array: every subdocument
    whose [_id] equals [itemId] is spliced out. *)
Definition pull (itemId : ObjectId) (items : list CartItem.t) : list CartItem.t :=
  filter (λ item, CartItem._id item ≠ itemId) items.

(** [items.id(itemId)]: the first subdocument with that [_id], with its
    index, or [None] for [null]. *)
Definition id (itemId : ObjectId) (items : list CartItem.t)
  : option (nat * CartItem.t) :=
  list_find (λ item, CartItem._id item = itemId) items.

(** [addItem(product, quantity = 1, variant = null)]. [oid] is the
    [ObjectId] mongoose gives the pushed subdocument, whose [variant]
    reads as the cast of the one pushed. *)
Definition addItem {casting : Casting} (oid : ObjectId) (product : Product.t)
    (quantity : option Z) (variant : option Variant.t) : M t unit :=
  let quantity := default 1 quantity in
  let variant := default Variant.null variant in
  this ← get;
  match list_find (CartItem.same_line (Product._id product) variant) (items this) with
  | Some (i, existingItem) =>
      put (set_items (<[i := CartItem.increment quantity existingItem]> (items this)) this)
  | None =>
      let total := quantity * Product.price product in
      put (set_items
             (items this ++
              [CartItem.mk oid (Product._id product) (Product.name product)
                 (Product.sku product) quantity (Product.price product) total
                 (cast_variant variant) (Product.primaryImage product) true
                 (or_default (Product.maxOrderQuantity product) 100)])
             this)
  end;;
  calculateTotals.

(** [updateItemQuantity(itemId, quantity)] *)
Definition updateItemQuantity (itemId : ObjectId) (quantity : Z) : M t unit :=
  this ← get;
  match id itemId (items this) with
  | None => throw "Item not found in cart"
  | Some (i, item) =>
      (if decide (quantity ≤ 0) then
         put (set_items (pull itemId (items this)) this)
       else
         let item := CartItem.set_quantity (Z.min quantity (CartItem.maxQuantity item)) item in
         let item := CartItem.set_total (CartItem.quantity item * CartItem.price item) item in
         put (set_items (<[i := item]> (items this)) this));;
      calculateTotals
  end.

(** [removeItem(itemId)] *)
Definition removeItem (itemId : ObjectId) : M t unit :=
  modify (λ this, set_items (pull itemId (items this)) this);;
  calculateTotals.

(** [clear()] *)
Definition clear : M t unit :=
  modify (set_items []);;
  calculateTotals.

(** [applyDiscount(code, amount, type = 'fixed')] *)
Definition applyDiscount (code : option string) (amount : Z)
    (type : option string) : M t unit :=
  let type := default "fixed"%string type in
  modify (set_discount (Discount.mk code amount type true));;
  calculateTotals.

(** [removeDiscount()] *)
Definition removeDiscount : M t unit :=
  modify (set_discount (Discount.mk None 0 "fixed" false));;
  calculateTotals.
End Cart.

(** ** The cart collection and [mergeCarts] *)

Module Carts.
(** [findOne(query)]: the first document of the collection that matches. *)
Definition findOne (P : Cart.t → Prop) `{∀ c, Decision (P c)}
  : M (list Cart.t) (option Cart.t) :=
  store ← get; mret (snd <$> list_find P store).

(** [.populate('items.product', ...)]: the [product] path of every line
    reads populated. *)
Definition populate (c : Cart.t) : Cart.t :=
  Cart.set_items
    ((λ item, CartItem.set_product
                (ProductRef.Populated (ProductRef.id (CartItem.product item))) item)
       <$> Cart.items c) c.

(** [getByUser]:
    [findOne({ user: userId, isActive: true }).populate('items.product', ...)] *)
Definition getByUser (userId : ObjectId) : M (list Cart.t) (option Cart.t) :=
  c ← findOne (λ c, Cart.user c = Some userId ∧ Cart.isActive c = true);
  mret (populate <$> c).

(** [getBySession]:
    [findOne({ sessionId, isActive: true }).populate('items.product', ...)] *)
Definition getBySession (sessionId : string) : M (list Cart.t) (option Cart.t) :=
  c ← findOne (λ c, Cart.sessionId c = Some (SessionId.value sessionId) ∧
                    Cart.isActive c = true);
  mret (populate <$> c).

(** [item.product] reads [null]: the path is populated and the catalog has
    no product of that id. *)
Definition gone (products : gmap ObjectId ProductDoc.t) (item : CartItem.t) : Prop :=
  match CartItem.product item with
  | ProductRef.Id _ => False
  | ProductRef.Populated o => products !! o = None
  end.

#[global] Instance gone_dec products item : Decision (gone products item).
Proof. unfold gone. destruct (CartItem.product item); apply _. Defined.

(** The validators of the line schema: [product], [name], [quantity],
    [price] and [total] are required, [quantity] is at least 1, [price]
    and [total] are not negative. *)
Definition line_valid (products : gmap ObjectId ProductDoc.t) (item : CartItem.t)
  : Prop :=
  ¬ gone products item ∧ CartItem.name item ≠ ""%string ∧
  1 ≤ CartItem.quantity item ∧ 0 ≤ CartItem.price item ∧ 0 ≤ CartItem.total item.

#[global] Instance line_valid_dec products item : Decision (line_valid products item).
Proof. unfold line_valid. apply _. Defined.

(** The validators of the cart schema: [user] is required, [subtotal],
    [tax], [shipping.cost], [discount.amount] and [total] are not
    negative, [discount.type] is ['percentage'] or ['fixed'], and every
    line is valid. *)
Definition valid (products : gmap ObjectId ProductDoc.t) (doc : Cart.t) : Prop :=
  is_Some (Cart.user doc) ∧
  Forall (line_valid products) (Cart.items doc) ∧
  0 ≤ Cart.subtotal doc ∧ 0 ≤ Cart.tax doc ∧
  0 ≤ Shipping.cost (Cart.shipping doc) ∧
  0 ≤ Discount.amount (Cart.discount doc) ∧
  (Discount.type (Cart.discount doc) = "percentage"%string ∨
   Discount.type (Cart.discount doc) = "fixed"%string) ∧
  0 ≤ Cart.total doc.

#[global] Instance valid_dec products doc : Decision (valid products doc).
Proof. unfold valid. apply _. Defined.

(** The two [pre('save')] hooks: [this.lastActivity = new Date()], then
    [this.calculateTotals()]. [now] is the clock reading. *)
Definition pre_save (now : Z) : M Cart.t unit :=
  modify (Cart.set_lastActivity now);;
  Cart.calculateTotals.

(** A line as a save writes it: with the id of its product. *)
Definition depopulate (item : CartItem.t) : CartItem.t :=
  CartItem.set_product (ProductRef.Id (ProductRef.id (CartItem.product item))) item.

(** What a save makes of the stored document: the paths of [doc] that
    differ from the document as it was [loaded] are written, the others
    stay as they are stored. *)
Definition patch (loaded doc stored : Cart.t) : Cart.t :=
  Cart.mk (Cart._id stored)
    (if decide (Cart.user doc = Cart.user loaded)
     then Cart.user stored else Cart.user doc)
    (if decide (Cart.sessionId doc = Cart.sessionId loaded)
     then Cart.sessionId stored else Cart.sessionId doc)
    (if decide (Cart.items doc = Cart.items loaded)
     then Cart.items stored else depopulate <$> Cart.items doc)
    (if decide (Cart.subtotal doc = Cart.subtotal loaded)
     then Cart.subtotal stored else Cart.subtotal doc)
    (if decide (Cart.tax doc = Cart.tax loaded)
     then Cart.tax stored else Cart.tax doc)
    (if decide (Cart.shipping doc = Cart.shipping loaded)
     then Cart.shipping stored else Cart.shipping doc)
    (if decide (Cart.discount doc = Cart.discount loaded)
     then Cart.discount stored else Cart.discount doc)
    (if decide (Cart.total doc = Cart.total loaded)
     then Cart.total stored else Cart.total doc)
    (if decide (Cart.currency doc = Cart.currency loaded)
     then Cart.currency stored else Cart.currency doc)
    (if decide (Cart.expiresAt doc = Cart.expiresAt loaded)
     then Cart.expiresAt stored else Cart.expiresAt doc)
    (if decide (Cart.isActive doc = Cart.isActive loaded)
     then Cart.isActive stored else Cart.isActive doc)
    (if decide (Cart.lastActivity doc = Cart.lastActivity loaded)
     then Cart.lastActivity stored else Cart.lastActivity doc).

(** The unique sparse index on [sessionId] ([unique: true, sparse: true]):
    the collection does not take a [sessionId] that another document
    holds, [null] included; a document without the path is not in the
    index. [i] is the slot of the document that is written. *)
Definition duplicate_key (store : list Cart.t) (i : nat) (doc : Cart.t) : Prop :=
  is_Some (Cart.sessionId doc) ∧
  Exists (λ d, Cart.sessionId d = Cart.sessionId doc) (delete i store).

#[global] Instance duplicate_key_dec store i doc : Decision (duplicate_key store i doc).
Proof. unfold duplicate_key. apply _. Defined.

(** [doc.save()] on a document that a query [loaded]: the schema is
    validated, the hooks run, the changed paths are written to the stored
    document of that [_id], and the call resolves to the document. A
    write of [sessionId] that the unique index does not take is rejected
    by the database and nothing is written. *)
Definition save (products : gmap ObjectId ProductDoc.t) (now : Z)
    (loaded doc : Cart.t) : M (list Cart.t) Cart.t :=
  if decide (valid products doc) then
    let doc := exec (pre_save now) doc in
    store ← get;
    match list_find (λ d, Cart._id d = Cart._id doc) store with
    | Some (i, stored) =>
        if decide (Cart.sessionId doc ≠ Cart.sessionId loaded ∧
                   duplicate_key store i doc)
        then throw "MongoServerError"
        else put (<[i := patch loaded doc stored]> store);; mret doc
    | None => throw "DocumentNotFoundError"
    end
  else throw "ValidationError".

(** [item.product.toString() === sessionItem.product.toString() &&
     JSON.stringify(item.variant) === JSON.stringify(sessionItem.variant)] *)
Definition same_line (sessionItem item : CartItem.t) : Prop :=
  ProductRef.toString (CartItem.product item)
    = ProductRef.toString (CartItem.product sessionItem) ∧
  Json.stringify (CartItem.variant item) = Json.stringify (CartItem.variant sessionItem).

#[global] Instance same_line_dec sessionItem item : Decision (same_line sessionItem item).
Proof. unfold same_line. apply _. Defined.

(** [userCart.items.find(item => ...)], with the index of the line. The
    callback reads [item.product.toString()], then
    [sessionItem.product.toString()]: the search ends at the first line
    where it finds a product that reads [null], in a TypeError, or where
    it finds the line. *)
Definition find_line (products : gmap ObjectId ProductDoc.t)
    (items : list CartItem.t) (sessionItem : CartItem.t)
  : completion (option (nat * CartItem.t)) :=
  match list_find (λ item, gone products item ∨ gone products sessionItem ∨
                           same_line sessionItem item) items with
  | Some (i, item) =>
      if decide (gone products item ∨ gone products sessionItem)
      then Throw "TypeError"
      else Normal (Some (i, item))
  | None => Normal None
  end.

(** One turn of the merge loop on [userCart.items], the list of the
    values of its lines; a pushed line is the session line. *)
Definition merge_line (products : gmap ObjectId ProductDoc.t)
    (sessionItem : CartItem.t) : M (list CartItem.t) unit :=
  items ← get;
  match find_line products items sessionItem with
  | Normal (Some (i, existingItem)) =>
      put (<[i := CartItem.increment (CartItem.quantity sessionItem) existingItem]> items)
  | Normal None => put (items ++ [sessionItem])
  | Throw e => throw e
  end.

(** [for (const sessionItem of sessionCart.items) { ... }] *)
Fixpoint merge_lines (products : gmap ObjectId ProductDoc.t)
    (sessionItems : list CartItem.t) : M (list CartItem.t) unit :=
  match sessionItems with
  | [] => mret tt
  | sessionItem :: sessionItems =>
      merge_line products sessionItem;; merge_lines products sessionItems
  end.

(** [mergeCarts(sessionId, userId)]. [products] is the product collection
    that [populate] reads. *)
Definition mergeCarts (products : gmap ObjectId ProductDoc.t) (now : Z)
    (sessionId : string) (userId : ObjectId)
  : M (list Cart.t) (option Cart.t) :=
  sessionCart ← getBySession sessionId;
  userCart ← getByUser userId;
  match sessionCart, userCart with
  | None, _ => mret userCart
  | Some sessionCart, None =>
      Some <$> save products now sessionCart
                 (Cart.set_sessionId (Some SessionId.null)
                    (Cart.set_user (Some userId) sessionCart))
  | Some sessionCart, Some userCart =>
      match merge_lines products (Cart.items sessionCart) (Cart.items userCart) with
      | (Normal _, items) =>
          save products now sessionCart (Cart.set_isActive false sessionCart);;
          Some <$> save products now userCart (Cart.set_items items userCart)
      | (Throw e, _) => throw e
      end
  end.
End Carts.

(** ** JavaScript strings and dates used by the order-number hook *)

Module JsString.
#[local] Open Scope string_scope.

(** The character of a decimal digit. *)
Definition digit (d : Z) : Ascii.ascii := Ascii.ascii_of_nat (48 + Z.to_nat d).

(** Decimal digits of a non-negative integer, most significant first. *)
Fixpoint digits (fuel : nat) (n : Z) : string :=
  match fuel with
  | O => ""
  | S fuel =>
      if decide (n < 10) then String (digit n) ""
      else digits fuel (n / 10) +:+ String (digit (n mod 10)) ""
  end.

(** [n.toString()] of an integer Number. *)
Definition toString (n : Z) : string :=
  if decide (n < 0) then "-" +:+ digits (S (Z.to_nat (- n))) (- n)
  else digits (S (Z.to_nat n)) n.

(** [s.slice(-k)]: the last [k] characters, the whole string if it is
    shorter. *)
Definition slice_last (k : nat) (s : string) : string :=
  String.substring (String.length s - k) k s.

Fixpoint repeat (c : Ascii.ascii) (n : nat) : string :=
  match n with
  | O => ""
  | S n => String c (repeat c n)
  end.

(** [s.padStart(n, c)] with a one-character filler. *)
Definition padStart (n : nat) (c : Ascii.ascii) (s : string) : string :=
  repeat c (n - String.length s) +:+ s.
End JsString.

(** The [Date] API of the host, in its local time zone: the calendar fields
    of an instant and [new Date(year, monthIndex, day)], local midnight of
    that day. *)
Class LocalTime : Type := {
  getFullYear : Z → Z;
  getMonth : Z → Z;
  getDate : Z → Z;
  newDate : Z → Z → Z → Z
}.

(** ** Order *)

Module StatusEntry.
Record t : Type := mk {
  status : string;
  timestamp : Z;
  note : option string;
  updatedBy : option ObjectId
}.
End StatusEntry.

Module Refund.
Record t : Type := mk {
  amount : Z;
  reason : string;
  processedAt : Z;
  processedBy : ObjectId
}.
End Refund.

Module Order.

Record t : Type := mk {
  _id : ObjectId;
  orderNumber : option string;
  user : ObjectId;
  status : string;
  paymentStatus : string;
  total : Z;
  statusHistory : list StatusEntry.t;
  refund : option Refund.t;
  createdAt : Z
}.

Definition set_orderNumber (x : option string) (o : t) : t :=
  mk (_id o) x (user o) (status o) (paymentStatus o) (total o)
     (statusHistory o) (refund o) (createdAt o).
Definition set_status (x : string) (o : t) : t :=
  mk (_id o) (orderNumber o) (user o) x (paymentStatus o) (total o)
     (statusHistory o) (refund o) (createdAt o).
Definition set_paymentStatus (x : string) (o : t) : t :=
  mk (_id o) (orderNumber o) (user o) (status o) x (total o)
     (statusHistory o) (refund o) (createdAt o).
Definition set_statusHistory (x : list StatusEntry.t) (o : t) : t :=
  mk (_id o) (orderNumber o) (user o) (status o) (paymentStatus o) (total o)
     x (refund o) (createdAt o).
Definition set_refund (x : option Refund.t) (o : t) : t :=
  mk (_id o) (orderNumber o) (user o) (status o) (paymentStatus o) (total o)
     (statusHistory o) x (createdAt o).

(** Virtual [canBeCancelled]:
    [['pending', 'confirmed', 'processing'].includes(this.status)] *)
Definition canBeCancelled (this : t) : bool :=
  bool_decide (status this ∈ ["pending"; "confirmed"; "processing"]).

(** Virtual [canBeRefunded]:
    [this.paymentStatus === 'paid' && this.status === 'delivered'] *)
Definition canBeRefunded (this : t) : bool :=
  bool_decide (paymentStatus this = "paid") && bool_decide (status this = "delivered").

(** [updateStatus(newStatus, note = '', updatedBy = null)]; [now] is
    [new Date()]. *)
Definition updateStatus (now : Z) (newStatus : string) (note : option string)
    (updatedBy : option ObjectId) : M t unit :=
  let note := default "" note in
  modify (set_status newStatus);;
  modify (λ this,
    set_statusHistory
      (statusHistory this ++ [StatusEntry.mk newStatus now (Some note) updatedBy]) this).

(** [processRefund(amount, reason, processedBy)] *)
Definition processRefund (now : Z) (amount : Z) (reason : string)
    (processedBy : ObjectId) : M t unit :=
  modify (set_refund (Some (Refund.mk amount reason now processedBy)));;
  modify (λ this,
    set_paymentStatus
      (if decide (amount >= total this)%Z then "refunded" else "partially_refunded") this);;
  modify (set_status "refunded").

(** [countDocuments({ createdAt: { $gte: today } })] *)
Definition countDocuments_since (today : Z) (store : list t) : Z :=
  Z.of_nat (length (filter (λ o, today ≤ createdAt o) store)).

(** The [pre('save')] hook that generates the order number. [isNew] is
    the document's flag, [date] is [new Date()], [store] the collection
    the count is read from. *)
Definition pre_save_orderNumber `{LocalTime} (isNew : bool) (date : Z)
    (store : list t) : M t unit :=
  if isNew then
    let y := JsString.slice_last 2 (JsString.toString (getFullYear date)) in
    let m := JsString.padStart 2 "0"%char (JsString.toString (getMonth date + 1)) in
    let d := JsString.padStart 2 "0"%char (JsString.toString (getDate date)) in
    let today := newDate (getFullYear date) (getMonth date) (getDate date) in
    let count := countDocuments_since today store in
    modify (set_orderNumber
              (Some ("ORD" +:+ y +:+ m +:+ d +:+
                     JsString.padStart 4 "0"%char (JsString.toString (count + 1)))))
  else mret tt.

(** The [pre('save')] hook that tracks the status history: when [status]
    was modified it pushes [{status, timestamp, updatedBy: this.user}]. *)
Definition pre_save_statusHistory (isModified_status : bool) (now : Z) : M t unit :=
  if isModified_status then
    modify (λ this,
      set_statusHistory
        (statusHistory this ++ [StatusEntry.mk (status this) now None (Some (user this))])
        this)
  else mret tt.
End Order.

(** ** Review: the helpful votes *)

Module Helpful.
Record t : Type := mk { count : Z; users : list ObjectId }.
End Helpful.

Module Review.
Record t : Type := mk {
  _id : ObjectId;
  user : ObjectId;
  product : ObjectId;
  rating : Z;
  status : string;
  helpful : Helpful.t
}.

Definition set_helpful (x : Helpful.t) (r : t) : t :=
  mk (_id r) (user r) (product r) (rating r) (status r) x.

(** [this.save()]: the document as it stands is persisted. Its
    [pre('save')] hook refreshes the product's rating summary when
    [rating] or [status] changed and leaves the review as it is. *)
Definition save : M t unit := mret tt.

(** [markHelpful(userId)]; [includes] and [indexOf] of a mongoose array
    compare ObjectIds by value. *)
Definition markHelpful (userId : ObjectId) : M t unit :=
  this ← get;
  (if decide (userId ∈ Helpful.users (helpful this)) then mret tt
   else
     put (set_helpful
            (Helpful.mk (Helpful.count (helpful this) + 1)
               (Helpful.users (helpful this) ++ [userId])) this));;
  save.

(** [unmarkHelpful(userId)]: [indexOf] gives the first position of
    [userId], [splice(index, 1)] removes that one element. *)
Definition unmarkHelpful (userId : ObjectId) : M t unit :=
  this ← get;
  match list_find (λ u, u = userId) (Helpful.users (helpful this)) with
  | Some (index, _) =>
      put (set_helpful
             (Helpful.mk (Z.max 0 (Helpful.count (helpful this) - 1))
                (delete index (Helpful.users (helpful this)))) this)
  | None => mret tt
  end;;
  save.
End Review.

(** ** Category: ancestors and level *)

Module Ancestor.
Record t : Type := mk { _id : ObjectId; name : string; slug : option string }.
End Ancestor.

Module Category.
Record t : Type := mk {
  _id : ObjectId;
  name : string;
  slug : option string;
  parent : option ObjectId;
  ancestors : list Ancestor.t;
  level : Z;
  status : string;
  productCount : Z
}.

Definition set_slug (x : option string) (c : t) : t :=
  mk (_id c) (name c) x (parent c) (ancestors c) (level c) (status c) (productCount c).
Definition set_ancestors (x : list Ancestor.t) (c : t) : t :=
  mk (_id c) (name c) (slug c) (parent c) x (level c) (status c) (productCount c).
Definition set_level (x : Z) (c : t) : t :=
  mk (_id c) (name c) (slug c) (parent c) (ancestors c) x (status c) (productCount c).
Definition set_productCount (x : Z) (c : t) : t :=
  mk (_id c) (name c) (slug c) (parent c) (ancestors c) (level c) (status c) x.

(** Change tracking of a document: [isModified(path)] and [isNew]. *)
Record tracking : Type := mk_tracking {
  isModified_name : bool;
  isModified_parent : bool;
  isModified_status : bool;
  isNew : bool
}.

(** [{ _id: parent._id, name: parent.name, slug: parent.slug }] *)
Definition summary (parent : t) : Ancestor.t :=
  Ancestor.mk (_id parent) (name parent) (slug parent).

Section hooks.
(** [slugify(name, options)] of the slugify package, and
    [Product.countDocuments({ category, status: 'active' })]. *)
Context (slugify : string → string) (countActiveProducts : ObjectId → Z).

(** The [pre('save')] hook; [store] is the category collection that
    [findById] reads. *)
Definition pre_save (store : gmap ObjectId t) (tr : tracking) : M t unit :=
  (if isModified_name tr then modify (λ this, set_slug (Some (slugify (name this))) this)
   else mret tt);;
  (if isModified_parent tr then
     this ← get;
     match parent this with
     | Some pid =>
         match store !! pid with
         | Some parent =>
             modify (set_level (level parent + 1));;
             modify (set_ancestors (ancestors parent ++ [summary parent]))
         | None => mret tt
         end
     | None =>
         modify (set_level 0);;
         modify (set_ancestors [])
     end
   else mret tt);;
  (if isModified_status tr || isNew tr then
     modify (λ this, set_productCount (countActiveProducts (_id this)) this)
   else mret tt).

(** [doc.save()]: run the hook, then write the document under its
    [_id]; no other document of the collection is written. *)
Definition save (tr : tracking) (doc : t) : M (gmap ObjectId t) t :=
  store ← get;
  let doc := exec (pre_save store tr) doc in
  put (<[_id doc := doc]> store);;
  mret doc.
End hooks.
End Category.

(** ** Calls on a cart, and what the specification says of its totals *)

Module CartCall.
(** The mutating methods of a cart, as a caller invokes them. *)
Inductive t : Type :=
  | AddItem (oid : ObjectId) (product : Product.t) (quantity : option Z)
      (variant : option Variant.t)
  | UpdateItemQuantity (itemId : ObjectId) (quantity : Z)
  | RemoveItem (itemId : ObjectId)
  | ApplyDiscount (code : option string) (amount : Z) (type : option string)
  | RemoveDiscount
  | Clear.

Definition invoke {casting : Casting} (call : t) : M Cart.t unit :=
  match call with
  | AddItem oid product quantity variant => Cart.addItem oid product quantity variant
  | UpdateItemQuantity itemId quantity => Cart.updateItemQuantity itemId quantity
  | RemoveItem itemId => Cart.removeItem itemId
  | ApplyDiscount code amount type => Cart.applyDiscount code amount type
  | RemoveDiscount => Cart.removeDiscount
  | Clear => Cart.clear
  end.

(** A sequence of calls, one after the other; a throw ends it. *)
Fixpoint run {casting : Casting} (calls : list t) : M Cart.t unit :=
  match calls with
  | [] => mret tt
  | call :: calls => invoke call;; run calls
  end.
End CartCall.

(** What the code compares of two lines: the text of the product and the
    text of the variant. *)
Definition line_key (item : CartItem.t) : ProductRef.text * option string :=
  (ProductRef.toString (CartItem.product item), Json.stringify (CartItem.variant item)).

(** The merge loop where no product reads [null] and nothing is raised:
    the search is a plain [find], a turn increments the line found or
    pushes the session line. *)
Module Merge.
Definition find (items : list CartItem.t) (sessionItem : CartItem.t)
  : option (nat * CartItem.t) :=
  list_find (Carts.same_line sessionItem) items.

Definition step (items : list CartItem.t) (sessionItem : CartItem.t)
  : list CartItem.t :=
  match find items sessionItem with
  | Some (i, existingItem) =>
      <[i := CartItem.increment (CartItem.quantity sessionItem) existingItem]> items
  | None => items ++ [sessionItem]
  end.
End Merge.

(** [Σ item.total], as the specification writes the subtotal. *)
Fixpoint sum_item_totals (items : list CartItem.t) : Z :=
  match items with
  | [] => 0
  | item :: items => CartItem.total item + sum_item_totals items
  end.

(** The totals equations of the specification. *)
Definition totals_hold (c : Cart.t) : Prop :=
  Cart.subtotal c = sum_item_totals (Cart.items c) ∧
  Cart.total c =
    Cart.subtotal c + Cart.tax c + Shipping.cost (Cart.shipping c)
    - Discount.amount (Cart.discount c).

(** ** The category invariant *)

(** [level == length(ancestors)] *)
Definition level_matches (c : Category.t) : Prop :=
  Category.level c = Z.of_nat (length (Category.ancestors c)).

(** Every stored category satisfies it. *)
Definition levels_match (store : gmap ObjectId Category.t) : Prop :=
  ∀ id c, store !! id = Some c → level_matches c.

(** ** Votes on a review *)

Module Vote.
(** The two calls a reader can make on a review. *)
Inductive t : Type :=
  | MarkHelpful (userId : ObjectId)
  | UnmarkHelpful (userId : ObjectId).

Definition invoke (call : t) : M Review.t unit :=
  match call with
  | MarkHelpful userId => Review.markHelpful userId
  | UnmarkHelpful userId => Review.unmarkHelpful userId
  end.

Fixpoint run (calls : list t) : M Review.t unit :=
  match calls with
  | [] => mret tt
  | call :: calls => invoke call;; run calls
  end.
End Vote.

(** The vote set is well formed: no user twice, and [count] is its size. *)
Definition votes_consistent (r : Review.t) : Prop :=
  NoDup (Helpful.users (Review.helpful r)) ∧
  Helpful.count (Review.helpful r)
  = Z.of_nat (length (Helpful.users (Review.helpful r))).

(** ** The order number, as the specification writes it *)

(** The last [width] decimal digits of [n], leading zeros included. *)
Fixpoint last_digits (width : nat) (n : Z) : string :=
  match width with
  | O => ""
  | S width => last_digits width (n / 10) +:+ String (JsString.digit (n mod 10)) ""
  end.

(** A two-digit and a four-digit field. *)
Definition two_digits (n : Z) : string := last_digits 2 n.
Definition four_digits (n : Z) : string := last_digits 4 n.

(** A host whose local time zone is UTC, with the proleptic Gregorian
    calendar computed from the day number. *)
Module Utc.
Definition ms_per_day : Z := 86400000.

(** Year, month (1 to 12) and day of the month of a day number. *)
Definition civil_from_days (days : Z) : Z * Z * Z :=
  let z := days + 719468 in
  let era := z / 146097 in
  let doe := z - era * 146097 in
  let yoe := (doe - doe / 1460 + doe / 36524 - doe / 146096) / 365 in
  let doy := doe - (365 * yoe + yoe / 4 - yoe / 100) in
  let mp := (5 * doy + 2) / 153 in
  let d := doy - (153 * mp + 2) / 5 + 1 in
  let m := if decide (mp < 10) then mp + 3 else mp - 9 in
  (yoe + era * 400 + (if decide (m ≤ 2) then 1 else 0), m, d).

(** The day number of a year, month (1 to 12) and day of the month. *)
Definition days_from_civil (y m d : Z) : Z :=
  let y := if decide (m ≤ 2) then y - 1 else y in
  let era := y / 400 in
  let yoe := y - era * 400 in
  let doy := (153 * (if decide (2 < m) then m - 3 else m + 9) + 2) / 5 + d - 1 in
  let doe := yoe * 365 + yoe / 4 - yoe / 100 + doy in
  era * 146097 + doe - 719468.

Definition local_time : LocalTime := {|
  getFullYear t := (civil_from_days (t / ms_per_day)).1.1;
  getMonth t := (civil_from_days (t / ms_per_day)).1.2 - 1;
  getDate t := (civil_from_days (t / ms_per_day)).2;
  newDate y m d := days_from_civil y (m + 1) d * ms_per_day
|}.
End Utc.

(** ** Sample documents *)

Module Sample.
Definition pen : Product.t :=
  Product.mk 7 "pen" (Some "PEN-1"%string) 250 None (Some 0).

Definition ink : Product.t :=
  Product.mk 8 "ink" None 400 None (Some 10).

(** A cart as the schema defaults create it. *)
Definition empty_cart : Cart.t :=
  Cart.mk 1 (Some 9%nat) None [] 0 0 (Shipping.mk 0 None None)
    (Discount.mk None 0 "fixed" false) 0 "USD" 2592000000 true 0.

(** A subdocument that reads the variant it was pushed with. *)
Definition as_given : Casting := λ v, Some v.

(** The blue pen, and the same variant with its keys the other way
    round. *)
Definition blue : Variant.t :=
  Variant.object [("name", "Color"); ("option", "Blue")]%string.
Definition blue_reversed : Variant.t :=
  Variant.object [("option", "Blue"); ("name", "Color")]%string.

Definition pen_line (oid : ObjectId) (quantity : Z) : CartItem.t :=
  CartItem.mk oid (ProductRef.Id 7) "pen" (Some "PEN-1"%string) quantity 250
    (quantity * 250) (Some blue) None true 100.

Definition ink_line (oid : ObjectId) (quantity : Z) : CartItem.t :=
  CartItem.mk oid (ProductRef.Id 8) "ink" None quantity 400 (quantity * 400)
    (Some Variant.null) None true 10.

(** The catalog the two products are in, and the catalog after the ink
    was deleted. *)
Definition pen_doc : ProductDoc.t :=
  ProductDoc.mk 7 "pen" (Some "PEN-1"%string) 250 []
    (Inventory.mk 5 10 true false (Some 0)) "active".
Definition ink_doc : ProductDoc.t :=
  ProductDoc.mk 8 "ink" None 400 [] (Inventory.mk 3 1 true false (Some 10)) "active".
Definition catalog : gmap ObjectId ProductDoc.t :=
  <[8%nat := ink_doc]> (<[7%nat := pen_doc]> ∅).
Definition catalog_without_ink : gmap ObjectId ProductDoc.t :=
  <[7%nat := pen_doc]> ∅.

(** A user's cart and the cart of a session in one collection. *)
Definition user_cart : Cart.t :=
  Cart.mk 1 (Some 9%nat) None [pen_line 100 3] 750 0 (Shipping.mk 0 None None)
    (Discount.mk None 0 "fixed" false) 750 "USD" 2592000000 true 0.

Definition session_cart : Cart.t :=
  Cart.mk 2 (Some 5%nat) (Some (SessionId.value "sess-1")) [pen_line 200 2; ink_line 201 1]
    900 0
    (Shipping.mk 0 None None) (Discount.mk None 0 "fixed" false) 900 "USD"
    2592000000 true 0.

Definition carts : list Cart.t := [user_cart; session_cart].

(** The same collection with a session cart that has no [user]. *)
Definition guest_cart : Cart.t := Cart.set_user None session_cart.
Definition carts_with_guest : list Cart.t := [user_cart; guest_cart].

(** A collection in which the cart of an earlier session was made a
    user's: its [sessionId] is [null]. *)
Definition reassigned_cart : Cart.t :=
  Cart.mk 3 (Some 77%nat) (Some SessionId.null) [] 0 0 (Shipping.mk 0 None None)
    (Discount.mk None 0 "fixed" false) 0 "USD" 2592000000 true 0.
Definition carts_with_reassigned : list Cart.t := [reassigned_cart; session_cart].

(** 2 November 2026, 09:30 UTC, and midnight of that day. *)
Definition morning : Z := 1793611800000.
Definition midnight : Z := 1793577600000.

Definition order (oid : ObjectId) (status paymentStatus : string) (createdAt : Z)
  : Order.t :=
  Order.mk oid None 9 status paymentStatus 1000 [] None createdAt.

(** Two orders of the day before and two of the day. *)
Definition orders : list Order.t :=
  [order 1 "delivered" "paid" (midnight - 7200000);
   order 2 "shipped" "paid" (midnight - 1);
   order 3 "pending" "pending" midnight;
   order 4 "confirmed" "paid" (midnight + 3600000)].

(** A review as the schema defaults create it, without votes. *)
Definition review : Review.t := Review.mk 1 9 7 5 "pending" (Helpful.mk 0 []).

(** Three categories in a chain: Books > Fiction > Crime. *)
Definition books : Category.t :=
  Category.mk 10 "Books" (Some "books"%string) None [] 0 "active" 0.

Definition fiction : Category.t :=
  Category.mk 11 "Fiction" (Some "fiction"%string) (Some 10%nat)
    [Ancestor.mk 10 "Books" (Some "books"%string)] 1 "active" 0.

Definition crime : Category.t :=
  Category.mk 12 "Crime" (Some "crime"%string) (Some 11%nat)
    [Ancestor.mk 10 "Books" (Some "books"%string);
     Ancestor.mk 11 "Fiction" (Some "fiction"%string)] 2 "active" 0.

Definition categories : gmap ObjectId Category.t :=
  <[12%nat := crime]> (<[11%nat := fiction]> (<[10%nat := books]> ∅)).

(** A change of [parent] only. *)
Definition parent_changed : Category.tracking :=
  Category.mk_tracking false true false false.
End Sample.

(** * More of the models *)

(** ** Cart virtuals and the expiry sweep *)

Module CartView.
(** Virtual [hasItems]: [this.items.length > 0]. *)
Definition hasItems (this : Cart.t) : bool :=
  bool_decide (0 < length (Cart.items this))%nat.

(** Virtual [isExpired]: [new Date() > this.expiresAt]. *)
Definition isExpired (now : Z) (this : Cart.t) : bool :=
  bool_decide (now > Cart.expiresAt this).
End CartView.

Module CartSweep.
(** The filter [{ expiresAt: { $lt: new Date() }, isActive: true }]. *)
Definition stale (now : Z) (c : Cart.t) : Prop :=
  Cart.expiresAt c < now ∧ Cart.isActive c = true.

#[global] Instance stale_dec now c : Decision (stale now c).
Proof. unfold stale. apply _. Defined.

(** [cleanExpired()]: [updateMany(filter, { isActive: false })]. Every
    matching document gets [isActive = false] in place (no save hook
    runs); the call resolves to the number of documents modified. *)
Definition cleanExpired (now : Z) : M (list Cart.t) nat :=
  store ← get;
  put ((λ c, if decide (stale now c) then Cart.set_isActive false c else c) <$> store);;
  mret (length (filter (stale now) store)).
End CartSweep.

(** ** Cart validation against the catalog *)

Module CartValidation.
Definition set_available (b : bool) (i : CartItem.t) : CartItem.t :=
  CartItem.mk (CartItem._id i) (CartItem.product i) (CartItem.name i) (CartItem.sku i)
    (CartItem.quantity i) (CartItem.price i) (CartItem.total i) (CartItem.variant i)
    (CartItem.image i) b (CartItem.maxQuantity i).
Definition set_maxQuantity (x : Z) (i : CartItem.t) : CartItem.t :=
  CartItem.mk (CartItem._id i) (CartItem.product i) (CartItem.name i) (CartItem.sku i)
    (CartItem.quantity i) (CartItem.price i) (CartItem.total i) (CartItem.variant i)
    (CartItem.image i) (CartItem.available i) x.

(** The body of the loop of [validateItems] on one line; [products] is the
    product collection that [findById] reads. *)
Definition validate_line (products : gmap ObjectId ProductDoc.t) (item : CartItem.t)
  : CartItem.t :=
  match products !! CartItem.product item with
  | None => set_available false item
  | Some product =>
      if decide (ProductDoc.status product ≠ "active"%string) then
        set_available false item
      else if Inventory.trackQuantity (ProductDoc.inventory product)
              && bool_decide (CartItem.quantity item
                              > Inventory.quantity (ProductDoc.inventory product)) then
        set_available false item
      else
        set_maxQuantity
          (or_default (Inventory.maxOrderQuantity (ProductDoc.inventory product)) 100)
          (set_available true item)
  end.

(** [validateItems()]: every line in turn. *)
Definition validateItems (products : gmap ObjectId ProductDoc.t) : M Cart.t unit :=
  modify (λ this, Cart.set_items (validate_line products <$> Cart.items this) this).
End CartValidation.

(** ** Order lines and order totals *)

Module OrderItem.
Record t : Type := mk {
  product : ObjectId;
  name : string;
  sku : option string;
  quantity : Z;
  price : Z;
  total : Z;
  variant : option Variant.t;
  image : option string
}.
End OrderItem.

(** The part of an order that [calculateTotals] and [addItem] read and
    write: the lines and the amounts. *)
Module OrderLines.
Record t : Type := mk {
  items : list OrderItem.t;
  subtotal : Z;
  tax : Z;
  shipping_cost : Z;
  discount_amount : Z;
  total : Z
}.

(** Virtual [totalItems]:
    [this.items.reduce((sum, item) => sum + item.quantity, 0)] *)
Definition totalItems (this : t) : Z :=
  foldl (λ sum item, sum + OrderItem.quantity item) 0 (items this).

(** [calculateTotals()] *)
Definition calculateTotals : M t unit :=
  modify (λ this,
    let subtotal := foldl (λ sum item, sum + OrderItem.total item) 0 (items this) in
    mk (items this) subtotal (tax this) (shipping_cost this) (discount_amount this)
       (subtotal + tax this + shipping_cost this - discount_amount this)).

(** [addItem(product, quantity, price, variant = null)] *)
Definition addItem (product : Product.t) (quantity price : Z)
    (variant : option Variant.t) : M t unit :=
  let line_total := quantity * price in
  modify (λ this,
    mk (items this ++
        [OrderItem.mk (Product._id product) (Product.name product) (Product.sku product)
           quantity price line_total variant (Product.primaryImage product)])
       (subtotal this) (tax this) (shipping_cost this) (discount_amount this)
       (total this));;
  calculateTotals.
End OrderLines.

(** Virtual [isPaid] of an order. *)
Definition Order_isPaid (this : Order.t) : bool :=
  bool_decide (Order.paymentStatus this = "paid"%string).

(** The calls that write an order's status, as a caller makes them; [Save]
    is the status-history hook a save runs. *)
Module OrderCall.
Inductive t : Type :=
  | UpdateStatus (now : Z) (newStatus : string) (note : option string)
      (updatedBy : option ObjectId)
  | ProcessRefund (now amount : Z) (reason : string) (processedBy : ObjectId)
  | Save (isModified_status : bool) (now : Z).

Definition invoke (call : t) : M Order.t unit :=
  match call with
  | UpdateStatus now newStatus note updatedBy =>
      Order.updateStatus now newStatus note updatedBy
  | ProcessRefund now amount reason processedBy =>
      Order.processRefund now amount reason processedBy
  | Save isModified_status now => Order.pre_save_statusHistory isModified_status now
  end.

Fixpoint run (calls : list t) : M Order.t unit :=
  match calls with
  | [] => mret tt
  | call :: calls => invoke call;; run calls
  end.
End OrderCall.

(** Reading a sequence number back: the value of a decimal string. *)
Definition digit_value (c : Ascii.ascii) : Z := Z.of_nat (Ascii.nat_of_ascii c) - 48.

Fixpoint parse_digits (acc : Z) (s : string) : Z :=
  match s with
  | EmptyString => acc
  | String c s => parse_digits (10 * acc + digit_value c) s
  end.

Definition parse_decimal (s : string) : Z := parse_digits 0 s.

(** ** User: login attempts, lockout and the default address *)

Module Address.
Record t : Type := mk {
  street : string;
  city : string;
  state : string;
  zipCode : string;
  country : string;
  isDefault : bool
}.
End Address.

Module User.
Record t : Type := mk {
  _id : ObjectId;
  name : string;
  email : string;
  addresses : list Address.t;
  loginAttempts : option Z;
  lockUntil : option Z
}.

Definition set_loginAttempts (x : option Z) (u : t) : t :=
  mk (_id u) (name u) (email u) (addresses u) x (lockUntil u).
Definition set_lockUntil (x : option Z) (u : t) : t :=
  mk (_id u) (name u) (email u) (addresses u) (loginAttempts u) x.

(** Virtual [defaultAddress]:
    [this.addresses.find(addr => addr.isDefault) || this.addresses[0]] *)
Definition defaultAddress (this : t) : option Address.t :=
  match list_find (λ addr, Address.isDefault addr = true) (addresses this) with
  | Some (_, addr) => Some addr
  | None => head (addresses this)
  end.

(** [this.loginAttempts] of a loaded document: a missing field reads as
    the schema default [0]. *)
Definition attempts (this : t) : Z := default 0 (loginAttempts this).

(** [isLocked()]: [!!(this.lockUntil && this.lockUntil > Date.now())] *)
Definition isLocked (now : Z) (this : t) : bool :=
  match lockUntil this with
  | Some t => bool_decide (t > now)
  | None => false
  end.

(** [incLoginAttempts()]. [this] is the loaded document, whose fields the
    conditions read; [this.updateOne(update)] applies [$set], [$unset]
    and [$inc] to the stored document, which is the state ([$inc] of a
    missing field counts from 0). [now] is [Date.now()]. *)
Definition incLoginAttempts (now : Z) (this : t) : M t unit :=
  if match lockUntil this with
     | Some t => bool_decide (t < now)
     | None => false
     end
  then
    modify (λ stored, set_loginAttempts (Some 1) (set_lockUntil None stored))
  else
    let lock := bool_decide (attempts this + 1 >= 5) && negb (isLocked now this) in
    modify (λ stored,
      let stored :=
        set_loginAttempts (Some (default 0 (loginAttempts stored) + 1)) stored in
      if lock then set_lockUntil (Some (now + 2 * 60 * 60 * 1000)) stored else stored).

(** [resetLoginAttempts()]:
    [updateOne({ $unset: { loginAttempts: 1, lockUntil: 1 } })] *)
Definition resetLoginAttempts : M t unit :=
  modify (λ stored, set_loginAttempts None (set_lockUntil None stored)).
End User.

(** A failed login as a request makes it: the user is loaded and
    [incLoginAttempts] is called on the loaded document. *)
Module FailedLogin.
Definition at_time (now : Z) : M User.t unit :=
  this ← get; User.incLoginAttempts now this.

(** One failed login after the other, at the given times. *)
Fixpoint run (times : list Z) : M User.t unit :=
  match times with
  | [] => mret tt
  | now :: times => at_time now;; run times
  end.
End FailedLogin.

(** A lock is never without its five failures. *)
Definition lock_justified (u : User.t) : Prop :=
  is_Some (User.lockUntil u) → 5 ≤ User.attempts u.

(** ** Category paths and breadcrumbs *)

Module JsArray.
(** [array.join(sep)] on an array of strings: an [undefined] or [null]
    element gives the empty string. *)
Fixpoint join (sep : string) (l : list (option string)) : string :=
  match l with
  | [] => ""
  | x :: l =>
      match l with
      | [] => default ""%string x
      | _ :: _ => default ""%string x +:+ sep +:+ join sep l
      end
  end.
End JsArray.

Module CategoryView.
(** Virtual [fullPath]:
    [[...this.ancestors.map(a => a.name), this.name].join(' > ')] *)
Definition fullPath (this : Category.t) : string :=
  JsArray.join " > "
    (((λ a, Some (Ancestor.name a)) <$> Category.ancestors this)
     ++ [Some (Category.name this)]).

(** Virtual [fullSlugPath]:
    [[...this.ancestors.map(a => a.slug), this.slug].join('/')] *)
Definition fullSlugPath (this : Category.t) : string :=
  JsArray.join "/"
    ((Ancestor.slug <$> Category.ancestors this) ++ [Category.slug this]).

(** [getBreadcrumb(categoryId)] *)
Definition getBreadcrumb (categoryId : ObjectId)
  : M (gmap ObjectId Category.t) (list Ancestor.t) :=
  store ← get;
  mret (match store !! categoryId with
        | None => []
        | Some category => Category.ancestors category ++ [Category.summary category]
        end).

(** [new Category({ name, parent })]: the other fields at their schema
    defaults. *)
Definition fresh (id : ObjectId) (name : string) (parent : option ObjectId)
  : Category.t :=
  Category.mk id name None parent [] 0 "active" 0.

(** A loaded category whose [name], [parent] and [status] a request
    assigned; the denormalised fields are the stored ones. *)
Definition edited (c : Category.t) (name : string) (parent : option ObjectId)
    (status : string) : Category.t :=
  Category.mk (Category._id c) name (Category.slug c) parent (Category.ancestors c)
    (Category.level c) status (Category.productCount c).

Section built.
Context (slugify : string → string) (countActiveProducts : ObjectId → Z).

(** The collections that saves of new and of edited categories build. *)
Inductive built : gmap ObjectId Category.t → Prop :=
  | built_empty : built ∅
  | built_create store tr id name parent :
      built store →
      built (exec (Category.save slugify countActiveProducts tr (fresh id name parent))
               store)
  | built_update store tr id c name parent status :
      built store → store !! id = Some c →
      built (exec (Category.save slugify countActiveProducts tr
                     (edited c name parent status)) store).
End built.

(** A child whose materialised path is the one of its stored parent. *)
Definition path_of_parent (store : gmap ObjectId Category.t) (c : Category.t) : Prop :=
  ∃ pid p,
    Category.parent c = Some pid ∧ store !! pid = Some p ∧
    Category.ancestors c = Category.ancestors p ++ [Category.summary p].
End CategoryView.

(** ** What a well-formed cart looks like *)

(** A line's total is its quantity times its price. *)
Definition line_consistent (item : CartItem.t) : Prop :=
  CartItem.total item = CartItem.quantity item * CartItem.price item.

Definition lines_consistent (c : Cart.t) : Prop :=
  Forall line_consistent (Cart.items c).

(** No two lines with the same product text and the same variant text. *)
Definition one_line_per_key (c : Cart.t) : Prop :=
  NoDup (line_key <$> Cart.items c).

(** Line ids are pairwise distinct. *)
Definition distinct_line_ids (c : Cart.t) : Prop :=
  NoDup (CartItem._id <$> Cart.items c).

(** The id [addItem] is given for a pushed line is not in use. *)
Definition unused_id (c : Cart.t) (call : CartCall.t) : Prop :=
  match call with
  | CartCall.AddItem oid _ _ _ => ∀ item, item ∈ Cart.items c → CartItem._id item ≠ oid
  | _ => True
  end.

(** The calls that push a status-history entry. *)
Definition logs_status (call : OrderCall.t) : bool :=
  match call with
  | OrderCall.UpdateStatus _ _ _ _ => true
  | OrderCall.ProcessRefund _ _ _ _ => false
  | OrderCall.Save isModified_status _ => isModified_status
  end.

(** * Properties *)

(** ** The method monad *)

Lemma bind_normal {S A B} (m : M S A) (k : A → M S B) s a s' :
  m s = (Normal a, s') → (m ≫= k) s = k a s'.
Proof. intros E. unfold mbind, M_bind. by rewrite E. Qed.

(** ** Cart totals *)

Lemma reduce_totals (items : list CartItem.t) (acc : Z) :
  foldl (λ total item, total + CartItem.total item) acc items
  = acc + sum_item_totals items.
Proof.
  revert acc. induction items as [|item items IH]; intros acc; simpl.
  - lia.
  - rewrite IH. lia.
Qed.

Lemma calculateTotals_run (c : Cart.t) :
  Cart.calculateTotals c = (Normal tt, exec Cart.calculateTotals c).
Proof. reflexivity. Qed.

Lemma calculateTotals_items (c : Cart.t) :
  Cart.items (exec Cart.calculateTotals c) = Cart.items c.
Proof. reflexivity. Qed.

Lemma calculateTotals_holds (c : Cart.t) : totals_hold (exec Cart.calculateTotals c).
Proof.
  unfold totals_hold, exec, Cart.calculateTotals, modify; simpl.
  rewrite reduce_totals. split; [lia | reflexivity].
Qed.

(** ** What each cart method computes *)

Section cart_methods.
Context {casting : Casting}.

Lemma addItem_existing oid product quantity variant (c : Cart.t) i existingItem :
  list_find (CartItem.same_line (Product._id product) (default Variant.null variant))
    (Cart.items c) = Some (i, existingItem) →
  Cart.addItem oid product quantity variant c
  = (Normal tt,
     exec Cart.calculateTotals
       (Cart.set_items
          (<[i := CartItem.increment (default 1 quantity) existingItem]> (Cart.items c)) c)).
Proof.
  intros E. unfold Cart.addItem, mbind, M_bind, get, put; simpl. by rewrite E.
Qed.

Lemma addItem_new oid product quantity variant (c : Cart.t) :
  list_find (CartItem.same_line (Product._id product) (default Variant.null variant))
    (Cart.items c) = None →
  Cart.addItem oid product quantity variant c
  = (Normal tt,
     exec Cart.calculateTotals
       (Cart.set_items
          (Cart.items c ++
           [CartItem.mk oid (Product._id product) (Product.name product)
              (Product.sku product) (default 1 quantity) (Product.price product)
              (default 1 quantity * Product.price product)
              (cast_variant (default Variant.null variant))
              (Product.primaryImage product) true
              (or_default (Product.maxOrderQuantity product) 100)]) c)).
Proof.
  intros E. unfold Cart.addItem, mbind, M_bind, get, put; simpl. by rewrite E.
Qed.

Lemma updateItemQuantity_missing itemId quantity (c : Cart.t) :
  Cart.id itemId (Cart.items c) = None →
  Cart.updateItemQuantity itemId quantity c = (Throw "Item not found in cart", c).
Proof.
  intros E. unfold Cart.updateItemQuantity, mbind, M_bind, get; simpl. by rewrite E.
Qed.

Lemma updateItemQuantity_remove itemId quantity (c : Cart.t) i item :
  Cart.id itemId (Cart.items c) = Some (i, item) → quantity ≤ 0 →
  Cart.updateItemQuantity itemId quantity c
  = (Normal tt,
     exec Cart.calculateTotals (Cart.set_items (Cart.pull itemId (Cart.items c)) c)).
Proof.
  intros E Hq. unfold Cart.updateItemQuantity, mbind, M_bind, get, put; simpl.
  rewrite E. by rewrite decide_True.
Qed.

Lemma updateItemQuantity_set itemId quantity (c : Cart.t) i item :
  Cart.id itemId (Cart.items c) = Some (i, item) → 0 < quantity →
  Cart.updateItemQuantity itemId quantity c
  = (Normal tt,
     exec Cart.calculateTotals
       (Cart.set_items
          (<[i := CartItem.set_total
                    (Z.min quantity (CartItem.maxQuantity item) * CartItem.price item)
                    (CartItem.set_quantity (Z.min quantity (CartItem.maxQuantity item)) item)]>
             (Cart.items c)) c)).
Proof.
  intros E Hq. unfold Cart.updateItemQuantity, mbind, M_bind, get, put; simpl.
  rewrite E. rewrite decide_False by lia. reflexivity.
Qed.

Lemma removeItem_run itemId (c : Cart.t) :
  Cart.removeItem itemId c
  = (Normal tt,
     exec Cart.calculateTotals (Cart.set_items (Cart.pull itemId (Cart.items c)) c)).
Proof. reflexivity. Qed.

(** [pull] leaves a list without the id as it is. *)
Lemma pull_absent itemId (items : list CartItem.t) :
  Cart.id itemId items = None → Cart.pull itemId items = items.
Proof.
  unfold Cart.id, Cart.pull. rewrite list_find_None.
  induction 1 as [|item items Hne _ IH]; [done|].
  rewrite filter_cons_True by done. by rewrite IH.
Qed.

Lemma pull_no_match itemId (items : list CartItem.t) :
  ∀ item, item ∈ Cart.pull itemId items → CartItem._id item ≠ itemId.
Proof. intros item [Hne _]%list_elem_of_filter. exact Hne. Qed.

(** With pairwise distinct line ids, [pull] of an id the list holds
    removes exactly one line. *)
Lemma pull_length_NoDup itemId (items : list CartItem.t) i item :
  NoDup (CartItem._id <$> items) →
  Cart.id itemId items = Some (i, item) →
  S (length (Cart.pull itemId items)) = length items.
Proof.
  unfold Cart.id, Cart.pull. revert i item.
  induction items as [|x items IH]; intros i item Hnd Hfind; [done|].
  rewrite fmap_cons in Hnd. apply NoDup_cons in Hnd as [Hx Hnd].
  destruct (decide (CartItem._id x = itemId)) as [Heq|Hne].
  - rewrite filter_cons_False by (intros H; by apply H).
    assert (Hnone : list_find (λ y, CartItem._id y = itemId) items = None).
    { apply list_find_None, Forall_forall. intros y Hy Hyid.
      apply Hx. rewrite Heq, <- Hyid. by apply list_elem_of_fmap_2. }
    fold (Cart.id itemId items) in Hnone. apply pull_absent in Hnone.
    unfold Cart.pull in Hnone. by rewrite Hnone.
  - rewrite filter_cons_True by done. simpl. f_equal.
    simpl in Hfind. rewrite decide_False in Hfind by done.
    destruct (list_find _ items) as [[j y]|] eqn:E; [|done].
    by apply (IH j y).
Qed.

Lemma clear_run (c : Cart.t) :
  Cart.clear c = (Normal tt, exec Cart.calculateTotals (Cart.set_items [] c)).
Proof. reflexivity. Qed.

Lemma applyDiscount_run code amount type (c : Cart.t) :
  Cart.applyDiscount code amount type c
  = (Normal tt,
     exec Cart.calculateTotals
       (Cart.set_discount (Discount.mk code amount (default "fixed"%string type) true) c)).
Proof. reflexivity. Qed.

Lemma removeDiscount_run (c : Cart.t) :
  Cart.removeDiscount c
  = (Normal tt,
     exec Cart.calculateTotals
       (Cart.set_discount (Discount.mk None 0 "fixed" false) c)).
Proof. reflexivity. Qed.

(** Every call either returns with the totals recomputed or throws with
    the cart as it found it. *)
Lemma invoke_outcome (call : CartCall.t) (c : Cart.t) :
  match CartCall.invoke call c with
  | (Normal _, c') => totals_hold c'
  | (Throw _, c') => c' = c
  end.
Proof.
  destruct call as [oid product quantity variant|itemId quantity|itemId|code amount type| |];
    cbn [CartCall.invoke].
  - destruct (list_find (CartItem.same_line (Product._id product)
                           (default Variant.null variant)) (Cart.items c))
      as [[i e]|] eqn:E.
    + rewrite (addItem_existing _ _ _ _ _ _ _ E). apply calculateTotals_holds.
    + rewrite (addItem_new _ _ _ _ _ E). apply calculateTotals_holds.
  - destruct (Cart.id itemId (Cart.items c)) as [[i item]|] eqn:E.
    + destruct (decide (quantity ≤ 0)) as [Hq|Hq].
      * rewrite (updateItemQuantity_remove _ _ _ _ _ E Hq). apply calculateTotals_holds.
      * rewrite (updateItemQuantity_set _ _ _ _ _ E) by lia. apply calculateTotals_holds.
    + by rewrite (updateItemQuantity_missing _ _ _ E).
  - rewrite removeItem_run. apply calculateTotals_holds.
  - rewrite applyDiscount_run. apply calculateTotals_holds.
  - rewrite removeDiscount_run. apply calculateTotals_holds.
  - rewrite clear_run. apply calculateTotals_holds.
Qed.

Lemma run_cons (call : CartCall.t) (calls : list CartCall.t) (c : Cart.t) :
  CartCall.run (call :: calls) c
  = match CartCall.invoke call c with
    | (Normal _, c1) => CartCall.run calls c1
    | (Throw e, c1) => (Throw e, c1)
    end.
Proof. reflexivity. Qed.

(** However a sequence of calls completes, the totals equations survive it. *)
Lemma run_preserves (calls : list CartCall.t) (c : Cart.t) :
  totals_hold c → totals_hold (exec (CartCall.run calls) c).
Proof.
  revert c. induction calls as [|call calls IH]; intros c Hc; [done|].
  unfold exec. rewrite run_cons.
  pose proof (invoke_outcome call c) as Hcall.
  destruct (CartCall.invoke call c) as [[[]|e] c1].
  - by apply IH.
  - simpl. by subst.
Qed.

Lemma run_untouched_or_holds (calls : list CartCall.t) (c : Cart.t) :
  exec (CartCall.run calls) c = c ∨ totals_hold (exec (CartCall.run calls) c).
Proof.
  destruct calls as [|call calls]; [by left|].
  unfold exec. rewrite run_cons.
  pose proof (invoke_outcome call c) as Hcall.
  destruct (CartCall.invoke call c) as [[[]|e] c1].
  - right. by apply run_preserves.
  - left. by subst.
Qed.

Lemma run_returns_holds (call : CartCall.t) (calls : list CartCall.t) (c c' : Cart.t) :
  CartCall.run (call :: calls) c = (Normal tt, c') → totals_hold c'.
Proof.
  rewrite run_cons. pose proof (invoke_outcome call c) as Hcall.
  destruct (CartCall.invoke call c) as [[[]|e] c1]; [|done].
  intros E. pose proof (run_preserves calls c1 Hcall) as H.
  unfold exec in H. by rewrite E in H.
Qed.

End cart_methods.


(** ** Looking a line up by id *)

Section cart_lines.
Context {casting : Casting}.

Lemma id_None itemId (items : list CartItem.t) :
  Cart.id itemId items = None ↔ ∀ item, item ∈ items → CartItem._id item ≠ itemId.
Proof. unfold Cart.id. by rewrite list_find_None, Forall_forall. Qed.

Lemma id_Some itemId (items : list CartItem.t) i item :
  Cart.id itemId items = Some (i, item) →
  items !! i = Some item ∧ CartItem._id item = itemId.
Proof. unfold Cart.id. by intros (Hi & Hid & _)%list_find_Some. Qed.

Lemma id_is_Some itemId (items : list CartItem.t) :
  is_Some (Cart.id itemId items) ↔ ∃ item, item ∈ items ∧ CartItem._id item = itemId.
Proof.
  split.
  - intros [[i item] E]. apply id_Some in E as [E ?].
    exists item. split; [|done]. by eapply list_elem_of_lookup_2.
  - intros (item & Hin & Hid). unfold Cart.id.
    destruct (list_find_elem_of (λ x, CartItem._id x = itemId) items item Hin Hid)
      as [[i y] E].
    by exists (i, y).
Qed.

(** Only [updateItemQuantity] throws, and only for an id the cart lacks. *)
Lemma invoke_throws (call : CartCall.t) (c c' : Cart.t) e :
  CartCall.invoke call c = (Throw e, c') →
  e = "Item not found in cart"%string ∧
  ∃ itemId quantity,
    call = CartCall.UpdateItemQuantity itemId quantity ∧
    Cart.id itemId (Cart.items c) = None.
Proof.
  destruct call as [oid product quantity variant|itemId quantity|itemId|code amount type| |];
    cbn [CartCall.invoke].
  - destruct (list_find (CartItem.same_line (Product._id product)
                           (default Variant.null variant)) (Cart.items c))
      as [[i x]|] eqn:E.
    + by rewrite (addItem_existing _ _ _ _ _ _ _ E).
    + by rewrite (addItem_new _ _ _ _ _ E).
  - destruct (Cart.id itemId (Cart.items c)) as [[i item]|] eqn:E.
    + destruct (decide (quantity ≤ 0)) as [Hq|Hq].
      * by rewrite (updateItemQuantity_remove _ _ _ _ _ E Hq).
      * by rewrite (updateItemQuantity_set _ _ _ _ _ E) by lia.
    + rewrite (updateItemQuantity_missing _ _ _ E). intros [= <- <-]. eauto.
  - by rewrite removeItem_run.
  - by rewrite applyDiscount_run.
  - by rewrite removeDiscount_run.
  - by rewrite clear_run.
Qed.

(** C5. [updateItemQuantity(itemId, quantity)]: an id that matches no line
    throws ['Item not found in cart'] and leaves the cart as it was, and no
    other cart call throws. For an id the cart holds the call returns with
    the totals recomputed: a quantity [<= 0] pulls the line (no line with
    that id is left and, line ids being pairwise distinct, [uniqueItems]
    is one less); a positive quantity sets the line's quantity to
    [min(quantity, maxQuantity)] and its total to that quantity times its
    price, every other line staying as it is. *)
Theorem updateItemQuantity_cases (c : Cart.t) (itemId : ObjectId) (quantity : Z) :
  ((∀ item, item ∈ Cart.items c → CartItem._id item ≠ itemId) →
     Cart.updateItemQuantity itemId quantity c = (Throw "Item not found in cart", c)) ∧
  (∀ (call : CartCall.t) (c0 c1 : Cart.t) e,
     CartCall.invoke call c0 = (Throw e, c1) →
     e = "Item not found in cart"%string ∧ c1 = c0 ∧
     ∃ itemId0 quantity0,
       call = CartCall.UpdateItemQuantity itemId0 quantity0 ∧
       ∀ item, item ∈ Cart.items c0 → CartItem._id item ≠ itemId0) ∧
  ((∃ item, item ∈ Cart.items c ∧ CartItem._id item = itemId) →
     ∃ i item c',
       Cart.id itemId (Cart.items c) = Some (i, item) ∧
       Cart.items c !! i = Some item ∧ CartItem._id item = itemId ∧
       Cart.updateItemQuantity itemId quantity c = (Normal tt, c') ∧
       totals_hold c' ∧
       (quantity ≤ 0 →
          Cart.items c' = filter (λ x, CartItem._id x ≠ itemId) (Cart.items c) ∧
          (∀ x, x ∈ Cart.items c' → CartItem._id x ≠ itemId) ∧
          (NoDup (CartItem._id <$> Cart.items c) →
             S (Cart.uniqueItems c') = Cart.uniqueItems c)) ∧
       (0 < quantity →
          Cart.items c' =
            <[i := CartItem.mk (CartItem._id item) (CartItem.product item)
                     (CartItem.name item) (CartItem.sku item)
                     (Z.min quantity (CartItem.maxQuantity item)) (CartItem.price item)
                     (Z.min quantity (CartItem.maxQuantity item) * CartItem.price item)
                     (CartItem.variant item) (CartItem.image item)
                     (CartItem.available item) (CartItem.maxQuantity item)]>
              (Cart.items c) ∧
          Cart.uniqueItems c' = Cart.uniqueItems c)).
Proof.
  split_and!.
  - intros Hno. by apply updateItemQuantity_missing, id_None.
  - intros call c0 c1 e E.
    pose proof (invoke_outcome call c0) as Hsame. rewrite E in Hsame.
    apply invoke_throws in E as (-> & itemId0 & quantity0 & -> & Hnone).
    split_and!; [done..|]. exists itemId0, quantity0. by rewrite <- id_None.
  - intros [[i item] E]%id_is_Some. destruct (id_Some _ _ _ _ E) as [Hi Hid].
    exists i, item.
    destruct (decide (quantity ≤ 0)) as [Hq|Hq].
    + eexists. split_and!; [done..| by apply (updateItemQuantity_remove _ _ _ i item)
                           | apply calculateTotals_holds | | intros; lia].
      intros _. rewrite calculateTotals_items. simpl. split_and!.
      * reflexivity.
      * apply pull_no_match.
      * intros Hnd. unfold Cart.uniqueItems. rewrite calculateTotals_items. simpl.
        by apply (pull_length_NoDup itemId (Cart.items c) i item).
    + eexists. split_and!; [done..| apply (updateItemQuantity_set _ _ _ i item); [done|lia]
                           | apply calculateTotals_holds | intros; lia | ].
      intros _. unfold Cart.uniqueItems. rewrite calculateTotals_items. simpl.
      split; [reflexivity|]. by rewrite length_insert.
Qed.
End cart_lines.

Lemma updateItemQuantity_cases_witness :
  Cart.updateItemQuantity 5 3 Sample.empty_cart
    = (Throw "Item not found in cart", Sample.empty_cart) ∧
  ∃ i item c',
    Cart.id 100 [Sample.pen_line 100 2; Sample.ink_line 101 1] = Some (i, item) ∧
    Cart.updateItemQuantity 100 0
      (Cart.set_items [Sample.pen_line 100 2; Sample.ink_line 101 1] Sample.empty_cart)
      = (Normal tt, c') ∧
    S (Cart.uniqueItems c') = 2%nat.
Proof.
  split.
  - apply (updateItemQuantity_cases (casting := Sample.as_given) Sample.empty_cart 5 3).
    intros item Hin. by apply elem_of_nil in Hin.
  - destruct (updateItemQuantity_cases (casting := Sample.as_given)
                (Cart.set_items [Sample.pen_line 100 2; Sample.ink_line 101 1]
                   Sample.empty_cart) 100 0) as (_ & _ & H).
    destruct H as (i & item & c' & E & _ & _ & Hrun & _ & Hdel & _).
    { exists (Sample.pen_line 100 2). split; [|reflexivity]. simpl. apply list_elem_of_here. }
    exists i, item, c'. split_and!; [exact E | exact Hrun |].
    apply Hdel; [lia|]. apply (bool_decide_unpack _). vm_compute. exact I.
Defined.

(** C10. [removeItem(itemId)] returns on every cart and every id: the lines
    with that id are gone, the other lines and fields stay, and the totals
    are recomputed. For an id that matches no line the items are unchanged
    and the call still returns, where [updateItemQuantity] throws. *)
Theorem removeItem_never_raises (c : Cart.t) (itemId : ObjectId) :
  ∃ c',
    Cart.removeItem itemId c = (Normal tt, c') ∧
    c' = exec Cart.calculateTotals
           (Cart.set_items (filter (λ x, CartItem._id x ≠ itemId) (Cart.items c)) c) ∧
    (∀ x, x ∈ Cart.items c' ↔ x ∈ Cart.items c ∧ CartItem._id x ≠ itemId) ∧
    totals_hold c' ∧
    ((∀ item, item ∈ Cart.items c → CartItem._id item ≠ itemId) →
       Cart.items c' = Cart.items c ∧
       ∀ quantity,
         Cart.updateItemQuantity itemId quantity c
         = (Throw "Item not found in cart", c)).
Proof.
  eexists. split_and!; [apply removeItem_run | reflexivity | | apply calculateTotals_holds |].
  - intros x. rewrite calculateTotals_items. simpl. unfold Cart.pull.
    rewrite list_elem_of_filter. tauto.
  - intros Hno%id_None. rewrite calculateTotals_items. simpl.
    split; [by apply pull_absent|].
    intros quantity. by apply updateItemQuantity_missing.
Qed.

Lemma removeItem_never_raises_witness :
  ∃ c',
    Cart.removeItem 55 (Cart.set_items [Sample.pen_line 100 2] Sample.empty_cart)
      = (Normal tt, c') ∧
    Cart.items c' = [Sample.pen_line 100 2] ∧
    Cart.updateItemQuantity 55 1 (Cart.set_items [Sample.pen_line 100 2] Sample.empty_cart)
      = (Throw "Item not found in cart",
         Cart.set_items [Sample.pen_line 100 2] Sample.empty_cart).
Proof.
  destruct (removeItem_never_raises
              (Cart.set_items [Sample.pen_line 100 2] Sample.empty_cart) 55)
    as (c' & Hrun & _ & _ & _ & Hno).
  destruct Hno as [Hitems Hthrow].
  { intros item Hin. apply list_elem_of_singleton in Hin. subst item. simpl. lia. }
  exists c'. split_and!; [exact Hrun | exact Hitems | apply Hthrow].
Defined.

(** ** Finding the line of a product and variant *)

Lemma same_line_None p v (items : list CartItem.t) :
  list_find (CartItem.same_line p v) items = None ↔
  ∀ item, item ∈ items → ¬ CartItem.same_line p v item.
Proof. by rewrite list_find_None, Forall_forall. Qed.

Lemma same_line_is_Some p v (items : list CartItem.t) :
  (∃ item, item ∈ items ∧ CartItem.same_line p v item) →
  ∃ i e, list_find (CartItem.same_line p v) items = Some (i, e).
Proof.
  intros (item & Hin & Hsame).
  destruct (list_find_elem_of (CartItem.same_line p v) items item Hin Hsame)
    as [[i e] E].
  by exists i, e.
Qed.

Lemma same_line_last p v (items : list CartItem.t) (line : CartItem.t) :
  list_find (CartItem.same_line p v) items = None →
  CartItem.same_line p v line →
  list_find (CartItem.same_line p v) (items ++ [line]) = Some (length items, line).
Proof.
  intros Hnone Hline. rewrite list_find_app_r by done. simpl.
  rewrite decide_True by done. reflexivity.
Qed.

(** The line [addItem] looks for is stored with the id of the product,
    not populated, and its variant has the text of the argument's. *)
Lemma same_line_stored p v (item : CartItem.t) :
  CartItem.same_line p v item ↔
  CartItem.product item = ProductRef.Id p ∧
  Json.stringify (CartItem.variant item) = Json.stringify (Some v).
Proof.
  unfold CartItem.same_line, ObjectId_toString.
  destruct (CartItem.product item); simpl; split; intros [H1 H2]; split; congruence.
Qed.

Lemma insert_last {A} (l : list A) (x y : A) : <[length l := y]> (l ++ [x]) = l ++ [y].
Proof.
  rewrite insert_app_r_alt by lia. by rewrite Nat.sub_diag.
Qed.

Lemma filter_none {A} (P : A → Prop) `{∀ x, Decision (P x)} (l : list A) :
  (∀ x, x ∈ l → ¬ P x) → filter P l = [].
Proof.
  intros Hno. induction l as [|x l IH]; [done|].
  rewrite filter_cons_False by (apply Hno; left).
  apply IH. intros y Hy. apply Hno. by right.
Qed.

Section cart_add.
Context {casting : Casting}.

End cart_add.



(** ** The cart collection *)

Lemma getBySession_run sessionId (store : list Cart.t) :
  Carts.getBySession sessionId store
  = (Normal (Carts.populate <$>
               (snd <$> list_find
                  (λ c, Cart.sessionId c = Some (SessionId.value sessionId) ∧
                        Cart.isActive c = true) store)),
     store).
Proof. reflexivity. Qed.

Lemma getByUser_run userId (store : list Cart.t) :
  Carts.getByUser userId store
  = (Normal (Carts.populate <$>
               (snd <$> list_find
                  (λ c, Cart.user c = Some userId ∧ Cart.isActive c = true) store)),
     store).
Proof. reflexivity. Qed.

(** In a collection whose ids are pairwise distinct, a document is found
    by its id in the slot it was read from. *)
Lemma find_by_id (store : list Cart.t) i (stored : Cart.t) (id : ObjectId) :
  NoDup (Cart._id <$> store) →
  store !! i = Some stored → Cart._id stored = id →
  list_find (λ d, Cart._id d = id) store = Some (i, stored).
Proof.
  intros Hnd Hi Hid. apply list_find_Some. split_and!; [done..|].
  intros j y Hj Hlt Hy.
  assert (j = i); [|lia].
  eapply (NoDup_lookup _ j i id Hnd).
  - rewrite list_lookup_fmap, Hj. simpl. congruence.
  - rewrite list_lookup_fmap, Hi. simpl. congruence.
Qed.

Lemma write_ids (store : list Cart.t) i (old doc : Cart.t) :
  store !! i = Some old → Cart._id doc = Cart._id old →
  Cart._id <$> <[i := doc]> store = Cart._id <$> store.
Proof.
  intros Hi Hid. rewrite list_fmap_insert, Hid.
  apply list_insert_id. by rewrite list_lookup_fmap, Hi.
Qed.

(** ** Loading: what [populate] changes *)

Lemma populate_fields (c : Cart.t) :
  Cart._id (Carts.populate c) = Cart._id c ∧
  Cart.user (Carts.populate c) = Cart.user c ∧
  Cart.sessionId (Carts.populate c) = Cart.sessionId c ∧
  Cart.isActive (Carts.populate c) = Cart.isActive c ∧
  Cart.expiresAt (Carts.populate c) = Cart.expiresAt c.
Proof. done. Qed.

(** A line is populated when its product path holds what populate put
    there. *)
Lemma populate_depopulate (items : list CartItem.t) (c : Cart.t) :
  Forall (λ item, ∃ o, CartItem.product item = ProductRef.Populated o) items →
  Cart.items (Carts.populate (Cart.set_items (Carts.depopulate <$> items) c)) = items.
Proof.
  intros Hpop. simpl. rewrite <- list_fmap_compose.
  induction Hpop as [|item items [o Ho] _ IH]; [done|].
  rewrite fmap_cons, IH. f_equal.
  destruct item. simpl in *. by subst.
Qed.

Lemma populate_populated (c : Cart.t) :
  Forall (λ item, ∃ o, CartItem.product item = ProductRef.Populated o)
    (Cart.items (Carts.populate c)).
Proof.
  simpl. apply Forall_fmap, Forall_forall. intros item _. simpl. eauto.
Qed.

(** ** One turn of the merge loop *)

Lemma merge_line_existing (items : list CartItem.t) (s : CartItem.t) i e :
  Merge.find items s = Some (i, e) →
  Merge.step items s = <[i := CartItem.increment (CartItem.quantity s) e]> items.
Proof. intros E. unfold Merge.step. by rewrite E. Qed.

Lemma merge_line_new (items : list CartItem.t) (s : CartItem.t) :
  Merge.find items s = None →
  Merge.step items s = items ++ [s].
Proof. intros E. unfold Merge.step. by rewrite E. Qed.

(** The code's comparison is the comparison of the keys. *)
Lemma same_line_key (s item : CartItem.t) :
  Carts.same_line s item ↔ line_key item = line_key s.
Proof.
  unfold Carts.same_line, line_key. split.
  - by intros [-> ->].
  - by intros [= -> ->].
Qed.

Lemma find_line_Some (items : list CartItem.t) (s : CartItem.t) i e :
  Merge.find items s = Some (i, e) ↔
  items !! i = Some e ∧ line_key e = line_key s ∧
  ∀ j y, items !! j = Some y → (j < i)%nat → line_key y ≠ line_key s.
Proof.
  unfold Merge.find. rewrite list_find_Some. split.
  - intros (Hi & Hsame%same_line_key & Hfirst). split_and!; [done..|].
    intros j y Hj Hlt Hkey%same_line_key. by apply (Hfirst j y).
  - intros (Hi & Hkey%same_line_key & Hfirst). split_and!; [done..|].
    intros j y Hj Hlt Hsame%same_line_key. by apply (Hfirst j y).
Qed.

Lemma find_line_None (items : list CartItem.t) (s : CartItem.t) :
  Merge.find items s = None ↔ ∀ y, y ∈ items → line_key y ≠ line_key s.
Proof.
  unfold Merge.find. rewrite list_find_None, Forall_forall.
  split; intros H y Hy.
  - intros Hkey%same_line_key. by apply (H y).
  - intros Hsame%same_line_key. by apply (H y).
Qed.

Lemma increment_key n (e : CartItem.t) : line_key (CartItem.increment n e) = line_key e.
Proof. reflexivity. Qed.
(** Lists with the same keys are searched alike. *)
Lemma keys_lookup (P U : list CartItem.t) i e :
  line_key <$> P = line_key <$> U → U !! i = Some e →
  ∃ e0, P !! i = Some e0 ∧ line_key e0 = line_key e.
Proof.
  intros Hk Hi.
  assert (H : (line_key <$> P) !! i = Some (line_key e))
    by (by rewrite Hk, list_lookup_fmap, Hi).
  rewrite list_lookup_fmap in H.
  destruct (P !! i) as [e0|]; [|done]. exists e0. split; [done|].
  simpl in H. congruence.
Qed.

Lemma find_line_keys_Some (P U : list CartItem.t) (s : CartItem.t) i e :
  line_key <$> P = line_key <$> U →
  Merge.find U s = Some (i, e) →
  ∃ e0, Merge.find P s = Some (i, e0).
Proof.
  intros Hk (Hi & Hkey & Hfirst)%find_line_Some.
  destruct (keys_lookup P U i e Hk Hi) as (e0 & Hi0 & Hk0).
  exists e0. apply find_line_Some. split_and!; [done|congruence|].
  intros j y Hj Hlt.
  destruct (keys_lookup U P j y (eq_sym Hk) Hj) as (y0 & Hj0 & Hky).
  rewrite <- Hky. by apply (Hfirst j y0).
Qed.

Lemma find_line_keys_None (P U : list CartItem.t) (s : CartItem.t) :
  line_key <$> P = line_key <$> U →
  Merge.find U s = None → Merge.find P s = None.
Proof.
  rewrite !find_line_None. intros Hk Hno y [j Hj]%list_elem_of_lookup_1.
  destruct (keys_lookup U P j y (eq_sym Hk) Hj) as (y0 & Hj0 & Hky).
  rewrite <- Hky. apply Hno. by eapply list_elem_of_lookup_2.
Qed.

(** ** The whole merge loop

    When the session lines have pairwise distinct keys (as [addItem] and
    the merge itself build them), the loop can be read against the user
    cart as it was loaded: the merged list is the user lines, a matched one
    incremented by its session line, followed by the unmatched session
    lines. *)
Lemma merge_loop (U S : list CartItem.t) :
  NoDup (line_key <$> S) →
  ∃ P,
    foldl Merge.step U S = P ++ filter (λ s, Merge.find U s = None) S ∧
    line_key <$> P = line_key <$> U ∧
    (∀ s i e, s ∈ S → Merge.find U s = Some (i, e) →
       P !! i = Some (CartItem.increment (CartItem.quantity s) e)) ∧
    (∀ i e, U !! i = Some e →
       (∀ s, s ∈ S → ∀ e', Merge.find U s ≠ Some (i, e')) → P !! i = Some e).
Proof.
  induction S as [|s S IH] using rev_ind; intros Hnd.
  - exists U. rewrite filter_nil, app_nil_r. split_and!; [done..| |done].
    intros s i e Hin. by apply elem_of_nil in Hin.
  - rewrite fmap_app in Hnd. apply NoDup_app in Hnd as (HndS & Hfresh & _).
    assert (Hs : ∀ s', s' ∈ S → line_key s' ≠ line_key s).
    { intros s' Hin Heq. apply (Hfresh (line_key s')).
      - by apply list_elem_of_fmap_2.
      - rewrite Heq. simpl. left. }
    destruct (IH HndS) as (P & HR & Hk & Hd & Hf).
    rewrite foldl_app. cbn [foldl]. rewrite HR, filter_app.
    set (A := filter (λ s0, Merge.find U s0 = None) S).
    destruct (Merge.find U s) as [[i e]|] eqn:E.
    + pose proof E as (Hi & Hkey & Hfirst)%find_line_Some.
      assert (HPi : P !! i = Some e).
      { apply Hf; [done|]. intros s' Hin e' (Hi' & Hkey' & _)%find_line_Some.
        apply (Hs s' Hin). congruence. }
      assert (EP : Merge.find P s = Some (i, e)).
      { destruct (find_line_keys_Some P U s i e Hk E) as (e0 & E0).
        pose proof E0 as (Hi0 & _)%find_line_Some. congruence. }
      assert (EPA : Merge.find (P ++ A) s = Some (i, e))
        by (by apply list_find_app_l).
      assert (Hlt : (i < length P)%nat) by (by eapply lookup_lt_Some).
      rewrite (merge_line_existing _ _ _ _ EPA), insert_app_l by done.
      rewrite filter_cons_False, filter_nil, app_nil_r by (by rewrite E).
      exists (<[i := CartItem.increment (CartItem.quantity s) e]> P).
      split_and!.
      * done.
      * rewrite list_fmap_insert, increment_key, <- Hk.
        apply list_insert_id. by rewrite list_lookup_fmap, HPi.
      * intros s' i' e' [Hin| ->%list_elem_of_singleton]%elem_of_app E'.
        -- assert (i ≠ i').
           { intros <-. apply find_line_Some in E' as (Hi' & Hkey' & _).
             apply (Hs s' Hin). congruence. }
           rewrite list_lookup_insert_ne by done. by apply (Hd s').
        -- rewrite E in E'. injection E' as <- <-.
           by apply list_lookup_insert_eq.
      * intros i0 e0 Hi0 Hun.
        assert (i ≠ i0).
        { intros <-. refine (Hun s _ e E). apply elem_of_app. right. left. }
        rewrite list_lookup_insert_ne by done. apply Hf; [done|].
        intros s' Hin. apply Hun. apply elem_of_app. by left.
    + assert (EPA : Merge.find (P ++ A) s = None).
      { apply find_line_None. intros y [HyP|HyA]%elem_of_app.
        - revert y HyP. apply find_line_None. by apply (find_line_keys_None P U).
        - apply list_elem_of_filter in HyA as [_ HyS]. by apply Hs. }
      rewrite (merge_line_new _ _ EPA), <- app_assoc.
      rewrite filter_cons_True, filter_nil by done.
      exists P. split_and!; [done..| |].
      * intros s' i' e' [Hin| ->%list_elem_of_singleton]%elem_of_app E'.
        -- by apply (Hd s').
        -- congruence.
      * intros i0 e0 Hi0 Hun. apply Hf; [done|].
        intros s' Hin. apply Hun. apply elem_of_app. by left.
Qed.


(** ** The loop where no product is gone *)

Lemma find_line_pure products (items : list CartItem.t) (s : CartItem.t) :
  Forall (λ y, ¬ Carts.gone products y) items → ¬ Carts.gone products s →
  Carts.find_line products items s = Normal (Merge.find items s).
Proof.
  intros Hitems Hs. unfold Carts.find_line, Merge.find.
  assert (E : list_find (λ item, Carts.gone products item ∨ Carts.gone products s ∨
                                 Carts.same_line s item) items
              = list_find (Carts.same_line s) items).
  { induction Hitems as [|y items Hy _ IH]; [done|]. simpl.
    rewrite IH. apply decide_ext. tauto. }
  rewrite E. destruct (list_find (Carts.same_line s) items) as [[i e]|] eqn:E'; [|done].
  apply list_find_Some in E' as (Hi & _).
  rewrite decide_False; [done|].
  intros [He|Hs']; [|done].
  rewrite Forall_forall in Hitems. apply (Hitems e); [|done].
  by eapply list_elem_of_lookup_2.
Qed.

(** A product that reads [null] ends the search in a TypeError: the
    session line's at the first user line, a user line's when the search
    gets to it. *)
Lemma merge_line_gone products (items : list CartItem.t) (s : CartItem.t) i e :
  items !! i = Some e →
  Carts.gone products e ∨ Carts.gone products s →
  (∀ j y, items !! j = Some y → (j < i)%nat →
     ¬ Carts.gone products y ∧ ¬ Carts.gone products s ∧ line_key y ≠ line_key s) →
  Carts.merge_line products s items = (Throw "TypeError", items).
Proof.
  intros Hi Hgone Hbefore.
  assert (E : list_find (λ item, Carts.gone products item ∨ Carts.gone products s ∨
                                 Carts.same_line s item) items = Some (i, e)).
  { apply list_find_Some. split_and!; [done|tauto|].
    intros j y Hj Hlt Hfound.
    destruct (Hbefore j y Hj Hlt) as (Hy & Hs & Hkey).
    destruct Hfound as [?|[?|Hsame%same_line_key]]; done. }
  unfold Carts.merge_line, Carts.find_line, mbind, M_bind, get. simpl.
  rewrite E. by rewrite decide_True.
Qed.

Lemma merge_line_pure products (items : list CartItem.t) (s : CartItem.t) :
  Forall (λ y, ¬ Carts.gone products y) items → ¬ Carts.gone products s →
  Carts.merge_line products s items = (Normal tt, Merge.step items s).
Proof.
  intros Hitems Hs. unfold Carts.merge_line, Merge.step, mbind, M_bind, get. simpl.
  rewrite find_line_pure by done. by destruct (Merge.find items s) as [[i e]|].
Qed.

Lemma step_Forall (P : CartItem.t → Prop) (items : list CartItem.t) (s : CartItem.t) :
  (∀ n e, P e → P s → n = CartItem.quantity s → P (CartItem.increment n e)) →
  Forall P items → P s → Forall P (Merge.step items s).
Proof.
  intros Hinc Hitems Hs. unfold Merge.step.
  destruct (Merge.find items s) as [[i e]|] eqn:E.
  - apply Forall_insert; [done|]. apply Hinc; [|done..].
    apply list_find_Some in E as (Hi & _).
    rewrite Forall_forall in Hitems. apply Hitems. by eapply list_elem_of_lookup_2.
  - apply Forall_app. split; [done|]. by apply Forall_singleton.
Qed.

Lemma merged_Forall (P : CartItem.t → Prop) (U S : list CartItem.t) :
  (∀ s n e, s ∈ S → P e → P s → n = CartItem.quantity s → P (CartItem.increment n e)) →
  Forall P U → Forall P S → Forall P (foldl Merge.step U S).
Proof.
  revert U. induction S as [|s S IH]; intros U Hinc HU HS; [done|].
  apply Forall_cons in HS as [Hs HS]. simpl. apply IH; [| |done].
  - intros s' n e Hin. apply Hinc. by right.
  - apply step_Forall; [|done..]. intros n e. apply Hinc. left.
Qed.

Lemma merge_lines_pure products (S U : list CartItem.t) :
  Forall (λ y, ¬ Carts.gone products y) U →
  Forall (λ y, ¬ Carts.gone products y) S →
  Carts.merge_lines products S U = (Normal tt, foldl Merge.step U S).
Proof.
  revert U. induction S as [|s S IH]; intros U HU HS; [done|].
  apply Forall_cons in HS as [Hs HS].
  cbn [Carts.merge_lines foldl].
  rewrite (bind_normal _ _ _ _ _ (merge_line_pure products U s HU Hs)).
  apply IH; [|done]. by apply step_Forall.
Qed.

(** ** Validation *)

Lemma valid_lines products (doc : Cart.t) :
  Carts.valid products doc → Forall (λ y, ¬ Carts.gone products y) (Cart.items doc).
Proof.
  intros (_ & Hlines & _). eapply Forall_impl; [exact Hlines|]. by intros y [? _].
Qed.

Lemma line_valid_increment products n (e : CartItem.t) :
  Carts.line_valid products e → 1 ≤ n →
  Carts.line_valid products (CartItem.increment n e).
Proof.
  intros (Hg & Hname & Hq & Hp & Ht) Hn. unfold Carts.line_valid.
  split_and!; [done|done|simpl; lia|done|simpl; nia].
Qed.

Lemma valid_merged products (uc sc : Cart.t) :
  Carts.valid products uc → Carts.valid products sc →
  Carts.valid products
    (Cart.set_items (foldl Merge.step (Cart.items uc) (Cart.items sc)) uc).
Proof.
  intros (Hu & HU & Hrest) (_ & HS & _). split; [done|]. split; [|done].
  cbn [Cart.items Cart.set_items]. apply merged_Forall; [|done..].
  intros s n e _ He Hs ->. apply line_valid_increment; [done|]. by destruct Hs as (_ & _ & ? & _).
Qed.

Lemma valid_deactivated products (sc : Cart.t) b :
  Carts.valid products (Cart.set_isActive b sc) ↔ Carts.valid products sc.
Proof. done. Qed.

(** ** Saving *)

Lemma save_run products now (loaded doc : Cart.t) (store : list Cart.t) i stored :
  Carts.valid products doc →
  list_find (λ d, Cart._id d = Cart._id doc) store = Some (i, stored) →
  Cart.sessionId doc = Cart.sessionId loaded ∨ ¬ Carts.duplicate_key store i doc →
  Carts.save products now loaded doc store
  = (Normal (exec (Carts.pre_save now) doc),
     <[i := Carts.patch loaded (exec (Carts.pre_save now) doc) stored]> store).
Proof.
  intros Hvalid E Hkey. unfold Carts.save. rewrite decide_True by done.
  unfold mbind, M_bind, get, put, mret, M_ret. simpl. rewrite E.
  rewrite decide_False; [done|].
  intros [Hne Hdup]. destruct Hkey as [Heq|Hno]; [by apply Hne | by apply Hno].
Qed.

Lemma save_duplicate products now (loaded doc : Cart.t) (store : list Cart.t) i stored :
  Carts.valid products doc →
  list_find (λ d, Cart._id d = Cart._id doc) store = Some (i, stored) →
  Cart.sessionId doc ≠ Cart.sessionId loaded →
  Carts.duplicate_key store i doc →
  Carts.save products now loaded doc store = (Throw "MongoServerError", store).
Proof.
  intros Hvalid E Hne Hdup. unfold Carts.save. rewrite decide_True by done.
  unfold mbind, M_bind, get, put, mret, M_ret. simpl. rewrite E.
  by rewrite decide_True.
Qed.

Lemma save_invalid products now (loaded doc : Cart.t) (store : list Cart.t) :
  ¬ Carts.valid products doc →
  Carts.save products now loaded doc store = (Throw "ValidationError", store).
Proof. intros Hinvalid. unfold Carts.save. by rewrite decide_False. Qed.

Lemma cart_pre_save_fields now (doc : Cart.t) :
  Cart._id (exec (Carts.pre_save now) doc) = Cart._id doc ∧
  Cart.user (exec (Carts.pre_save now) doc) = Cart.user doc ∧
  Cart.sessionId (exec (Carts.pre_save now) doc) = Cart.sessionId doc ∧
  Cart.items (exec (Carts.pre_save now) doc) = Cart.items doc ∧
  Cart.isActive (exec (Carts.pre_save now) doc) = Cart.isActive doc ∧
  totals_hold (exec (Carts.pre_save now) doc).
Proof.
  split_and!; try reflexivity.
  apply (calculateTotals_holds (Cart.set_lastActivity now doc)).
Qed.

(** A document whose lines read populated, saved on top of the stored
    document it was loaded from, is what loading the written document
    gives. *)
Lemma patch_loaded (stored doc : Cart.t) :
  Cart._id doc = Cart._id stored →
  Forall (λ item, ∃ o, CartItem.product item = ProductRef.Populated o) (Cart.items doc) →
  Carts.populate (Carts.patch (Carts.populate stored) doc stored) = doc.
Proof.
  intros Hid Hpop.
  pose proof (populate_depopulate (Cart.items doc) stored Hpop) as Hitems.
  destruct doc, stored. unfold Carts.patch, Carts.populate, Cart.set_items in *.
  simpl in *.
  f_equal; try congruence; case_decide; congruence.
Qed.

(** ** The whole call *)

Lemma merged_populated (U S : list CartItem.t) :
  Forall (λ item, ∃ o, CartItem.product item = ProductRef.Populated o) U →
  Forall (λ item, ∃ o, CartItem.product item = ProductRef.Populated o) S →
  Forall (λ item, ∃ o, CartItem.product item = ProductRef.Populated o)
    (foldl Merge.step U S).
Proof. apply merged_Forall. by intros s n e _ He _ _. Qed.

(** Both carts found and valid: the loop runs through, the session cart is
    saved deactivated, then the user cart with the merged lines. *)
Lemma mergeCarts_both products now sessionId userId (store : list Cart.t) si sc ui uc :
  NoDup (Cart._id <$> store) →
  list_find (λ c, Cart.sessionId c = Some (SessionId.value sessionId) ∧
                  Cart.isActive c = true) store
    = Some (si, sc) →
  list_find (λ c, Cart.user c = Some userId ∧ Cart.isActive c = true) store
    = Some (ui, uc) →
  Carts.valid products (Carts.populate sc) →
  Carts.valid products (Carts.populate uc) →
  Carts.mergeCarts products now sessionId userId store
  = (Normal
       (Some (exec (Carts.pre_save now)
                (Cart.set_items
                   (foldl Merge.step (Cart.items (Carts.populate uc))
                      (Cart.items (Carts.populate sc)))
                   (Carts.populate uc)))),
     <[ui := Carts.patch (Carts.populate uc)
               (exec (Carts.pre_save now)
                  (Cart.set_items
                     (foldl Merge.step (Cart.items (Carts.populate uc))
                        (Cart.items (Carts.populate sc)))
                     (Carts.populate uc)))
               (if decide (si = ui)
                then Carts.patch (Carts.populate sc)
                       (exec (Carts.pre_save now)
                          (Cart.set_isActive false (Carts.populate sc))) sc
                else uc)]>
       (<[si := Carts.patch (Carts.populate sc)
                  (exec (Carts.pre_save now)
                     (Cart.set_isActive false (Carts.populate sc))) sc]> store)).
Proof.
  intros Hnd Es Eu Hvs Hvu.
  pose proof Es as (Hsi & _ & _)%list_find_Some.
  pose proof Eu as (Hui & _ & _)%list_find_Some.
  unfold Carts.mergeCarts.
  rewrite (bind_normal _ _ _ _ _ (getBySession_run sessionId store)).
  rewrite (bind_normal _ _ _ _ _ (getByUser_run userId store)).
  rewrite Es, Eu. cbn [fmap option_fmap option_map snd].
  rewrite (merge_lines_pure products _ _ (valid_lines _ _ Hvu) (valid_lines _ _ Hvs)).
  set (sdoc := Cart.set_isActive false (Carts.populate sc)).
  set (udoc := Cart.set_items _ (Carts.populate uc)).
  assert (Efirst : Carts.save products now (Carts.populate sc) sdoc store
                   = (Normal (exec (Carts.pre_save now) sdoc),
                      <[si := Carts.patch (Carts.populate sc)
                                (exec (Carts.pre_save now) sdoc) sc]> store)).
  { apply save_run; [done | by apply find_by_id | by left]. }
  rewrite (bind_normal _ _ _ _ _ Efirst).
  set (X := Carts.patch (Carts.populate sc) (exec (Carts.pre_save now) sdoc) sc).
  assert (Esecond : Carts.save products now (Carts.populate uc) udoc (<[si := X]> store)
                    = (Normal (exec (Carts.pre_save now) udoc),
                       <[ui := Carts.patch (Carts.populate uc)
                                 (exec (Carts.pre_save now) udoc)
                                 (if decide (si = ui) then X else uc)]>
                         (<[si := X]> store))).
  { apply save_run; [by apply valid_merged| |by left].
    apply find_by_id.
    - by rewrite (write_ids store si sc X).
    - destruct (decide (si = ui)) as [->|Hne].
      + apply list_lookup_insert_eq. by eapply lookup_lt_Some.
      + by rewrite list_lookup_insert_ne.
    - destruct (decide (si = ui)) as [->|Hne]; [|done].
      simpl. congruence. }
  unfold fmap, M_fmap. by rewrite (bind_normal _ _ _ _ _ Esecond).
Qed.

(** No user cart: the session cart is saved as the user's, when no other
    cart has a [sessionId] of [null]. *)
Lemma mergeCarts_reassign products now sessionId userId (store : list Cart.t) si sc :
  NoDup (Cart._id <$> store) →
  list_find (λ c, Cart.sessionId c = Some (SessionId.value sessionId) ∧
                  Cart.isActive c = true) store
    = Some (si, sc) →
  list_find (λ c, Cart.user c = Some userId ∧ Cart.isActive c = true) store = None →
  Carts.valid products
    (Cart.set_sessionId (Some SessionId.null)
       (Cart.set_user (Some userId) (Carts.populate sc))) →
  Forall (λ d, Cart.sessionId d ≠ Some SessionId.null) (delete si store) →
  Carts.mergeCarts products now sessionId userId store
  = (Normal
       (Some (exec (Carts.pre_save now)
                (Cart.set_sessionId (Some SessionId.null)
                   (Cart.set_user (Some userId) (Carts.populate sc))))),
     <[si := Carts.patch (Carts.populate sc)
               (exec (Carts.pre_save now)
                  (Cart.set_sessionId (Some SessionId.null)
                     (Cart.set_user (Some userId) (Carts.populate sc)))) sc]> store).
Proof.
  intros Hnd Es Eu Hvalid Hfree.
  pose proof Es as (Hsi & _ & _)%list_find_Some.
  unfold Carts.mergeCarts.
  rewrite (bind_normal _ _ _ _ _ (getBySession_run sessionId store)).
  rewrite (bind_normal _ _ _ _ _ (getByUser_run userId store)).
  rewrite Es, Eu. cbn [fmap option_fmap option_map snd].
  unfold fmap, M_fmap.
  assert (Hkey : ¬ Carts.duplicate_key store si
                     (Cart.set_sessionId (Some SessionId.null)
                        (Cart.set_user (Some userId) (Carts.populate sc)))).
  { intros [_ (d & Hin & Hd)%Exists_exists].
    rewrite Forall_forall in Hfree. by apply (Hfree d Hin). }
  rewrite (bind_normal _ _ _ _ _
             (save_run products now _ _ store si sc Hvalid
                (find_by_id store si sc _ Hnd Hsi eq_refl) (or_intror Hkey))).
  reflexivity.
Qed.

(** No user cart, and another cart has a [sessionId] of [null]: the
    unique index does not take a second one, and nothing is written. *)
Lemma mergeCarts_duplicate products now sessionId userId (store : list Cart.t) si sc :
  NoDup (Cart._id <$> store) →
  list_find (λ c, Cart.sessionId c = Some (SessionId.value sessionId) ∧
                  Cart.isActive c = true) store
    = Some (si, sc) →
  list_find (λ c, Cart.user c = Some userId ∧ Cart.isActive c = true) store = None →
  Carts.valid products
    (Cart.set_sessionId (Some SessionId.null)
       (Cart.set_user (Some userId) (Carts.populate sc))) →
  Exists (λ d, Cart.sessionId d = Some SessionId.null) (delete si store) →
  Carts.mergeCarts products now sessionId userId store = (Throw "MongoServerError", store).
Proof.
  intros Hnd Es Eu Hvalid Htaken.
  pose proof Es as (Hsi & [Hsid _] & _)%list_find_Some.
  unfold Carts.mergeCarts.
  rewrite (bind_normal _ _ _ _ _ (getBySession_run sessionId store)).
  rewrite (bind_normal _ _ _ _ _ (getByUser_run userId store)).
  rewrite Es, Eu. cbn [fmap option_fmap option_map snd].
  unfold fmap, M_fmap, mbind, M_bind.
  rewrite (save_duplicate products now _ _ store si sc Hvalid
             (find_by_id store si sc _ Hnd Hsi eq_refl)); [done| |].
  - simpl. by rewrite Hsid.
  - split; [by eexists|done].
Qed.

(** An error of the loop ends the call before anything is written. *)
Lemma mergeCarts_loop_throws products now sessionId userId (store : list Cart.t)
    si sc ui uc e items :
  list_find (λ c, Cart.sessionId c = Some (SessionId.value sessionId) ∧
                  Cart.isActive c = true) store
    = Some (si, sc) →
  list_find (λ c, Cart.user c = Some userId ∧ Cart.isActive c = true) store
    = Some (ui, uc) →
  Carts.merge_lines products (Cart.items (Carts.populate sc))
    (Cart.items (Carts.populate uc)) = (Throw e, items) →
  Carts.mergeCarts products now sessionId userId store = (Throw e, store).
Proof.
  intros Es Eu Hloop. unfold Carts.mergeCarts.
  rewrite (bind_normal _ _ _ _ _ (getBySession_run sessionId store)).
  rewrite (bind_normal _ _ _ _ _ (getByUser_run userId store)).
  rewrite Es, Eu. cbn [fmap option_fmap option_map snd].
  by rewrite Hloop.
Qed.

(** A session cart that does not pass validation: the merge is rejected
    at its save, before anything is written. *)
Lemma mergeCarts_rejected products now sessionId userId (store : list Cart.t) si sc ui uc :
  list_find (λ c, Cart.sessionId c = Some (SessionId.value sessionId) ∧
                  Cart.isActive c = true) store
    = Some (si, sc) →
  list_find (λ c, Cart.user c = Some userId ∧ Cart.isActive c = true) store
    = Some (ui, uc) →
  Forall (λ y, ¬ Carts.gone products y) (Cart.items (Carts.populate sc)) →
  Forall (λ y, ¬ Carts.gone products y) (Cart.items (Carts.populate uc)) →
  ¬ Carts.valid products (Carts.populate sc) →
  Carts.mergeCarts products now sessionId userId store = (Throw "ValidationError", store).
Proof.
  intros Es Eu Hs Hu Hinvalid. unfold Carts.mergeCarts.
  rewrite (bind_normal _ _ _ _ _ (getBySession_run sessionId store)).
  rewrite (bind_normal _ _ _ _ _ (getByUser_run userId store)).
  rewrite Es, Eu. cbn [fmap option_fmap option_map snd].
  rewrite (merge_lines_pure products _ _ Hu Hs).
  unfold mbind, M_bind. by rewrite save_invalid.
Qed.




(** ** Decimal strings *)

Lemma append_cons c (s t : string) : String c s +:+ t = String c (s +:+ t).
Proof. reflexivity. Qed.

Lemma length_append (s t : string) :
  String.length (s +:+ t) = (String.length s + String.length t)%nat.
Proof.
  induction s as [|c s IH]; [done|].
  rewrite append_cons. simpl. by rewrite IH.
Qed.

Lemma append_assoc (s t u : string) : (s +:+ t) +:+ u = s +:+ (t +:+ u).
Proof.
  induction s as [|c s IH]; [done|].
  rewrite !append_cons. by rewrite IH.
Qed.

Lemma substring_skip (s t : string) n :
  String.substring (String.length s) n (s +:+ t) = String.substring 0 n t.
Proof.
  induction s as [|c s IH]; [done|].
  rewrite append_cons. simpl. exact IH.
Qed.

Lemma substring_all (t : string) : String.substring 0 (String.length t) t = t.
Proof. induction t as [|c t IH]; simpl; [done|]. by rewrite IH. Qed.

Lemma slice_last_append (s t : string) :
  JsString.slice_last (String.length t) (s +:+ t) = t.
Proof.
  unfold JsString.slice_last. rewrite length_append.
  replace (String.length s + String.length t - String.length t)%nat
    with (String.length s) by lia.
  by rewrite substring_skip, substring_all.
Qed.

Lemma repeat_snoc c n :
  JsString.repeat c n +:+ String c "" = String c (JsString.repeat c n).
Proof.
  induction n as [|n IH]; [done|].
  cbn [JsString.repeat]. rewrite append_cons. by rewrite IH.
Qed.

Lemma padStart_snoc m c (t : string) d :
  JsString.padStart (S m) c (t +:+ String d "") = JsString.padStart m c t +:+ String d "".
Proof.
  unfold JsString.padStart. rewrite length_append. simpl String.length.
  replace (S m - (String.length t + 1))%nat with (m - String.length t)%nat by lia.
  by rewrite append_assoc.
Qed.

Lemma digits_fuel f1 f2 k :
  0 ≤ k → (Z.to_nat k < f1)%nat → (Z.to_nat k < f2)%nat →
  JsString.digits f1 k = JsString.digits f2 k.
Proof.
  revert f2 k. induction f1 as [|f1 IH]; intros f2 k Hk H1 H2; [lia|].
  destruct f2 as [|f2]; [lia|]. cbn [JsString.digits].
  destruct (decide (k < 10)) as [|Hge]; [done|].
  assert (0 ≤ k / 10 < k) by (split; [apply Z.div_pos | apply Z.div_lt]; lia).
  f_equal. apply IH; lia.
Qed.

Lemma digits_S fuel k :
  JsString.digits (S fuel) k
  = if decide (k < 10) then String (JsString.digit k) ""
    else JsString.digits fuel (k / 10) +:+ String (JsString.digit (k mod 10)) "".
Proof. reflexivity. Qed.

Lemma toString_small k : 0 ≤ k < 10 → JsString.toString k = String (JsString.digit k) "".
Proof.
  intros Hk. unfold JsString.toString. rewrite decide_False by lia.
  cbn [JsString.digits]. by rewrite decide_True by lia.
Qed.

Lemma toString_step k :
  10 ≤ k →
  JsString.toString k
  = JsString.toString (k / 10) +:+ String (JsString.digit (k mod 10)) "".
Proof.
  intros Hk. assert (0 ≤ k / 10 < k) by (split; [apply Z.div_pos | apply Z.div_lt]; lia).
  unfold JsString.toString. rewrite !decide_False by lia.
  rewrite (digits_S (Z.to_nat k) k), decide_False by lia.
  f_equal. apply digits_fuel; lia.
Qed.

Lemma toString_last k :
  0 ≤ k → ∃ s, JsString.toString k = s +:+ String (JsString.digit (k mod 10)) "".
Proof.
  intros Hk. destruct (decide (k < 10)).
  - exists ""%string. rewrite toString_small by lia. by rewrite Z.mod_small by lia.
  - eexists. apply toString_step. lia.
Qed.

Lemma toString_length (m : nat) k :
  10 ^ Z.of_nat m ≤ k → (m < String.length (JsString.toString k))%nat.
Proof.
  revert k. induction m as [|m IH]; intros k Hk.
  - destruct (toString_last k) as [s ->]; [simpl in Hk; lia|].
    rewrite length_append. simpl. lia.
  - rewrite Nat2Z.inj_succ, Z.pow_succ_r in Hk by lia.
    assert (0 < 10 ^ Z.of_nat m) by (apply Z.pow_pos_nonneg; lia).
    rewrite toString_step by lia. rewrite length_append. simpl.
    assert (m < String.length (JsString.toString (k / 10)))%nat; [|lia].
    apply IH. apply Z.div_le_lower_bound; lia.
Qed.

Lemma last_digits_zero m : last_digits m 0 = JsString.repeat "0" m.
Proof.
  induction m as [|m IH]; [done|].
  cbn [last_digits]. change (0 / 10) with 0. rewrite IH.
  change (JsString.digit (0 mod 10)) with "0"%char. by rewrite repeat_snoc.
Qed.

Lemma padStart_small m k :
  0 ≤ k < 10 →
  JsString.padStart (S m) "0" (JsString.toString k) = last_digits (S m) k.
Proof.
  intros Hk. rewrite toString_small by done. cbn [last_digits].
  rewrite Z.div_small, Z.mod_small, last_digits_zero by lia.
  unfold JsString.padStart. simpl String.length. by rewrite Nat.sub_succ, Nat.sub_0_r.
Qed.

(** A number that fits the width is padded to exactly its last digits. *)
Lemma padStart_fits m k :
  0 ≤ k < 10 ^ Z.of_nat (S m) →
  JsString.padStart (S m) "0" (JsString.toString k) = last_digits (S m) k.
Proof.
  revert k. induction m as [|m IH]; intros k Hk.
  - apply padStart_small. simpl in Hk. lia.
  - destruct (decide (k < 10)); [apply padStart_small; lia|].
    rewrite toString_step, padStart_snoc by lia.
    rewrite IH; [done|].
    rewrite Nat2Z.inj_succ, Z.pow_succ_r in Hk by lia.
    split; [apply Z.div_pos; lia | apply Z.div_lt_upper_bound; lia].
Qed.

(** A number too long for the width is not padded (and not cut). *)
Lemma padStart_overflow (m : nat) k :
  10 ^ Z.of_nat m ≤ k → JsString.padStart m "0" (JsString.toString k) = JsString.toString k.
Proof.
  intros Hk%toString_length. unfold JsString.padStart.
  by replace (m - String.length (JsString.toString k))%nat with 0%nat by lia.
Qed.

(** [slice(-2)] of a year of at least two digits is its last two digits. *)
Lemma slice_year y :
  10 ≤ y → JsString.slice_last 2 (JsString.toString y) = two_digits (y mod 100).
Proof.
  intros Hy. rewrite toString_step by lia.
  destruct (toString_last (y / 10)) as [s ->]; [apply Z.div_pos; lia|].
  rewrite append_assoc.
  change 2%nat with
    (String.length (String (JsString.digit (y / 10 mod 10)) "" +:+
                    String (JsString.digit (y mod 10)) "")).
  rewrite slice_last_append. unfold two_digits. cbn [last_digits].
  replace (y mod 100 / 10 mod 10) with (y / 10 mod 10) by (Z.div_mod_to_equations; lia).
  replace (y mod 100 mod 10) with (y mod 10) by (Z.div_mod_to_equations; lia).
  reflexivity.
Qed.

(** ** Order status and refund *)

Lemma updateStatus_run now newStatus note updatedBy (o : Order.t) :
  Order.updateStatus now newStatus note updatedBy o
  = (Normal tt,
     Order.mk (Order._id o) (Order.orderNumber o) (Order.user o) newStatus
       (Order.paymentStatus o) (Order.total o)
       (Order.statusHistory o ++
        [StatusEntry.mk newStatus now (Some (default ""%string note)) updatedBy])
       (Order.refund o) (Order.createdAt o)).
Proof. reflexivity. Qed.

Lemma processRefund_run now amount reason processedBy (o : Order.t) :
  Order.processRefund now amount reason processedBy o
  = (Normal tt,
     Order.mk (Order._id o) (Order.orderNumber o) (Order.user o) "refunded"
       (if decide (amount >= Order.total o) then "refunded" else "partially_refunded")%string
       (Order.total o) (Order.statusHistory o)
       (Some (Refund.mk amount reason now processedBy)) (Order.createdAt o)).
Proof. reflexivity. Qed.

(** C2. [updateStatus(newStatus, note, updatedBy)] returns for every order
    and every [newStatus], whatever the current status: the status becomes
    [newStatus], exactly one entry [{status: newStatus, timestamp, note,
    updatedBy}] is appended to [statusHistory], and nothing else changes;
    no guard is consulted, so a shipped order can be set to cancelled.
    [canBeCancelled] holds exactly for the statuses pending, confirmed and
    processing; [canBeRefunded] exactly when [paymentStatus] is paid and
    [status] is delivered. *)
Theorem updateStatus_unconditional :
  (∀ (now : Z) (newStatus : string) (note : option string)
     (updatedBy : option ObjectId) (o : Order.t),
     ∃ o',
       Order.updateStatus now newStatus note updatedBy o = (Normal tt, o') ∧
       Order.status o' = newStatus ∧
       Order.statusHistory o' =
         Order.statusHistory o ++
         [StatusEntry.mk newStatus now (Some (default ""%string note)) updatedBy] ∧
       length (Order.statusHistory o') = S (length (Order.statusHistory o)) ∧
       Order.paymentStatus o' = Order.paymentStatus o ∧
       Order.orderNumber o' = Order.orderNumber o ∧
       Order.total o' = Order.total o ∧
       Order.refund o' = Order.refund o) ∧
  (∃ o : Order.t,
     Order.status o = "shipped"%string ∧ Order.canBeCancelled o = false ∧
     Order.status (exec (Order.updateStatus 0 "cancelled" None None) o)
       = "cancelled"%string) ∧
  (∀ o : Order.t,
     Order.canBeCancelled o = true ↔
     Order.status o = "pending"%string ∨ Order.status o = "confirmed"%string ∨
     Order.status o = "processing"%string) ∧
  (∀ o : Order.t,
     Order.canBeRefunded o = true ↔
     Order.paymentStatus o = "paid"%string ∧ Order.status o = "delivered"%string).
Proof.
  split_and!.
  - intros now newStatus note updatedBy o. eexists.
    split; [apply updateStatus_run|]. cbn [Order.status Order.statusHistory
      Order.paymentStatus Order.orderNumber Order.total Order.refund].
    split_and!; try reflexivity. rewrite length_app. simpl. lia.
  - exists (Sample.order 2 "shipped" "paid" 0). by vm_compute.
  - intros o. unfold Order.canBeCancelled. rewrite bool_decide_eq_true.
    rewrite !elem_of_cons, elem_of_nil. tauto.
  - intros o. unfold Order.canBeRefunded.
    by rewrite andb_true_iff, !bool_decide_eq_true.
Qed.

(** C3. [processRefund(amount, reason, processedBy)] returns for every
    order and amount: the refund [{amount, reason, processedAt,
    processedBy}] is recorded, [paymentStatus] is ['refunded'] when
    [amount >= total] and ['partially_refunded'] when [amount < total], and
    [status] is ['refunded'] whatever it was. *)
Theorem processRefund_bookkeeping (now amount : Z) (reason : string)
    (processedBy : ObjectId) (o : Order.t) :
  ∃ o',
    Order.processRefund now amount reason processedBy o = (Normal tt, o') ∧
    Order.refund o' = Some (Refund.mk amount reason now processedBy) ∧
    (amount >= Order.total o → Order.paymentStatus o' = "refunded"%string) ∧
    (amount < Order.total o → Order.paymentStatus o' = "partially_refunded"%string) ∧
    Order.status o' = "refunded"%string ∧
    Order.total o' = Order.total o ∧
    Order.statusHistory o' = Order.statusHistory o.
Proof.
  eexists. split; [apply processRefund_run|].
  cbn [Order.refund Order.paymentStatus Order.status Order.total Order.statusHistory].
  split_and!; try reflexivity.
  - intros Hge. by rewrite decide_True.
  - intros Hlt. rewrite decide_False; [done|lia].
Qed.

Lemma processRefund_bookkeeping_witness :
  (∃ o',
     Order.processRefund 5 1000 "damaged" 3 (Sample.order 1 "delivered" "paid" 0)
       = (Normal tt, o') ∧
     Order.paymentStatus o' = "refunded"%string ∧ Order.status o' = "refunded"%string) ∧
  (∃ o',
     Order.processRefund 5 500 "damaged" 3 (Sample.order 1 "pending" "paid" 0)
       = (Normal tt, o') ∧
     Order.paymentStatus o' = "partially_refunded"%string ∧
     Order.status o' = "refunded"%string).
Proof.
  split.
  - destruct (processRefund_bookkeeping 5 1000 "damaged" 3
                (Sample.order 1 "delivered" "paid" 0))
      as (o' & Hrun & _ & Hfull & _ & Hstatus & _).
    exists o'. split_and!; [exact Hrun | apply Hfull; simpl; lia | exact Hstatus].
  - destruct (processRefund_bookkeeping 5 500 "damaged" 3
                (Sample.order 1 "pending" "paid" 0))
      as (o' & Hrun & _ & _ & Hpart & Hstatus & _).
    exists o'. split_and!; [exact Hrun | apply Hpart; simpl; lia | exact Hstatus].
Defined.

(** When the order is then saved, the status hook logs the change once
    more, without a note and on behalf of the order's user. *)
Lemma updateStatus_then_save now later newStatus note updatedBy (o : Order.t) :
  Order.statusHistory
    (exec (Order.updateStatus now newStatus note updatedBy;;
           Order.pre_save_statusHistory true later) o)
  = Order.statusHistory o ++
    [StatusEntry.mk newStatus now (Some (default ""%string note)) updatedBy;
     StatusEntry.mk newStatus later None (Some (Order.user o))].
Proof.
  unfold exec. rewrite (bind_normal _ _ _ _ _ (updateStatus_run _ _ _ _ o)).
  simpl. by rewrite <- app_assoc.
Qed.

Lemma updateStatus_unconditional_witness :
  Order.canBeCancelled (Sample.order 3 "pending" "pending" 0) = true ∧
  Order.canBeRefunded (Sample.order 1 "delivered" "paid" 0) = true ∧
  ∃ o',
    Order.updateStatus 7 "pending" None (Some 4%nat) (Sample.order 1 "delivered" "paid" 0)
      = (Normal tt, o') ∧
    Order.status o' = "pending"%string ∧
    Order.statusHistory o' = [StatusEntry.mk "pending" 7 (Some ""%string) (Some 4%nat)].
Proof.
  destruct updateStatus_unconditional as (Hrun & _ & Hcancel & Hrefund).
  split_and!.
  - apply Hcancel. left. reflexivity.
  - apply Hrefund. split; reflexivity.
  - destruct (Hrun 7 "pending"%string None (Some 4%nat)
                (Sample.order 1 "delivered" "paid" 0))
      as (o' & E & Hstatus & Hhist & _).
    exists o'. split_and!; [exact E | exact Hstatus | exact Hhist].
Defined.

(** ** Order numbers *)

Section order_number.
Context `{LocalTime}.

Lemma pre_save_orderNumber_new date (store : list Order.t) (o : Order.t) :
  Order.pre_save_orderNumber true date store o
  = (Normal tt,
     Order.set_orderNumber
       (Some ("ORD" +:+
              JsString.slice_last 2 (JsString.toString (getFullYear date)) +:+
              JsString.padStart 2 "0" (JsString.toString (getMonth date + 1)) +:+
              JsString.padStart 2 "0" (JsString.toString (getDate date)) +:+
              JsString.padStart 4 "0"
                (JsString.toString
                   (Order.countDocuments_since
                      (newDate (getFullYear date) (getMonth date) (getDate date)) store
                    + 1)))) o).
Proof. reflexivity. Qed.

(** C8. A newly created order whose creation date has a year of at least
    two digits gets the order number ['ORD'], the last two digits of the
    year, the month (1 to 12) and the day of the month on two digits each,
    then [n + 1] padded with zeros to four digits (four digits exactly
    while [n + 1 < 10000], the plain decimal beyond), where [n] counts the
    stored orders created at or after local midnight of that day. Two
    creations on the same day that read the same count get the same order
    number. *)
Theorem orderNumber_format (date : Z) (store : list Order.t) (o : Order.t) :
  10 ≤ getFullYear date → 0 ≤ getMonth date ≤ 11 → 1 ≤ getDate date ≤ 31 →
  ∃ (o' : Order.t) (n : Z) (sequence : string),
    Order.pre_save_orderNumber true date store o = (Normal tt, o') ∧
    n = Z.of_nat
          (length
             (filter
                (λ x, newDate (getFullYear date) (getMonth date) (getDate date)
                      ≤ Order.createdAt x) store)) ∧
    Order.orderNumber o' =
      Some ("ORD" +:+ two_digits (getFullYear date mod 100) +:+
            two_digits (getMonth date + 1) +:+ two_digits (getDate date) +:+ sequence) ∧
    sequence = JsString.padStart 4 "0" (JsString.toString (n + 1)) ∧
    (n + 1 < 10000 → sequence = four_digits (n + 1)) ∧
    (10000 ≤ n + 1 → sequence = JsString.toString (n + 1)) ∧
    (∀ (date2 : Z) (store2 : list Order.t) (o2 : Order.t),
       getFullYear date2 = getFullYear date → getMonth date2 = getMonth date →
       getDate date2 = getDate date →
       Order.countDocuments_since
         (newDate (getFullYear date) (getMonth date) (getDate date)) store2 = n →
       Order.orderNumber (exec (Order.pre_save_orderNumber true date2 store2) o2)
       = Order.orderNumber o').
Proof.
  intros Hy Hm Hd. eexists _, _, _.
  split; [apply pre_save_orderNumber_new|].
  split; [reflexivity|].
  split; [|split; [reflexivity|]].
  - cbn [Order.orderNumber Order.set_orderNumber].
    rewrite slice_year by done.
    unfold two_digits.
    rewrite <- (padStart_fits 1 (getMonth date + 1)) by (simpl; lia).
    rewrite <- (padStart_fits 1 (getDate date)) by (simpl; lia).
    reflexivity.
  - split_and!.
    + intros Hn. apply (padStart_fits 3). simpl. lia.
    + intros Hn. by apply (padStart_overflow 4).
    + intros date2 store2 o2 E1 E2 E3 En.
      unfold exec. rewrite pre_save_orderNumber_new.
      cbn [snd Order.orderNumber Order.set_orderNumber].
      rewrite E1, E2, E3, En. reflexivity.
Qed.
End order_number.

Lemma orderNumber_format_witness :
  ∃ o',
    @Order.pre_save_orderNumber Utc.local_time true Sample.morning Sample.orders
      (Sample.order 5 "pending" "pending" Sample.morning) = (Normal tt, o') ∧
    Order.orderNumber o' = Some "ORD2611020003"%string ∧
    Order.orderNumber
      (exec (@Order.pre_save_orderNumber Utc.local_time true (Sample.morning + 1)
               Sample.orders)
         (Sample.order 6 "pending" "pending" (Sample.morning + 1)))
    = Some "ORD2611020003"%string.
Proof.
  destruct (@orderNumber_format Utc.local_time Sample.morning Sample.orders
              (Sample.order 5 "pending" "pending" Sample.morning))
    as (o' & n & sequence & Hrun & Hn & Hnum & Hseq & _ & _ & Hsame).
  - vm_compute. discriminate.
  - vm_compute. split; discriminate.
  - vm_compute. split; discriminate.
  - exists o'. split; [exact Hrun|].
    assert (Hval : Order.orderNumber o' = Some "ORD2611020003"%string).
    { rewrite Hnum, Hseq, Hn. vm_compute. reflexivity. }
    split; [exact Hval|].
    rewrite <- Hval. apply Hsame; [reflexivity..|].
    rewrite Hn. reflexivity.
Defined.

(** ** Helpful votes *)

Lemma markHelpful_new userId (r : Review.t) :
  userId ∉ Helpful.users (Review.helpful r) →
  Review.markHelpful userId r
  = (Normal tt,
     Review.set_helpful
       (Helpful.mk (Helpful.count (Review.helpful r) + 1)
          (Helpful.users (Review.helpful r) ++ [userId])) r).
Proof.
  intros Hnot. unfold Review.markHelpful, mbind, M_bind, get; simpl.
  by rewrite decide_False.
Qed.

Lemma markHelpful_again userId (r : Review.t) :
  userId ∈ Helpful.users (Review.helpful r) →
  Review.markHelpful userId r = (Normal tt, r).
Proof.
  intros Hin. unfold Review.markHelpful, mbind, M_bind, get; simpl.
  by rewrite decide_True.
Qed.

Lemma unmarkHelpful_present userId (r : Review.t) index u :
  list_find (λ x, x = userId) (Helpful.users (Review.helpful r)) = Some (index, u) →
  Review.unmarkHelpful userId r
  = (Normal tt,
     Review.set_helpful
       (Helpful.mk (Z.max 0 (Helpful.count (Review.helpful r) - 1))
          (delete index (Helpful.users (Review.helpful r)))) r).
Proof.
  intros E. unfold Review.unmarkHelpful, mbind, M_bind, get; simpl. by rewrite E.
Qed.

Lemma unmarkHelpful_absent userId (r : Review.t) :
  userId ∉ Helpful.users (Review.helpful r) →
  Review.unmarkHelpful userId r = (Normal tt, r).
Proof.
  intros Hnot.
  assert (E : list_find (λ x, x = userId) (Helpful.users (Review.helpful r)) = None).
  { apply list_find_None, Forall_forall. by intros x Hx ->. }
  unfold Review.unmarkHelpful, mbind, M_bind, get; simpl. by rewrite E.
Qed.

Lemma indexOf_present userId (users : list ObjectId) :
  userId ∈ users →
  ∃ index, list_find (λ x, x = userId) users = Some (index, userId) ∧
           users !! index = Some userId.
Proof.
  intros Hin.
  destruct (list_find_elem_of (λ x, x = userId) users userId Hin eq_refl) as [[i x] E].
  pose proof E as (Hi & -> & _)%list_find_Some. by exists i.
Qed.

Lemma delete_NoDup (users : list ObjectId) index userId :
  NoDup users → users !! index = Some userId →
  NoDup (delete index users) ∧ userId ∉ delete index users.
Proof.
  intros Hnd Hi. rewrite (delete_Permutation users index userId Hi) in Hnd.
  apply NoDup_cons in Hnd. tauto.
Qed.

Lemma delete_length (users : list ObjectId) index userId :
  users !! index = Some userId → S (length (delete index users)) = length users.
Proof.
  intros Hi. rewrite length_delete by eauto.
  apply lookup_lt_Some in Hi. lia.
Qed.

(** Either call keeps a well-formed vote set well formed. *)
Lemma invoke_consistent (call : Vote.t) (r : Review.t) :
  votes_consistent r →
  ∃ r', Vote.invoke call r = (Normal tt, r') ∧ votes_consistent r'.
Proof.
  intros [Hnd Hcount]. destruct call as [u|u]; cbn [Vote.invoke].
  - destruct (decide (u ∈ Helpful.users (Review.helpful r))) as [Hin|Hnot].
    + exists r. split; [by apply markHelpful_again | done].
    + eexists. split; [by apply markHelpful_new|].
      split; simpl.
      * apply NoDup_app. split_and!; [done| |apply NoDup_singleton].
        intros x Hx ->%list_elem_of_singleton. done.
      * rewrite length_app. simpl. lia.
  - destruct (decide (u ∈ Helpful.users (Review.helpful r))) as [Hin|Hnot].
    + destruct (indexOf_present u _ Hin) as (i & E & Hi).
      eexists. split; [by apply (unmarkHelpful_present u r i u)|].
      destruct (delete_NoDup _ i u Hnd Hi) as [Hnd' _].
      pose proof (delete_length _ i u Hi).
      split; simpl; [done|lia].
    + exists r. split; [by apply unmarkHelpful_absent | done].
Qed.

Lemma run_consistent (calls : list Vote.t) (r : Review.t) :
  votes_consistent r →
  ∃ r', Vote.run calls r = (Normal tt, r') ∧ votes_consistent r'.
Proof.
  revert r. induction calls as [|call calls IH]; intros r Hr.
  - by exists r.
  - destruct (invoke_consistent call r Hr) as (r1 & E1 & Hr1).
    destruct (IH r1 Hr1) as (r' & E & Hr').
    exists r'. split; [|done].
    cbn [Vote.run]. by rewrite (bind_normal _ _ _ _ _ E1).
Qed.

(** C9. The helpful votes are deduplicated by user id. [markHelpful(u)]
    pushes [u] and adds one to [helpful.count] when [u] is not among
    [helpful.users], and changes nothing when it is; [unmarkHelpful(u)]
    removes [u] (its first occurrence, the only one in a duplicate-free
    list) and sets the count to [max(0, count - 1)] when [u] is present, and
    changes nothing when it is not. Both calls return, keep a non-negative
    count non-negative, keep [count = length(users)] and keep the list free
    of duplicates; so do all sequences of them, from a fresh review on. *)
Theorem helpful_votes_deduplicated (r : Review.t) (u : ObjectId) :
  (u ∉ Helpful.users (Review.helpful r) →
     ∃ r',
       Review.markHelpful u r = (Normal tt, r') ∧
       Helpful.users (Review.helpful r') = Helpful.users (Review.helpful r) ++ [u] ∧
       Helpful.count (Review.helpful r') = Helpful.count (Review.helpful r) + 1) ∧
  (u ∈ Helpful.users (Review.helpful r) →
     Review.markHelpful u r = (Normal tt, r)) ∧
  (u ∈ Helpful.users (Review.helpful r) →
     ∃ r' index,
       Review.unmarkHelpful u r = (Normal tt, r') ∧
       Helpful.users (Review.helpful r) !! index = Some u ∧
       Helpful.users (Review.helpful r') = delete index (Helpful.users (Review.helpful r)) ∧
       S (length (Helpful.users (Review.helpful r')))
         = length (Helpful.users (Review.helpful r)) ∧
       Helpful.count (Review.helpful r') = Z.max 0 (Helpful.count (Review.helpful r) - 1) ∧
       (NoDup (Helpful.users (Review.helpful r)) →
          u ∉ Helpful.users (Review.helpful r'))) ∧
  (u ∉ Helpful.users (Review.helpful r) →
     Review.unmarkHelpful u r = (Normal tt, r)) ∧
  (∀ call : Vote.t,
     ∃ r',
       Vote.invoke call r = (Normal tt, r') ∧
       (0 ≤ Helpful.count (Review.helpful r) → 0 ≤ Helpful.count (Review.helpful r')) ∧
       (Helpful.count (Review.helpful r)
          = Z.of_nat (length (Helpful.users (Review.helpful r))) →
        Helpful.count (Review.helpful r')
          = Z.of_nat (length (Helpful.users (Review.helpful r')))) ∧
       (NoDup (Helpful.users (Review.helpful r)) →
        NoDup (Helpful.users (Review.helpful r')))) ∧
  (∀ calls : list Vote.t,
     votes_consistent r →
     ∃ r',
       Vote.run calls r = (Normal tt, r') ∧ votes_consistent r' ∧
       0 ≤ Helpful.count (Review.helpful r')).
Proof.
  split_and!.
  - intros Hnot. eexists. split; [by apply markHelpful_new|]. by simpl.
  - apply markHelpful_again.
  - intros Hin. destruct (indexOf_present u _ Hin) as (i & E & Hi).
    eexists _, i. split; [by apply (unmarkHelpful_present u r i u)|]. simpl.
    split_and!; [done..| by apply (delete_length _ i u) | done |].
    intros Hnd. by apply (delete_NoDup _ i u).
  - apply unmarkHelpful_absent.
  - intros [v|v]; cbn [Vote.invoke].
    + destruct (decide (v ∈ Helpful.users (Review.helpful r))) as [Hin|Hnot].
      * exists r. split; [by apply markHelpful_again | done].
      * eexists. split; [by apply markHelpful_new|]. simpl. split_and!.
        -- lia.
        -- rewrite length_app. simpl. lia.
        -- intros Hnd. apply NoDup_app. split_and!; [done| |apply NoDup_singleton].
           intros x Hx ->%list_elem_of_singleton. done.
    + destruct (decide (v ∈ Helpful.users (Review.helpful r))) as [Hin|Hnot].
      * destruct (indexOf_present v _ Hin) as (i & E & Hi).
        eexists. split; [by apply (unmarkHelpful_present v r i v)|]. simpl.
        pose proof (delete_length _ i v Hi). split_and!.
        -- lia.
        -- lia.
        -- intros Hnd. by apply (delete_NoDup _ i v).
      * exists r. split; [by apply unmarkHelpful_absent | done].
  - intros calls Hr. destruct (run_consistent calls r Hr) as (r' & E & Hr').
    exists r'. split_and!; [done..|]. destruct Hr' as [_ ->]. lia.
Qed.

Lemma helpful_votes_deduplicated_witness :
  ∃ r1 r2 r3,
    Review.markHelpful 4 Sample.review = (Normal tt, r1) ∧
    Helpful.users (Review.helpful r1) = [4%nat] ∧ Helpful.count (Review.helpful r1) = 1 ∧
    Review.markHelpful 4 r1 = (Normal tt, r2) ∧ r2 = r1 ∧
    Review.unmarkHelpful 4 r1 = (Normal tt, r3) ∧
    Helpful.count (Review.helpful r3) = 0.
Proof.
  destruct (helpful_votes_deduplicated Sample.review 4) as (Hmark & _).
  destruct Hmark as (r1 & E1 & Husers & Hcount).
  { simpl. apply not_elem_of_nil. }
  destruct (helpful_votes_deduplicated r1 4) as (_ & Hagain & Hunmark & _).
  assert (Hin : 4%nat ∈ Helpful.users (Review.helpful r1)).
  { rewrite Husers. simpl. apply list_elem_of_here. }
  destruct (Hunmark Hin) as (r3 & index & E3 & _ & _ & _ & Hc3 & _).
  exists r1, r1, r3.
  split_and!; [exact E1 | exact Husers | exact Hcount | exact (Hagain Hin) | reflexivity
              | exact E3 |].
  rewrite Hc3, Hcount. reflexivity.
Defined.

(** ** Category ancestors and level *)

Section category.
Context (slugify : string → string) (countActiveProducts : ObjectId → Z).

#[local] Abbreviation pre_save := (Category.pre_save slugify countActiveProducts).
#[local] Abbreviation save := (Category.save slugify countActiveProducts).

(** The hook returns, and touches neither [_id] nor [parent]. *)
Lemma category_pre_save_returns (store : gmap ObjectId Category.t) tr (doc : Category.t) :
  pre_save store tr doc = (Normal tt, exec (pre_save store tr) doc) ∧
  Category._id (exec (pre_save store tr) doc) = Category._id doc ∧
  Category.parent (exec (pre_save store tr) doc) = Category.parent doc.
Proof.
  unfold exec, Category.pre_save, mbind, M_bind, get, modify, mret, M_ret.
  destruct tr as [mn mp ms new], doc as [id nm sl [pid|] anc lv st pc];
    destruct mn, mp, ms, new; simpl; try destruct (store !! pid); simpl; auto.
Qed.

Lemma category_pre_save_found (store : gmap ObjectId Category.t) tr (doc : Category.t) pid p :
  Category.isModified_parent tr = true →
  Category.parent doc = Some pid → store !! pid = Some p →
  Category.level (exec (pre_save store tr) doc) = Category.level p + 1 ∧
  Category.ancestors (exec (pre_save store tr) doc)
  = Category.ancestors p ++ [Category.summary p].
Proof.
  intros Hmod Hparent Hp.
  unfold exec, Category.pre_save, mbind, M_bind, get, modify, mret, M_ret.
  destruct tr as [mn mp ms new]; simpl in *. subst mp.
  destruct mn; simpl; rewrite Hparent, Hp; simpl; destruct (ms || new); simpl; auto.
Qed.

Lemma category_pre_save_cleared (store : gmap ObjectId Category.t) tr (doc : Category.t) :
  Category.isModified_parent tr = true →
  Category.parent doc = None →
  Category.level (exec (pre_save store tr) doc) = 0 ∧
  Category.ancestors (exec (pre_save store tr) doc) = [].
Proof.
  intros Hmod Hparent.
  unfold exec, Category.pre_save, mbind, M_bind, get, modify, mret, M_ret.
  destruct tr as [mn mp ms new]; simpl in *. subst mp.
  destruct mn; simpl; rewrite Hparent; simpl; destruct (ms || new); simpl; auto.
Qed.

(** In every other case [level] and [ancestors] stay as they are. *)
Lemma category_pre_save_unchanged (store : gmap ObjectId Category.t) tr (doc : Category.t) :
  Category.isModified_parent tr = false ∨
  (∃ pid, Category.parent doc = Some pid ∧ store !! pid = None) →
  Category.level (exec (pre_save store tr) doc) = Category.level doc ∧
  Category.ancestors (exec (pre_save store tr) doc) = Category.ancestors doc.
Proof.
  intros Hcase.
  unfold exec, Category.pre_save, mbind, M_bind, get, modify, mret, M_ret.
  destruct tr as [mn mp ms new]; simpl in *.
  destruct Hcase as [->|(pid & Hparent & Hp)].
  - destruct mn; simpl; destruct (ms || new); simpl; auto.
  - destruct mn, mp; simpl; rewrite ?Hparent, ?Hp; simpl; destruct (ms || new); simpl; auto.
Qed.

Lemma category_save_run (store : gmap ObjectId Category.t) tr (doc : Category.t) :
  save tr doc store
  = (Normal (exec (pre_save store tr) doc),
     <[Category._id doc := exec (pre_save store tr) doc]> store).
Proof.
  unfold Category.save, mbind, M_bind, get, put, mret, M_ret. simpl.
  by destruct (category_pre_save_returns store tr doc) as (_ & -> & _).
Qed.

(** The hook keeps the invariant of the saved document, whatever changed. *)
Lemma category_pre_save_level_matches (store : gmap ObjectId Category.t) tr (doc : Category.t) :
  levels_match store → level_matches doc →
  level_matches (exec (pre_save store tr) doc).
Proof.
  intros Hstore Hdoc. unfold level_matches.
  destruct (Category.isModified_parent tr) eqn:Hmod.
  - destruct (Category.parent doc) as [pid|] eqn:Hparent.
    + destruct (store !! pid) as [p|] eqn:Hp.
      * destruct (category_pre_save_found store tr doc pid p Hmod Hparent Hp) as [-> ->].
        rewrite length_app. simpl. rewrite (Hstore pid p Hp). lia.
      * destruct (category_pre_save_unchanged store tr doc) as [-> ->]; [|done].
        right. by exists pid.
    + by destruct (category_pre_save_cleared store tr doc Hmod Hparent) as [-> ->].
  - destruct (category_pre_save_unchanged store tr doc) as [-> ->]; [by left|done].
Qed.

(** C7. A save in which [parent] was modified returns and writes the
    document under its id only. With a parent found in the store the saved
    document has [level = parent.level + 1] and [ancestors =
    parent.ancestors] followed by the parent's [{_id, name, slug}]; with
    [parent] cleared it has [level = 0] and [ancestors = []]. So
    [level == length(ancestors)] holds of the saved document when it holds
    of the parent found, and always when [parent] was cleared; a
    collection whose categories all satisfy it still does after the save.
    Every other document, descendants included, is left as it was. *)
Theorem category_save_one_hop (store : gmap ObjectId Category.t)
    (tr : Category.tracking) (doc : Category.t) :
  Category.isModified_parent tr = true →
  ∃ doc',
    save tr doc store = (Normal doc', <[Category._id doc := doc']> store) ∧
    Category._id doc' = Category._id doc ∧
    Category.parent doc' = Category.parent doc ∧
    (∀ pid p,
       Category.parent doc = Some pid → store !! pid = Some p →
       Category.level doc' = Category.level p + 1 ∧
       Category.ancestors doc' =
         Category.ancestors p ++
         [Ancestor.mk (Category._id p) (Category.name p) (Category.slug p)] ∧
       (level_matches p → level_matches doc')) ∧
    (Category.parent doc = None →
       Category.level doc' = 0 ∧ Category.ancestors doc' = [] ∧ level_matches doc') ∧
    (levels_match store → level_matches doc →
       levels_match (<[Category._id doc := doc']> store)) ∧
    (∀ id, id ≠ Category._id doc →
       (<[Category._id doc := doc']> store) !! id = store !! id).
Proof.
  intros Hmod. exists (exec (pre_save store tr) doc).
  destruct (category_pre_save_returns store tr doc) as (_ & Hid & Hparent).
  split_and!; [apply category_save_run | done | done | | | |].
  - intros pid p Hpid Hp.
    destruct (category_pre_save_found store tr doc pid p Hmod Hpid Hp) as [Hl Ha].
    split_and!; [done..|].
    intros Hinv. unfold level_matches in *. rewrite Hl, Ha, length_app. simpl. lia.
  - intros Hnone. destruct (category_pre_save_cleared store tr doc Hmod Hnone) as [Hl Ha].
    split_and!; [done..|]. unfold level_matches. by rewrite Hl, Ha.
  - intros Hstore Hdoc id c. rewrite lookup_insert. case_decide.
    + intros [= <-]. by apply category_pre_save_level_matches.
    + apply Hstore.
  - intros id Hne. by rewrite lookup_insert_ne.
Qed.
End category.

Lemma category_save_one_hop_witness :
  ∃ doc' store',
    Category.save (λ s, s) (λ _, 0) Sample.parent_changed
      (Category.mk 11 "Fiction" (Some "fiction"%string) None
         [Ancestor.mk 10 "Books" (Some "books"%string)] 1 "active" 0)
      Sample.categories = (Normal doc', store') ∧
    Category.level doc' = 0 ∧ Category.ancestors doc' = [] ∧
    store' !! 12%nat = Some Sample.crime ∧
    Category.ancestors Sample.crime
    = [Ancestor.mk 10 "Books" (Some "books"%string);
       Ancestor.mk 11 "Fiction" (Some "fiction"%string)].
Proof.
  destruct (category_save_one_hop (λ s, s) (λ _, 0) Sample.categories
              Sample.parent_changed
              (Category.mk 11 "Fiction" (Some "fiction"%string) None
                 [Ancestor.mk 10 "Books" (Some "books"%string)] 1 "active" 0)
              eq_refl)
    as (doc' & Hrun & _ & _ & _ & Hclear & _ & Hother).
  destruct (Hclear eq_refl) as (Hlevel & Hanc & _).
  exists doc', (<[11%nat := doc']> Sample.categories).
  split_and!; [exact Hrun | exact Hlevel | exact Hanc | | reflexivity].
  transitivity (Sample.categories !! 12%nat);
    [apply (Hother 12%nat); simpl; lia | reflexivity].
Defined.

(** * More properties *)

(** ** Sums over lines *)

Section weights.
Context {A : Type} (w : A → Z).

Lemma reduce_acc (l : list A) (acc : Z) :
  foldl (λ t x, t + w x) acc l = acc + foldl (λ t x, t + w x) 0 l.
Proof.
  revert acc. induction l as [|x l IH]; intros acc; simpl; [lia|].
  rewrite (IH (acc + w x)), (IH (0 + w x)). lia.
Qed.

Lemma reduce_cons (x : A) (l : list A) :
  foldl (λ t x, t + w x) 0 (x :: l) = w x + foldl (λ t x, t + w x) 0 l.
Proof. simpl. rewrite reduce_acc. lia. Qed.

Lemma reduce_app (l1 l2 : list A) :
  foldl (λ t x, t + w x) 0 (l1 ++ l2)
  = foldl (λ t x, t + w x) 0 l1 + foldl (λ t x, t + w x) 0 l2.
Proof. rewrite foldl_app. apply reduce_acc. Qed.

Lemma reduce_insert (l : list A) i (e x : A) :
  l !! i = Some e →
  foldl (λ t x, t + w x) 0 (<[i := x]> l) = foldl (λ t x, t + w x) 0 l - w e + w x.
Proof.
  revert i. induction l as [|y l IH]; intros i Hi; [done|].
  destruct i as [|i]; simpl in Hi.
  - injection Hi as ->. cbn [insert list_insert]. rewrite !reduce_cons. lia.
  - change (<[S i := x]> (y :: l)) with (y :: <[i := x]> l).
    rewrite !reduce_cons, (IH i Hi). lia.
Qed.
End weights.

Lemma totalItems_items (c : Cart.t) :
  Cart.totalItems (exec Cart.calculateTotals c) = Cart.totalItems c.
Proof. reflexivity. Qed.

Section cart_add_more.
Context {casting : Casting}.

(** X1. [addItem] adds exactly [quantity] (1 when omitted) to the
    [totalItems] virtual, whether it increments a line or appends one, and
    the number of lines stays or grows by one. *)
Theorem addItem_totalItems (c : Cart.t) (oid : ObjectId) (product : Product.t)
    (quantity : option Z) (variant : option Variant.t) :
  Cart.totalItems (exec (Cart.addItem oid product quantity variant) c)
    = Cart.totalItems c + default 1 quantity ∧
  (Cart.uniqueItems (exec (Cart.addItem oid product quantity variant) c)
     = Cart.uniqueItems c ∨
   Cart.uniqueItems (exec (Cart.addItem oid product quantity variant) c)
     = S (Cart.uniqueItems c)).
Proof.
  unfold exec.
  destruct (list_find (CartItem.same_line (Product._id product)
                         (default Variant.null variant)) (Cart.items c))
    as [[i e]|] eqn:E.
  - rewrite (addItem_existing _ _ _ _ _ _ _ E). cbn [snd].
    pose proof E as (Hi & _)%list_find_Some.
    split.
    + rewrite totalItems_items. unfold Cart.totalItems. cbn [Cart.items Cart.set_items].
      rewrite (reduce_insert CartItem.quantity _ i e) by done. simpl. lia.
    + left. unfold Cart.uniqueItems. rewrite calculateTotals_items. simpl.
      by rewrite length_insert.
  - rewrite (addItem_new _ _ _ _ _ E). cbn [snd]. split.
    + rewrite totalItems_items. unfold Cart.totalItems. cbn [Cart.items Cart.set_items].
      rewrite (reduce_app CartItem.quantity). simpl. lia.
    + right. unfold Cart.uniqueItems. rewrite calculateTotals_items. simpl.
      rewrite length_app. simpl. lia.
Qed.

Lemma calculateTotals_set_items (l l' : list CartItem.t) (c : Cart.t) :
  exec Cart.calculateTotals (Cart.set_items l (exec Cart.calculateTotals (Cart.set_items l' c)))
  = exec Cart.calculateTotals (Cart.set_items l c).
Proof. reflexivity. Qed.

Lemma set_items_same (c : Cart.t) :
  exec Cart.calculateTotals (Cart.set_items (Cart.items c) c) = exec Cart.calculateTotals c.
Proof. by destruct c. Qed.

Lemma pull_fresh oid (items : list CartItem.t) (line : CartItem.t) :
  (∀ item, item ∈ items → CartItem._id item ≠ oid) → CartItem._id line = oid →
  Cart.pull oid (items ++ [line]) = items.
Proof.
  intros Hfresh Hid. unfold Cart.pull. rewrite filter_app.
  rewrite filter_cons_False, filter_nil, app_nil_r by (intros H; by apply H).
  apply pull_absent. by apply id_None.
Qed.

(** X2. Adding a product the cart has no line for (none that [addItem]'s
    own test takes for the product and variant), under an id no line
    uses, and then removing that id gives back the cart with its totals
    recomputed: the new line is undone exactly. *)
Theorem addItem_removeItem_round_trip (c : Cart.t) (oid : ObjectId)
    (product : Product.t) (quantity : option Z) (variant : option Variant.t) :
  (∀ item, item ∈ Cart.items c →
     ¬ CartItem.same_line (Product._id product) (default Variant.null variant) item) →
  (∀ item, item ∈ Cart.items c → CartItem._id item ≠ oid) →
  (Cart.addItem oid product quantity variant;; Cart.removeItem oid) c
  = (Normal tt, exec Cart.calculateTotals c).
Proof.
  intros Hnone%same_line_None Hfresh.
  rewrite (bind_normal _ _ _ _ _ (addItem_new oid product quantity variant c Hnone)).
  rewrite removeItem_run, calculateTotals_items. cbn [Cart.items Cart.set_items].
  rewrite pull_fresh by done.
  by rewrite calculateTotals_set_items, set_items_same.
Qed.
End cart_add_more.

Lemma addItem_removeItem_round_trip_witness :
  (Cart.addItem (casting := Sample.as_given) 100 Sample.pen (Some 2) None;;
   Cart.removeItem 100)
    (Cart.set_items [Sample.ink_line 101 1] Sample.empty_cart)
  = (Normal tt,
     exec Cart.calculateTotals (Cart.set_items [Sample.ink_line 101 1] Sample.empty_cart)).
Proof.
  apply addItem_removeItem_round_trip.
  - intros item ->%list_elem_of_singleton [Hp _]. by vm_compute in Hp.
  - intros item ->%list_elem_of_singleton. simpl. lia.
Defined.

Lemma pull_pull itemId (items : list CartItem.t) :
  Cart.pull itemId (Cart.pull itemId items) = Cart.pull itemId items.
Proof. apply pull_absent, id_None, pull_no_match. Qed.

(** X3. Once a line is gone it stays gone: [removeItem] twice is
    [removeItem] once, and after [removeItem(id)] or after
    [updateItemQuantity(id, q)] with [q <= 0] every further
    [updateItemQuantity(id, _)] throws ['Item not found in cart'] and
    leaves the cart as it is. *)
Theorem removed_line_stays_removed (c : Cart.t) (itemId : ObjectId) :
  (Cart.removeItem itemId;; Cart.removeItem itemId) c = Cart.removeItem itemId c ∧
  (∀ quantity,
     Cart.updateItemQuantity itemId quantity (exec (Cart.removeItem itemId) c)
     = (Throw "Item not found in cart", exec (Cart.removeItem itemId) c)) ∧
  (∀ q quantity,
     q ≤ 0 →
     (∃ item, item ∈ Cart.items c ∧ CartItem._id item = itemId) →
     Cart.updateItemQuantity itemId q c = Cart.removeItem itemId c ∧
     Cart.updateItemQuantity itemId quantity (exec (Cart.updateItemQuantity itemId q) c)
     = (Throw "Item not found in cart", exec (Cart.updateItemQuantity itemId q) c)).
Proof.
  assert (Hgone : ∀ quantity,
            Cart.updateItemQuantity itemId quantity (exec (Cart.removeItem itemId) c)
            = (Throw "Item not found in cart", exec (Cart.removeItem itemId) c)).
  { intros quantity. apply updateItemQuantity_missing, id_None.
    unfold exec. rewrite removeItem_run. cbn [snd].
    rewrite calculateTotals_items. apply pull_no_match. }
  split_and!.
  - rewrite (bind_normal _ _ _ _ _ (removeItem_run itemId c)).
    rewrite !removeItem_run, calculateTotals_items. cbn [Cart.items Cart.set_items].
    by rewrite pull_pull, calculateTotals_set_items.
  - exact Hgone.
  - intros q quantity Hq [[i item] E]%id_is_Some.
    assert (Heq : Cart.updateItemQuantity itemId q c = Cart.removeItem itemId c).
    { by rewrite (updateItemQuantity_remove _ _ _ i item E Hq), removeItem_run. }
    split; [done|]. unfold exec in *. rewrite Heq. apply Hgone.
Qed.

Lemma removed_line_stays_removed_witness :
  Cart.updateItemQuantity 100 0
    (Cart.set_items [Sample.pen_line 100 2] Sample.empty_cart)
  = Cart.removeItem 100 (Cart.set_items [Sample.pen_line 100 2] Sample.empty_cart) ∧
  Cart.updateItemQuantity 100 4
    (exec (Cart.updateItemQuantity 100 0)
       (Cart.set_items [Sample.pen_line 100 2] Sample.empty_cart))
  = (Throw "Item not found in cart",
     exec (Cart.updateItemQuantity 100 0)
       (Cart.set_items [Sample.pen_line 100 2] Sample.empty_cart)).
Proof.
  destruct (removed_line_stays_removed
              (Cart.set_items [Sample.pen_line 100 2] Sample.empty_cart) 100)
    as (_ & _ & H).
  apply (H 0 4); [lia|].
  exists (Sample.pen_line 100 2). split; [apply list_elem_of_here | reflexivity].
Defined.

(** X4. A returning [updateItemQuantity] with a positive quantity never
    leaves the line above its [maxQuantity] nor above the quantity asked
    for, keeps the number of lines, and moves [totalItems] by the change of
    that one line; the line is kept even when the ceiling makes its
    quantity zero or negative. *)
Theorem updateItemQuantity_ceiling (c : Cart.t) (itemId : ObjectId) (quantity : Z)
    (i : nat) (item : CartItem.t) :
  Cart.id itemId (Cart.items c) = Some (i, item) → 0 < quantity →
  ∃ item',
    Cart.items (exec (Cart.updateItemQuantity itemId quantity) c) !! i = Some item' ∧
    CartItem.quantity item' ≤ CartItem.maxQuantity item ∧
    CartItem.quantity item' ≤ quantity ∧
    (quantity ≤ CartItem.maxQuantity item → CartItem.quantity item' = quantity) ∧
    CartItem.total item' = CartItem.quantity item' * CartItem.price item ∧
    Cart.uniqueItems (exec (Cart.updateItemQuantity itemId quantity) c)
      = Cart.uniqueItems c ∧
    Cart.totalItems (exec (Cart.updateItemQuantity itemId quantity) c)
      = Cart.totalItems c - CartItem.quantity item + CartItem.quantity item'.
Proof.
  intros E Hq. pose proof (id_Some _ _ _ _ E) as [Hi _].
  unfold exec. rewrite (updateItemQuantity_set _ _ _ i item E Hq). cbn [snd].
  eexists. split_and!.
  - rewrite calculateTotals_items. cbn [Cart.items Cart.set_items].
    apply list_lookup_insert_eq. by eapply lookup_lt_Some.
  - simpl. lia.
  - simpl. lia.
  - intros Hle. simpl. lia.
  - reflexivity.
  - unfold Cart.uniqueItems. rewrite calculateTotals_items. simpl. by rewrite length_insert.
  - rewrite totalItems_items. unfold Cart.totalItems. cbn [Cart.items Cart.set_items].
    by rewrite (reduce_insert CartItem.quantity _ i item).
Qed.

Lemma updateItemQuantity_ceiling_witness :
  ∃ item',
    Cart.items
      (exec (Cart.updateItemQuantity 101 25)
         (Cart.set_items [Sample.pen_line 100 2; Sample.ink_line 101 1] Sample.empty_cart))
      !! 1%nat = Some item' ∧
    CartItem.quantity item' ≤ 10.
Proof.
  destruct (updateItemQuantity_ceiling
              (Cart.set_items [Sample.pen_line 100 2; Sample.ink_line 101 1]
                 Sample.empty_cart) 101 25 1 (Sample.ink_line 101 1))
    as (item' & Hi & Hmax & _); [reflexivity | lia |].
  exists item'. split; [exact Hi | exact Hmax].
Defined.

(** X5. [applyDiscount] subtracts [amount] as it is, whatever [type]
    says (a ['percentage'] is not taken of anything), and marks the
    discount valid; [removeDiscount] brings the total back to
    [subtotal + tax + shipping.cost] and forgets the code, so removing
    after applying is removing alone. *)
Theorem discount_is_a_plain_amount (c : Cart.t) (code : option string) (amount : Z)
    (type : option string) :
  Cart.total (exec (Cart.applyDiscount code amount type) c)
    = sum_item_totals (Cart.items c) + Cart.tax c + Shipping.cost (Cart.shipping c)
      - amount ∧
  (∀ type', Cart.total (exec (Cart.applyDiscount code amount type') c)
            = Cart.total (exec (Cart.applyDiscount code amount type) c)) ∧
  Discount.valid (Cart.discount (exec (Cart.applyDiscount code amount type) c)) = true ∧
  Cart.items (exec (Cart.applyDiscount code amount type) c) = Cart.items c ∧
  (Cart.applyDiscount code amount type;; Cart.removeDiscount) c = Cart.removeDiscount c ∧
  Cart.total (exec Cart.removeDiscount c)
    = sum_item_totals (Cart.items c) + Cart.tax c + Shipping.cost (Cart.shipping c) ∧
  Cart.discount (exec Cart.removeDiscount c) = Discount.mk None 0 "fixed" false.
Proof.
  assert (Htotal : ∀ d,
            Cart.total (exec Cart.calculateTotals (Cart.set_discount d c))
            = sum_item_totals (Cart.items c) + Cart.tax c + Shipping.cost (Cart.shipping c)
              - Discount.amount d).
  { intros d. destruct (calculateTotals_holds (Cart.set_discount d c)) as [Hs Ht].
    by rewrite Ht, Hs. }
  split_and!.
  - unfold exec. rewrite applyDiscount_run. cbn [snd]. by rewrite Htotal.
  - intros type'. unfold exec. rewrite !applyDiscount_run. cbn [snd]. by rewrite !Htotal.
  - reflexivity.
  - reflexivity.
  - reflexivity.
  - unfold exec. rewrite removeDiscount_run. cbn [snd]. rewrite Htotal. simpl. lia.
  - reflexivity.
Qed.

(** X6. [clear] empties the cart and recomputes: no lines, [hasItems]
    false, [totalItems] and [subtotal] zero. Tax, shipping and discount
    are kept, so the total of the cleared cart is
    [tax + shipping.cost - discount.amount] and not zero in general. *)
Theorem clear_keeps_charges (c : Cart.t) :
  Cart.clear c = (Normal tt, exec Cart.clear c) ∧
  Cart.items (exec Cart.clear c) = [] ∧
  Cart.uniqueItems (exec Cart.clear c) = 0%nat ∧
  CartView.hasItems (exec Cart.clear c) = false ∧
  Cart.totalItems (exec Cart.clear c) = 0 ∧
  Cart.subtotal (exec Cart.clear c) = 0 ∧
  Cart.discount (exec Cart.clear c) = Cart.discount c ∧
  Cart.total (exec Cart.clear c)
    = Cart.tax c + Shipping.cost (Cart.shipping c) - Discount.amount (Cart.discount c) ∧
  (Cart.tax c + Shipping.cost (Cart.shipping c) < Discount.amount (Cart.discount c) →
   Cart.total (exec Cart.clear c) < 0).
Proof.
  split_and!; try reflexivity. simpl. lia.
Qed.

Lemma clear_keeps_charges_witness :
  Cart.total
    (exec Cart.clear
       (exec (Cart.applyDiscount None 300 None)
          (Cart.set_items [Sample.pen_line 100 2] Sample.empty_cart))) < 0.
Proof.
  apply clear_keeps_charges. vm_compute. reflexivity.
Defined.

(** ** Invariants of the cart lines *)

Lemma NoDup_fmap_filter {A B} (f : A → B) (P : A → Prop) `{∀ x, Decision (P x)}
    (l : list A) :
  NoDup (f <$> l) → NoDup (f <$> filter P l).
Proof.
  induction l as [|x l IH]; [done|].
  rewrite fmap_cons. intros [Hx Hnd]%NoDup_cons.
  destruct (decide (P x)).
  - rewrite filter_cons_True, fmap_cons by done. apply NoDup_cons. split; [|by apply IH].
    intros (y & Hy & [_ Hin]%list_elem_of_filter)%list_elem_of_fmap.
    apply Hx. rewrite Hy. by apply list_elem_of_fmap_2.
  - rewrite filter_cons_False by done. by apply IH.
Qed.

Lemma Forall_filter_keeps {A} (Q P : A → Prop) `{∀ x, Decision (P x)} (l : list A) :
  Forall Q l → Forall Q (filter P l).
Proof.
  rewrite !Forall_forall. intros HQ x [_ Hin]%list_elem_of_filter. by apply HQ.
Qed.

Lemma ids_insert (items : list CartItem.t) i (e x : CartItem.t) :
  items !! i = Some e → CartItem._id x = CartItem._id e →
  CartItem._id <$> <[i := x]> items = CartItem._id <$> items.
Proof.
  intros Hi Hk. rewrite list_fmap_insert, Hk.
  apply list_insert_id. by rewrite list_lookup_fmap, Hi.
Qed.

Lemma NoDup_snoc_fresh {A B} (f : A → B) (l : list A) (x : A) :
  NoDup (f <$> l) → (∀ y, y ∈ l → f y ≠ f x) → NoDup (f <$> (l ++ [x])).
Proof.
  intros Hnd Hfresh. rewrite fmap_app. apply NoDup_app. split_and!; [done| |].
  - intros k (y & -> & Hy)%list_elem_of_fmap Hk.
    apply list_elem_of_singleton in Hk. by apply (Hfresh y).
  - apply NoDup_singleton.
Qed.

Section cart_invariants.
Context {casting : Casting}.

(** What a call does to the lines, case by case. *)
Lemma invoke_items (call : CartCall.t) (c : Cart.t) :
  Cart.items (exec (CartCall.invoke call) c) = Cart.items c ∨
  (∃ itemId, Cart.items (exec (CartCall.invoke call) c) = Cart.pull itemId (Cart.items c)) ∨
  Cart.items (exec (CartCall.invoke call) c) = [] ∨
  (∃ i e x,
     Cart.items c !! i = Some e ∧
     CartItem._id x = CartItem._id e ∧ line_consistent x ∧
     Cart.items (exec (CartCall.invoke call) c) = <[i := x]> (Cart.items c)) ∨
  (∃ oid product quantity variant x,
     call = CartCall.AddItem oid product quantity variant ∧
     CartItem._id x = oid ∧ line_consistent x ∧
     Cart.items (exec (CartCall.invoke call) c) = Cart.items c ++ [x]).
Proof.
  unfold exec.
  destruct call as [oid product quantity variant|itemId quantity|itemId|code amount type| |];
    cbn [CartCall.invoke].
  - destruct (list_find (CartItem.same_line (Product._id product)
                           (default Variant.null variant)) (Cart.items c))
      as [[i e]|] eqn:E.
    + rewrite (addItem_existing _ _ _ _ _ _ _ E). cbn [snd].
      pose proof E as (Hi & _)%list_find_Some.
      do 3 right. left. exists i, e, (CartItem.increment (default 1 quantity) e).
      by split_and!.
    + rewrite (addItem_new _ _ _ _ _ E). cbn [snd].
      do 4 right.
      exists oid, product, quantity, variant,
        (CartItem.mk oid (Product._id product) (Product.name product)
           (Product.sku product) (default 1 quantity) (Product.price product)
           (default 1 quantity * Product.price product)
           (cast_variant (default Variant.null variant))
           (Product.primaryImage product) true
           (or_default (Product.maxOrderQuantity product) 100)).
      by split_and!.
  - destruct (Cart.id itemId (Cart.items c)) as [[i item]|] eqn:E.
    + destruct (decide (quantity ≤ 0)) as [Hq|Hq].
      * rewrite (updateItemQuantity_remove _ _ _ _ _ E Hq). cbn [snd].
        right. left. by exists itemId.
      * rewrite (updateItemQuantity_set _ _ _ _ _ E) by lia. cbn [snd].
        pose proof (id_Some _ _ _ _ E) as [Hi _].
        do 3 right. left.
        exists i, item,
          (CartItem.set_total
             (Z.min quantity (CartItem.maxQuantity item) * CartItem.price item)
             (CartItem.set_quantity (Z.min quantity (CartItem.maxQuantity item)) item)).
        by split_and!.
    + rewrite (updateItemQuantity_missing _ _ _ E). by left.
  - rewrite removeItem_run. right. left. by exists itemId.
  - rewrite applyDiscount_run. by left.
  - rewrite removeDiscount_run. by left.
  - rewrite clear_run. by do 2 right; left.
Qed.

(** X7. Two invariants of a cart under [addItem], [updateItemQuantity],
    [removeItem], [applyDiscount], [removeDiscount] and [clear], however the
    call completes: every line's total stays its quantity times its price,
    through every sequence of calls; and line ids stay pairwise distinct
    as long as [addItem] is given an unused id. *)
Theorem cart_line_invariants (c : Cart.t) :
  (∀ call, lines_consistent c → lines_consistent (exec (CartCall.invoke call) c)) ∧
  (∀ call, unused_id c call → distinct_line_ids c →
           distinct_line_ids (exec (CartCall.invoke call) c)) ∧
  (∀ calls, lines_consistent c → lines_consistent (exec (CartCall.run calls) c)).
Proof.
  assert (Hstep : ∀ c call,
            (lines_consistent c → lines_consistent (exec (CartCall.invoke call) c)) ∧
            (unused_id c call → distinct_line_ids c →
             distinct_line_ids (exec (CartCall.invoke call) c))).
  { clear c. intros c call.
    unfold lines_consistent, distinct_line_ids.
    destruct (invoke_items call c)
      as [->|[[itemId ->]|[->|[(i & e & x & Hi & Hid & Hx & ->)
                               |(oid & p & q & v & x & -> & Hid & Hx & ->)]]]].
    - done.
    - split_and!; intros.
      + by apply Forall_filter_keeps.
      + by apply NoDup_fmap_filter.
    - split_and!; intros; simpl; by constructor.
    - split_and!; intros.
      + by apply Forall_insert.
      + by rewrite (ids_insert _ i e x).
    - split_and!.
      + intros Hc. apply Forall_app. split; [done|]. by apply Forall_singleton.
      + intros Hun Hnd. apply NoDup_snoc_fresh; [done|].
        intros y Hy. rewrite Hid. by apply Hun. }
  split_and!; try (intros call; apply Hstep).
  intros calls. revert c. induction calls as [|call calls IH]; intros c Hc; [done|].
  unfold exec. rewrite run_cons.
  destruct (Hstep c call) as (H1 & _).
  specialize (H1 Hc). unfold exec in H1.
  destruct (CartCall.invoke call c) as [[[]|e] c1]; cbn [snd] in *.
  - by apply IH.
  - done.
Qed.
End cart_invariants.

Lemma cart_line_invariants_witness :
  lines_consistent
    (exec (CartCall.run (casting := Sample.as_given)
             [CartCall.AddItem 100 Sample.pen (Some 2) None;
              CartCall.AddItem 101 Sample.pen None None;
              CartCall.UpdateItemQuantity 100 500]) Sample.empty_cart) ∧
  distinct_line_ids
    (exec (CartCall.invoke (casting := Sample.as_given)
             (CartCall.AddItem 100 Sample.pen (Some 2) None)) Sample.empty_cart).
Proof.
  destruct (cart_line_invariants (casting := Sample.as_given) Sample.empty_cart)
    as (_ & Hids & Hlines).
  split.
  - apply Hlines. constructor.
  - apply Hids; [|constructor]. intros item Hin. inversion Hin.
Defined.

(** ** Validation of a cart against the catalog *)

(** When a line is available after validation. *)
Lemma validate_line_available (products : gmap ObjectId ProductDoc.t) (item : CartItem.t) :
  CartItem.available (CartValidation.validate_line products item) = true ↔
  ∃ p, products !! CartItem.product item = Some p ∧
       ProductDoc.status p = "active"%string ∧
       (Inventory.trackQuantity (ProductDoc.inventory p) = true →
        CartItem.quantity item ≤ Inventory.quantity (ProductDoc.inventory p)).
Proof.
  unfold CartValidation.validate_line.
  destruct (products !! CartItem.product item) as [p|];
    [|simpl; split; [done | by intros (p' & ? & _)]].
  destruct (decide (ProductDoc.status p ≠ "active"%string)) as [Hs|Hs];
    [simpl; split; [done | by intros (p' & [= <-] & Hact & _)]|].
  apply dec_stable in Hs.
  destruct (Inventory.trackQuantity (ProductDoc.inventory p)) eqn:Ht; simpl.
  - case_bool_decide as Hq; simpl.
    + split; [done|]. intros (p' & [= <-] & _ & Hle). specialize (Hle Ht). lia.
    + split; [|done]. intros _. exists p. split_and!; [done..|]. intros _. lia.
  - split; [|done]. intros _. exists p. split_and!; [done..|]. congruence.
Qed.

Lemma validate_line_keeps (products : gmap ObjectId ProductDoc.t) (item : CartItem.t) :
  let item' := CartValidation.validate_line products item in
  CartItem._id item' = CartItem._id item ∧
  CartItem.product item' = CartItem.product item ∧
  CartItem.name item' = CartItem.name item ∧
  CartItem.sku item' = CartItem.sku item ∧
  CartItem.quantity item' = CartItem.quantity item ∧
  CartItem.price item' = CartItem.price item ∧
  CartItem.total item' = CartItem.total item ∧
  CartItem.variant item' = CartItem.variant item ∧
  CartItem.image item' = CartItem.image item.
Proof.
  unfold CartValidation.validate_line.
  destruct (products !! CartItem.product item) as [p|]; [|done].
  destruct (decide (ProductDoc.status p ≠ "active"%string)); [done|].
  by destruct (Inventory.trackQuantity (ProductDoc.inventory p) && _).
Qed.

Lemma validate_line_ceiling (products : gmap ObjectId ProductDoc.t) (item : CartItem.t) :
  (CartItem.available (CartValidation.validate_line products item) = false →
   CartItem.maxQuantity (CartValidation.validate_line products item)
   = CartItem.maxQuantity item) ∧
  (∀ p, products !! CartItem.product item = Some p →
        CartItem.available (CartValidation.validate_line products item) = true →
        CartItem.maxQuantity (CartValidation.validate_line products item)
        = or_default (Inventory.maxOrderQuantity (ProductDoc.inventory p)) 100).
Proof.
  unfold CartValidation.validate_line.
  destruct (products !! CartItem.product item) as [p|]; [|done].
  destruct (decide (ProductDoc.status p ≠ "active"%string)).
  - split; [done|]. by intros p' _.
  - destruct (Inventory.trackQuantity (ProductDoc.inventory p) && _); simpl.
    + split; [done|]. by intros p' _.
    + split; [done|]. by intros p' [= <-] _.
Qed.

Lemma validate_line_twice (products : gmap ObjectId ProductDoc.t) (item : CartItem.t) :
  CartValidation.validate_line products (CartValidation.validate_line products item)
  = CartValidation.validate_line products item.
Proof.
  unfold CartValidation.validate_line.
  destruct (products !! CartItem.product item) as [p|] eqn:Hp; simpl; rewrite ?Hp; [|done].
  destruct (decide (ProductDoc.status p ≠ "active"%string)); simpl; rewrite ?Hp.
  - by rewrite decide_True.
  - destruct (Inventory.trackQuantity (ProductDoc.inventory p) && _) eqn:Hq;
      simpl; rewrite Hp, decide_False by done; simpl; by rewrite Hq.
Qed.

Lemma sum_item_totals_validate (products : gmap ObjectId ProductDoc.t)
    (items : list CartItem.t) :
  sum_item_totals (CartValidation.validate_line products <$> items) = sum_item_totals items.
Proof.
  induction items as [|item items IH]; [done|].
  rewrite fmap_cons. cbn [sum_item_totals]. rewrite IH.
  by destruct (validate_line_keeps products item) as (_ & _ & _ & _ & _ & _ & -> & _).
Qed.

(** X8. [validateItems] returns and touches only the [available] flag and
    the quantity ceiling of each line: ids, products, quantities, prices
    and totals are as before (a quantity above the stock is flagged, not
    adjusted), so the cart totals stay valid without a recomputation. A
    line is available exactly when its product is found, is active and,
    if its stock is tracked, has at least the line's quantity; only then is
    [maxQuantity] refreshed from the product. Validating twice against
    the same catalog is validating once. *)
Theorem validateItems_flags_only (products : gmap ObjectId ProductDoc.t) (c : Cart.t) :
  CartValidation.validateItems products c
    = (Normal tt, exec (CartValidation.validateItems products) c) ∧
  Cart.uniqueItems (exec (CartValidation.validateItems products) c) = Cart.uniqueItems c ∧
  (∀ i item,
     Cart.items c !! i = Some item →
     ∃ item',
       Cart.items (exec (CartValidation.validateItems products) c) !! i = Some item' ∧
       CartItem._id item' = CartItem._id item ∧
       CartItem.product item' = CartItem.product item ∧
       CartItem.quantity item' = CartItem.quantity item ∧
       CartItem.price item' = CartItem.price item ∧
       CartItem.total item' = CartItem.total item ∧
       CartItem.variant item' = CartItem.variant item ∧
       (CartItem.available item' = true ↔
        ∃ p, products !! CartItem.product item = Some p ∧
             ProductDoc.status p = "active"%string ∧
             (Inventory.trackQuantity (ProductDoc.inventory p) = true →
              CartItem.quantity item ≤ Inventory.quantity (ProductDoc.inventory p))) ∧
       (CartItem.available item' = false →
        CartItem.maxQuantity item' = CartItem.maxQuantity item) ∧
       (∀ p, products !! CartItem.product item = Some p →
             CartItem.available item' = true →
             CartItem.maxQuantity item'
             = or_default (Inventory.maxOrderQuantity (ProductDoc.inventory p)) 100)) ∧
  Cart.totalItems (exec (CartValidation.validateItems products) c) = Cart.totalItems c ∧
  (totals_hold c → totals_hold (exec (CartValidation.validateItems products) c)) ∧
  exec (CartValidation.validateItems products)
    (exec (CartValidation.validateItems products) c)
  = exec (CartValidation.validateItems products) c.
Proof.
  split_and!.
  - reflexivity.
  - unfold Cart.uniqueItems. simpl. by rewrite length_fmap.
  - intros i item Hi. exists (CartValidation.validate_line products item).
    destruct (validate_line_keeps products item)
      as (H1 & H2 & _ & _ & H5 & H6 & H7 & H8 & _).
    destruct (validate_line_ceiling products item) as [Hc1 Hc2].
    split_and!; [|done..|apply validate_line_available|exact Hc1|exact Hc2].
    simpl. by rewrite list_lookup_fmap, Hi.
  - unfold Cart.totalItems. simpl. induction (Cart.items c) as [|item items IH]; [done|].
    rewrite fmap_cons, !(reduce_cons CartItem.quantity), IH.
    by destruct (validate_line_keeps products item) as (_ & _ & _ & _ & -> & _).
  - intros [Hs Ht]. split; simpl; [|done].
    by rewrite sum_item_totals_validate.
  - unfold exec, CartValidation.validateItems, modify. simpl.
    unfold Cart.set_items. simpl. f_equal.
    rewrite <- list_fmap_compose. apply list_fmap_ext.
    intros i item _. apply validate_line_twice.
Qed.

Lemma validateItems_flags_only_witness :
  totals_hold
    (exec (CartValidation.validateItems ∅)
       (exec Cart.calculateTotals
          (Cart.set_items [Sample.pen_line 100 2] Sample.empty_cart))) ∧
  ∃ item',
    Cart.items
      (exec (CartValidation.validateItems ∅)
         (Cart.set_items [Sample.pen_line 100 2] Sample.empty_cart)) !! 0%nat
    = Some item' ∧
    CartItem.quantity item' = 2 ∧ CartItem.maxQuantity item' = 100.
Proof.
  split.
  - apply validateItems_flags_only. apply calculateTotals_holds.
  - destruct (validateItems_flags_only ∅
                (Cart.set_items [Sample.pen_line 100 2] Sample.empty_cart))
      as (_ & _ & H & _).
    destruct (H 0%nat (Sample.pen_line 100 2) eq_refl)
      as (item' & Hi & _ & _ & Hq & _ & _ & _ & Hav & Hmax & _).
    exists item'. split_and!; [exact Hi | exact Hq |].
    rewrite Hmax; [reflexivity|].
    destruct (CartItem.available item'); [|reflexivity].
    destruct (proj1 Hav eq_refl) as (p & Hp & _).
    unfold lookup, ProductRef.lookup in Hp. rewrite lookup_empty in Hp. discriminate.
Defined.

(** ** Stock flags and primary image of a product *)

(** X9. The stock flags of a product and what cart validation makes of
    them. [lowStock] implies [inStock], and a product without stock is
    never [lowStock]; an untracked product is always [inStock] and a tracked
    one exactly when it has stock or allows backorders. Cart validation
    does not look at [allowBackorder]: for an active, tracked product with
    less stock than a line asks for, the line is flagged unavailable even
    though the product allows backorders and reads as [inStock]; for an
    active untracked product the line is available whatever its
    quantity. *)
Theorem stock_flags_and_validation (p : ProductDoc.t) :
  (ProductDoc.lowStock p = true → ProductDoc.inStock p = true) ∧
  (Inventory.quantity (ProductDoc.inventory p) ≤ 0 → ProductDoc.lowStock p = false) ∧
  (Inventory.trackQuantity (ProductDoc.inventory p) = false →
   ProductDoc.inStock p = true) ∧
  (Inventory.trackQuantity (ProductDoc.inventory p) = true →
   (ProductDoc.inStock p = true ↔
    0 < Inventory.quantity (ProductDoc.inventory p) ∨
    Inventory.allowBackorder (ProductDoc.inventory p) = true)) ∧
  (∀ (products : gmap ObjectId ProductDoc.t) (item : CartItem.t),
     products !! CartItem.product item = Some p →
     ProductDoc.status p = "active"%string →
     (Inventory.trackQuantity (ProductDoc.inventory p) = true →
      Inventory.allowBackorder (ProductDoc.inventory p) = true →
      Inventory.quantity (ProductDoc.inventory p) < CartItem.quantity item →
      ProductDoc.inStock p = true ∧
      CartItem.available (CartValidation.validate_line products item) = false) ∧
     (Inventory.trackQuantity (ProductDoc.inventory p) = false →
      CartItem.available (CartValidation.validate_line products item) = true)).
Proof.
  unfold ProductDoc.lowStock, ProductDoc.inStock.
  split_and!.
  - intros [_ Hq%bool_decide_eq_true]%andb_true_iff.
    destruct (Inventory.trackQuantity _); simpl; [|done].
    by rewrite bool_decide_eq_true_2.
  - intros Hq. apply andb_false_iff. right. apply bool_decide_eq_false. lia.
  - by intros ->.
  - intros ->. simpl. rewrite orb_true_iff, bool_decide_eq_true. split; intros [?|?]; auto with lia.
  - intros products item Hp Hs. split.
    + intros Ht Hb Hq. split.
      * rewrite Ht, Hb. simpl. apply orb_true_r.
      * destruct (CartItem.available _) eqn:Hav; [|done].
        apply validate_line_available in Hav as (p' & Hp' & _ & Hle).
        rewrite Hp in Hp'. injection Hp' as <-. specialize (Hle Ht). lia.
    + intros Ht. apply validate_line_available. exists p. split_and!; [done..|].
      congruence.
Qed.

Lemma stock_flags_and_validation_witness :
  let p := ProductDoc.mk 7 "pen" None 250 [] (Inventory.mk 0 10 true true None) "active" in
  ProductDoc.inStock p = true ∧
  CartItem.available
    (CartValidation.validate_line {[7%nat := p]} (Sample.pen_line 100 1)) = false.
Proof.
  intros p.
  destruct (stock_flags_and_validation p) as (_ & _ & _ & _ & H).
  destruct (H {[7%nat := p]} (Sample.pen_line 100 1)) as [Hback _];
    [reflexivity | reflexivity |].
  apply Hback; [reflexivity | reflexivity | simpl; lia].
Defined.

Lemma find_first_flag {A} (flag : A → bool) (l : list A) :
  match list_find (λ x, flag x = true) l with
  | Some (i, x) =>
      l !! i = Some x ∧ flag x = true ∧
      ∀ j y, l !! j = Some y → (j < i)%nat → flag y = false
  | None => ∀ y, y ∈ l → flag y = false
  end.
Proof.
  destruct (list_find _ l) as [[i x]|] eqn:E.
  - apply list_find_Some in E as (Hi & Hx & Hfirst). split_and!; [done..|].
    intros j y Hj Hlt. specialize (Hfirst j y Hj Hlt). by destruct (flag y).
  - intros y Hy. apply list_find_None in E.
    rewrite Forall_forall in E. specialize (E y Hy). by destruct (flag y).
Qed.

Section product_image.
Context {casting : Casting}.

(** X10. The [primaryImage] virtual is [null] exactly for a product without
    images; otherwise it is the url of the first image flagged
    [isPrimary], or of the first image when none is flagged. It is the
    image a cart line gets when the product is added and [addItem] finds
    no line for it. *)
Theorem primaryImage_choice (p : ProductDoc.t) :
  (ProductDoc.primaryImage p = None ↔ ProductDoc.images p = []) ∧
  (∀ url, ProductDoc.primaryImage p = Some url →
     ∃ img, img ∈ ProductDoc.images p ∧ Image.url img = url) ∧
  (∀ i img,
     ProductDoc.images p !! i = Some img → Image.isPrimary img = true →
     (∀ j y, ProductDoc.images p !! j = Some y → (j < i)%nat → Image.isPrimary y = false) →
     ProductDoc.primaryImage p = Some (Image.url img)) ∧
  ((∀ img, img ∈ ProductDoc.images p → Image.isPrimary img = false) →
   ProductDoc.primaryImage p = Image.url <$> head (ProductDoc.images p)) ∧
  (∀ (c : Cart.t) oid quantity variant,
     (∀ item, item ∈ Cart.items c →
        ¬ CartItem.same_line (ProductDoc._id p) (default Variant.null variant) item) →
     CartItem.image <$>
       last (Cart.items (exec (Cart.addItem oid (ProductDoc.as_product p) quantity variant) c))
     = Some (ProductDoc.primaryImage p)).
Proof.
  unfold ProductDoc.primaryImage.
  pose proof (find_first_flag Image.isPrimary (ProductDoc.images p)) as Hfind.
  destruct (list_find _ (ProductDoc.images p)) as [[k primary]|] eqn:E.
  - destruct Hfind as (Hk & Hprimary & Hfirst). split_and!.
    + split; [done|]. intros Hnil. by rewrite Hnil in Hk.
    + intros url [= <-]. exists primary. split; [|done]. by eapply list_elem_of_lookup_2.
    + intros i img Hi Himg Hbefore.
      destruct (Nat.lt_trichotomy i k) as [Hlt|[->|Hgt]].
      * specialize (Hfirst i img Hi Hlt). congruence.
      * congruence.
      * specialize (Hbefore k primary Hk Hgt). congruence.
    + intros Hnone. apply list_elem_of_lookup_2 in Hk. specialize (Hnone _ Hk). congruence.
    + intros c oid quantity variant Hnone%same_line_None.
      unfold exec.
      rewrite (addItem_new oid (ProductDoc.as_product p) quantity variant c Hnone).
      cbn [snd]. rewrite calculateTotals_items. cbn [Cart.items Cart.set_items].
      rewrite last_snoc. simpl. unfold ProductDoc.primaryImage. by rewrite E.
  - split_and!.
    + by destruct (ProductDoc.images p).
    + destruct (ProductDoc.images p) as [|img imgs]; [done|].
      intros url [= <-]. exists img. split; [left|done].
    + intros i img Hi Himg _. apply list_elem_of_lookup_2 in Hi.
      specialize (Hfind _ Hi). congruence.
    + intros _. by destruct (ProductDoc.images p).
    + intros c oid quantity variant Hnone%same_line_None.
      unfold exec.
      rewrite (addItem_new oid (ProductDoc.as_product p) quantity variant c Hnone).
      cbn [snd]. rewrite calculateTotals_items. cbn [Cart.items Cart.set_items].
      rewrite last_snoc. simpl. unfold ProductDoc.primaryImage. by rewrite E.
Qed.
End product_image.

Lemma primaryImage_choice_witness :
  let p :=
    ProductDoc.mk 7 "pen" None 250
      [Image.mk "a.png" None false; Image.mk "b.png" None true; Image.mk "c.png" None true]
      (Inventory.mk 5 10 true false None) "active" in
  ProductDoc.primaryImage p = Some "b.png"%string ∧
  CartItem.image <$>
    last (Cart.items (exec (Cart.addItem (casting := Sample.as_given) 100
                              (ProductDoc.as_product p) None None)
                        Sample.empty_cart))
  = Some (Some "b.png"%string).
Proof.
  intros p.
  destruct (primaryImage_choice (casting := Sample.as_given) p)
    as (_ & _ & Hfirst & _ & Hline).
  assert (Hp : ProductDoc.primaryImage p = Some "b.png"%string).
  { apply (Hfirst 1%nat (Image.mk "b.png" None true)); [reflexivity..|].
    intros [|j] y Hj Hlt; [by injection Hj as <-|lia]. }
  split; [exact Hp|]. rewrite <- Hp. apply Hline.
  intros item Hin. by apply elem_of_nil in Hin.
Defined.

(** ** The expiry sweep *)

Lemma cleanExpired_run now (store : list Cart.t) :
  CartSweep.cleanExpired now store
  = (Normal (length (filter (CartSweep.stale now) store)),
     (λ c, if decide (CartSweep.stale now c) then Cart.set_isActive false c else c)
       <$> store).
Proof. reflexivity. Qed.

Lemma swept_not_stale now (c : Cart.t) :
  ¬ CartSweep.stale now
      (if decide (CartSweep.stale now c) then Cart.set_isActive false c else c).
Proof.
  destruct (decide (CartSweep.stale now c)) as [Hs|Hs]; [|done].
  by intros [_ Hact].
Qed.

(** X11. [cleanExpired] deactivates exactly the active carts whose
    [expiresAt] lies before the clock reading and leaves every other cart
    untouched; it resolves to their number, deletes nothing and touches no
    id. Afterwards no active cart is expired at that time, so [getByUser]
    and [getBySession] only find unexpired carts, and a second sweep at
    the same time modifies nothing. *)
Theorem cleanExpired_sweeps (now : Z) (store : list Cart.t) :
  ∃ store',
    CartSweep.cleanExpired now store
      = (Normal (length (filter (CartSweep.stale now) store)), store') ∧
    length store' = length store ∧
    Cart._id <$> store' = Cart._id <$> store ∧
    (∀ i c, store !! i = Some c →
       (Cart.expiresAt c < now → Cart.isActive c = true →
        store' !! i = Some (Cart.set_isActive false c)) ∧
       (¬ (Cart.expiresAt c < now ∧ Cart.isActive c = true) → store' !! i = Some c)) ∧
    (∀ c, c ∈ store' → Cart.isActive c = true → CartView.isExpired now c = false) ∧
    (∀ userId c,
       Carts.getByUser userId store' = (Normal (Some c), store') →
       CartView.isExpired now c = false) ∧
    (∀ sessionId c,
       Carts.getBySession sessionId store' = (Normal (Some c), store') →
       CartView.isExpired now c = false) ∧
    CartSweep.cleanExpired now store' = (Normal 0%nat, store').
Proof.
  eexists. split; [apply cleanExpired_run|].
  set (f := λ c, if decide (CartSweep.stale now c) then Cart.set_isActive false c else c).
  assert (Hfresh : ∀ c, c ∈ f <$> store → Cart.isActive c = true →
                        CartView.isExpired now c = false).
  { intros c' (c & -> & _)%list_elem_of_fmap Hact.
    unfold CartView.isExpired. apply bool_decide_eq_false. intros Hexp.
    apply (swept_not_stale now c). split; [|done]. fold (f c). lia. }
  assert (Hfound : ∀ (P : Cart.t → Prop) `{∀ c, Decision (P c)} c,
            (∀ c, P c → Cart.isActive c = true) →
            Carts.populate <$> (snd <$> list_find P (f <$> store)) = Some c →
            CartView.isExpired now c = false).
  { intros P HP c Hact Hrun.
    destruct (list_find P (f <$> store)) as [[i x]|] eqn:E; [|done].
    simpl in Hrun. injection Hrun as <-.
    apply list_find_Some in E as (Hi & HPc & _).
    change (CartView.isExpired now (Carts.populate x))
      with (CartView.isExpired now x).
    apply Hfresh; [by eapply list_elem_of_lookup_2 | by apply Hact]. }
  split_and!.
  - by rewrite length_fmap.
  - rewrite <- list_fmap_compose. apply list_fmap_ext. intros i c _. simpl.
    unfold f. by destruct (decide _).
  - intros i c Hi. split.
    + intros Hexp Hact. rewrite list_lookup_fmap, Hi. simpl. unfold f.
      by rewrite decide_True.
    + intros Hnot. rewrite list_lookup_fmap, Hi. simpl. unfold f.
      by rewrite decide_False.
  - exact Hfresh.
  - intros userId c. rewrite getByUser_run. intros [= Hc].
    revert Hc. apply Hfound. by intros ? [_ ?].
  - intros sessionId c. rewrite getBySession_run. intros [= Hc].
    revert Hc. apply Hfound. by intros ? [_ ?].
  - rewrite cleanExpired_run. f_equal.
    + f_equal. rewrite (filter_none _ (f <$> store)); [done|].
      intros c' (c & -> & _)%list_elem_of_fmap. apply swept_not_stale.
    + rewrite <- list_fmap_compose. apply list_fmap_ext. intros i c _. simpl.
      pose proof (swept_not_stale now c) as Hn. fold (f c) in Hn.
      unfold f at 1. by rewrite decide_False.
Qed.

Lemma cleanExpired_sweeps_witness :
  ∃ store',
    CartSweep.cleanExpired 2592000001 Sample.carts = (Normal 2%nat, store') ∧
    store' !! 0%nat = Some (Cart.set_isActive false Sample.user_cart) ∧
    Carts.getByUser 9 store' = (Normal None, store').
Proof.
  destruct (cleanExpired_sweeps 2592000001 Sample.carts)
    as (store' & Hrun & _ & _ & Hat & _).
  exists store'. split; [exact Hrun|].
  destruct (Hat 0%nat Sample.user_cart eq_refl) as [Hoff _].
  split; [apply Hoff; [simpl; lia | reflexivity]|].
  injection Hrun as <-. reflexivity.
Defined.

(** ** What a merge conserves *)

Lemma reduce_fmap {A B} (f : A → B) (w : B → Z) (l : list A) (acc : Z) :
  foldl (λ t x, t + w x) acc (f <$> l) = foldl (λ t x, t + w (f x)) acc l.
Proof. revert acc. induction l as [|x l IH]; intros acc; [done|]. apply IH. Qed.

Lemma populate_totalItems (c : Cart.t) :
  Cart.totalItems (Carts.populate c) = Cart.totalItems c.
Proof.
  unfold Cart.totalItems, Carts.populate. cbn [Cart.items Cart.set_items].
  by rewrite (reduce_fmap _ CartItem.quantity).
Qed.

Lemma populate_uniqueItems (c : Cart.t) :
  Cart.uniqueItems (Carts.populate c) = Cart.uniqueItems c.
Proof.
  unfold Cart.uniqueItems, Carts.populate. cbn [Cart.items Cart.set_items].
  by rewrite length_fmap.
Qed.

Lemma populate_consistent (c : Cart.t) :
  lines_consistent c → lines_consistent (Carts.populate c).
Proof.
  unfold lines_consistent, Carts.populate. cbn [Cart.items Cart.set_items].
  intros H. by apply Forall_fmap.
Qed.

Lemma cart_pre_save_items now (doc : Cart.t) :
  Cart.items (exec (Carts.pre_save now) doc) = Cart.items doc.
Proof. reflexivity. Qed.

(** Replacing a line by one with the same key keeps the keys. *)
Lemma keys_insert (items : list CartItem.t) i (e x : CartItem.t) :
  items !! i = Some e → line_key x = line_key e →
  line_key <$> <[i := x]> items = line_key <$> items.
Proof.
  intros Hi Hk. rewrite list_fmap_insert, Hk.
  apply list_insert_id. by rewrite list_lookup_fmap, Hi.
Qed.

Lemma merge_line_weight (w : CartItem.t → Z) (items : list CartItem.t) (s : CartItem.t) :
  (∀ e, line_key e = line_key s →
        w (CartItem.increment (CartItem.quantity s) e) = w e + w s) →
  foldl (λ t x, t + w x) 0 (Merge.step items s)
  = foldl (λ t x, t + w x) 0 items + w s.
Proof.
  intros Hw. destruct (Merge.find items s) as [[i e]|] eqn:E.
  - rewrite (merge_line_existing _ _ _ _ E).
    apply find_line_Some in E as (Hi & Hk & _).
    rewrite (reduce_insert w _ i e _ Hi), (Hw e Hk). lia.
  - rewrite (merge_line_new _ _ E), (reduce_app w). simpl. lia.
Qed.

Lemma merge_loop_weight (w : CartItem.t → Z) (U S : list CartItem.t) :
  (∀ s e, line_key e = line_key s →
          w (CartItem.increment (CartItem.quantity s) e) = w e + w s) →
  foldl (λ t x, t + w x) 0 (foldl Merge.step U S)
  = foldl (λ t x, t + w x) 0 U + foldl (λ t x, t + w x) 0 S.
Proof.
  intros Hw. revert U. induction S as [|s S IH]; intros U; simpl; [lia|].
  rewrite IH, (merge_line_weight w U s (Hw s)), (reduce_acc w S (0 + w s)). lia.
Qed.

Lemma merge_line_shape (items : list CartItem.t) (s : CartItem.t) :
  (∃ i e, items !! i = Some e ∧ line_key e = line_key s ∧
          Merge.step items s
          = <[i := CartItem.increment (CartItem.quantity s) e]> items) ∨
  ((∀ y, y ∈ items → line_key y ≠ line_key s) ∧
   Merge.step items s = items ++ [s]).
Proof.
  destruct (Merge.find items s) as [[i e]|] eqn:E.
  - left. exists i, e. rewrite (merge_line_existing _ _ _ _ E).
    apply find_line_Some in E as (Hi & Hk & _). by split_and!.
  - right. rewrite (merge_line_new _ _ E). split; [|done]. by apply find_line_None.
Qed.

Lemma merge_loop_invariants (U S : list CartItem.t) :
  (NoDup (line_key <$> U) → NoDup (line_key <$> foldl Merge.step U S)) ∧
  (Forall line_consistent U → Forall line_consistent S →
   Forall line_consistent (foldl Merge.step U S)) ∧
  (length U ≤ length (foldl Merge.step U S) ≤ length U + length S)%nat.
Proof.
  revert U. induction S as [|s S IH]; intros U; simpl.
  - split; [done|split; [done|lia]].
  - destruct (IH (Merge.step U s)) as (IH1 & IH2 & IH3).
    destruct (merge_line_shape U s) as [(i & e & Hi & Hk & Heq)|[Hfresh Heq]];
      rewrite Heq in *.
    + split; [|split].
      * intros Hnd. apply IH1. by rewrite (keys_insert _ i e).
      * intros HU [Hs HS]%Forall_cons. apply IH2; [|done].
        by apply Forall_insert.
      * rewrite length_insert in IH3. lia.
    + split; [|split].
      * intros Hnd. apply IH1. by apply NoDup_snoc_fresh.
      * intros HU [Hs HS]%Forall_cons. apply IH2; [|done].
        apply Forall_app. split; [done|]. by apply Forall_singleton.
      * rewrite length_app in IH3. simpl in IH3. lia.
Qed.

(** X12. What [mergeCarts] conserves when both carts exist and pass
    validation, in a collection with pairwise distinct ids. The returned
    user cart holds, for every product text and variant text of the carts
    as loaded, the summed quantity of the two carts, so [totalItems] adds
    up and no quantity is lost or invented; its number of lines lies
    between the user cart's and the sum of both; it has one line per key
    if the loaded user cart had, and quantity-times-price totals if both
    carts had. *)
Theorem mergeCarts_conserves (products : gmap ObjectId ProductDoc.t) (now : Z)
    (sessionId : string) (userId : ObjectId)
    (store : list Cart.t) (si ui : nat) (sc uc : Cart.t) :
  NoDup (Cart._id <$> store) →
  list_find (λ c, Cart.sessionId c = Some (SessionId.value sessionId) ∧
                  Cart.isActive c = true) store
    = Some (si, sc) →
  list_find (λ c, Cart.user c = Some userId ∧ Cart.isActive c = true) store
    = Some (ui, uc) →
  Carts.valid products (Carts.populate sc) →
  Carts.valid products (Carts.populate uc) →
  ∃ uc' store',
    Carts.mergeCarts products now sessionId userId store = (Normal (Some uc'), store') ∧
    Cart.totalItems uc' = Cart.totalItems uc + Cart.totalItems sc ∧
    (∀ key,
       foldl (λ t x, t + (if decide (line_key x = key) then CartItem.quantity x else 0)) 0
         (Cart.items uc')
       = foldl (λ t x, t + (if decide (line_key x = key) then CartItem.quantity x else 0)) 0
           (Cart.items (Carts.populate uc))
         + foldl (λ t x, t + (if decide (line_key x = key) then CartItem.quantity x else 0)) 0
             (Cart.items (Carts.populate sc))) ∧
    (Cart.uniqueItems uc ≤ Cart.uniqueItems uc'
       ≤ Cart.uniqueItems uc + Cart.uniqueItems sc)%nat ∧
    (one_line_per_key (Carts.populate uc) → one_line_per_key uc') ∧
    (lines_consistent uc → lines_consistent sc → lines_consistent uc') ∧
    totals_hold uc'.
Proof.
  intros Hnd Es Eu Hvs Hvu.
  rewrite (mergeCarts_both products now sessionId userId store si sc ui uc) by done.
  eexists _, _. split; [reflexivity|].
  destruct (merge_loop_invariants (Cart.items (Carts.populate uc))
              (Cart.items (Carts.populate sc))) as (Hk & Hc & Hl).
  rewrite <- (populate_totalItems uc), <- (populate_totalItems sc).
  rewrite <- (populate_uniqueItems uc), <- (populate_uniqueItems sc).
  unfold Cart.totalItems, Cart.uniqueItems, one_line_per_key.
  rewrite !cart_pre_save_items. cbn [Cart.items Cart.set_items].
  split_and!; [| |lia|lia|done| |].
  - apply (merge_loop_weight CartItem.quantity). intros s e _. simpl. lia.
  - intros key.
    apply (merge_loop_weight
             (λ x, if decide (line_key x = key) then CartItem.quantity x else 0)).
    intros s e Hks. rewrite increment_key, <- Hks.
    destruct (decide (line_key e = key)); simpl; lia.
  - intros Hu%populate_consistent Hs%populate_consistent.
    unfold lines_consistent. rewrite cart_pre_save_items. by apply Hc.
  - apply (cart_pre_save_fields now
             (Cart.set_items
                (foldl Merge.step (Cart.items (Carts.populate uc))
                   (Cart.items (Carts.populate sc))) (Carts.populate uc))).
Qed.

Lemma mergeCarts_conserves_witness :
  ∃ uc' store',
    Carts.mergeCarts Sample.catalog 1000 "sess-1" 9 Sample.carts
      = (Normal (Some uc'), store') ∧
    Cart.totalItems uc' = 6.
Proof.
  destruct (mergeCarts_conserves Sample.catalog 1000 "sess-1" 9 Sample.carts 1 0
              Sample.session_cart Sample.user_cart)
    as (uc' & store' & Hrun & Htotal & _).
  - apply (bool_decide_unpack _). vm_compute. exact I.
  - reflexivity.
  - reflexivity.
  - apply (bool_decide_unpack _). vm_compute. exact I.
  - apply (bool_decide_unpack _). vm_compute. exact I.
  - exists uc', store'. split; [exact Hrun|]. rewrite Htotal. reflexivity.
Defined.

(** X13. Merging is not repeated. After a merge of two distinct valid
    carts, in a collection with pairwise distinct ids where no other cart
    carries the session id, a second [mergeCarts] with the same arguments
    finds no active session cart: it returns the merged user cart as it
    loads and writes nothing, so no quantity is added twice. *)
Theorem mergeCarts_twice (products : gmap ObjectId ProductDoc.t) (now later : Z)
    (sessionId : string) (userId : ObjectId)
    (store : list Cart.t) (si ui : nat) (sc uc : Cart.t) :
  NoDup (Cart._id <$> store) →
  list_find (λ c, Cart.sessionId c = Some (SessionId.value sessionId) ∧
                  Cart.isActive c = true) store
    = Some (si, sc) →
  list_find (λ c, Cart.user c = Some userId ∧ Cart.isActive c = true) store
    = Some (ui, uc) →
  Carts.valid products (Carts.populate sc) →
  Carts.valid products (Carts.populate uc) →
  si ≠ ui →
  (∀ j c, store !! j = Some c → Cart.sessionId c = Some (SessionId.value sessionId) → j = si) →
  ∃ uc' store',
    Carts.mergeCarts products now sessionId userId store = (Normal (Some uc'), store') ∧
    Carts.mergeCarts products later sessionId userId store' = (Normal (Some uc'), store').
Proof.
  intros Hnd Es Eu Hvs Hvu Hne Hunique.
  pose proof Es as (Hsi & [Hsid Hsact] & _)%list_find_Some.
  pose proof Eu as (Hui & [Huid Huact] & Hufirst)%list_find_Some.
  rewrite (mergeCarts_both products now sessionId userId store si sc ui uc) by done.
  rewrite decide_False by done.
  set (sdoc := exec (Carts.pre_save now) (Cart.set_isActive false (Carts.populate sc))).
  set (udoc := exec (Carts.pre_save now)
                 (Cart.set_items
                    (foldl Merge.step (Cart.items (Carts.populate uc))
                       (Cart.items (Carts.populate sc)))
                    (Carts.populate uc))).
  set (X := Carts.patch (Carts.populate sc) sdoc sc).
  set (Y := Carts.patch (Carts.populate uc) udoc uc).
  assert (Hlen_s : (si < length store)%nat) by (by eapply lookup_lt_Some).
  assert (Hlen_u : (ui < length (<[si := X]> store))%nat).
  { rewrite length_insert. by eapply lookup_lt_Some. }
  assert (HX : Cart.isActive X = false).
  { unfold X, Carts.patch. simpl. rewrite Hsact. by rewrite decide_False. }
  assert (HY : Carts.populate Y = udoc).
  { apply patch_loaded; [done|]. apply merged_populated; apply populate_populated. }
  assert (HYfields : Cart.user Y = Some userId ∧ Cart.isActive Y = true ∧
                     Cart.sessionId Y = Cart.sessionId uc).
  { unfold Y, Carts.patch. simpl. split_and!; repeat case_decide; done || congruence. }
  destruct HYfields as (HYuser & HYact & HYsid).
  exists udoc, (<[ui := Y]> (<[si := X]> store)).
  split; [done|].
  assert (Es' : list_find
                  (λ c, Cart.sessionId c = Some (SessionId.value sessionId) ∧
                        Cart.isActive c = true)
                  (<[ui := Y]> (<[si := X]> store)) = None).
  { apply list_find_None, Forall_lookup. intros j y Hj [Hy Hact].
    destruct (decide (j = ui)) as [->|Hju].
    - rewrite list_lookup_insert_eq in Hj by done. injection Hj as <-.
      apply Hne. symmetry. apply (Hunique ui uc); [done|]. congruence.
    - rewrite list_lookup_insert_ne in Hj by done.
      destruct (decide (j = si)) as [->|Hjs].
      + rewrite list_lookup_insert_eq in Hj by done.
        injection Hj as <-. congruence.
      + rewrite list_lookup_insert_ne in Hj by done. by apply Hjs, (Hunique j y). }
  assert (Eu' : list_find
                  (λ c, Cart.user c = Some userId ∧ Cart.isActive c = true)
                  (<[ui := Y]> (<[si := X]> store)) = Some (ui, Y)).
  { apply list_find_Some. split; [|split].
    - by apply list_lookup_insert_eq.
    - done.
    - intros j y Hj Hlt. rewrite list_lookup_insert_ne in Hj by lia.
      destruct (decide (j = si)) as [->|Hjs].
      + rewrite list_lookup_insert_eq in Hj by done.
        injection Hj as <-. intros [_ ?]. congruence.
      + rewrite list_lookup_insert_ne in Hj by done. by apply (Hufirst j y). }
  unfold Carts.mergeCarts.
  rewrite (bind_normal _ _ _ _ _ (getBySession_run sessionId _)).
  rewrite (bind_normal _ _ _ _ _ (getByUser_run userId _)).
  rewrite Es', Eu'. cbn [fmap option_fmap option_map snd]. by rewrite HY.
Qed.

Lemma mergeCarts_twice_witness :
  ∃ uc' store',
    Carts.mergeCarts Sample.catalog 1000 "sess-1" 9 Sample.carts
      = (Normal (Some uc'), store') ∧
    Carts.mergeCarts Sample.catalog 2000 "sess-1" 9 store' = (Normal (Some uc'), store') ∧
    Cart.totalItems uc' = 6.
Proof.
  destruct (mergeCarts_twice Sample.catalog 1000 2000 "sess-1" 9 Sample.carts 1 0
              Sample.session_cart Sample.user_cart)
    as (uc' & store' & H1 & H2).
  - apply (bool_decide_unpack _). vm_compute. exact I.
  - reflexivity.
  - reflexivity.
  - apply (bool_decide_unpack _). vm_compute. exact I.
  - apply (bool_decide_unpack _). vm_compute. exact I.
  - lia.
  - intros [|[|j]] c Hj Hs; [by injection Hj as <-|done|done].
  - exists uc', store'. split_and!; [exact H1 | exact H2 |].
    injection H1 as <- _. reflexivity.
Defined.

(** ** Refunds and the status history *)

(** X14. A refund ends the order's life as far as the guards go: after
    [processRefund] neither [canBeCancelled] nor [canBeRefunded] nor
    [isPaid] holds, whatever the order was. The method logs nothing in
    [statusHistory]. A second [processRefund] replaces the first one
    entirely: refunds are not added up, so two partial refunds that
    together cover the total still leave ['partially_refunded']. *)
Theorem processRefund_is_final (o : Order.t) (now amount : Z) (reason : string)
    (processedBy : ObjectId) :
  Order.canBeCancelled (exec (Order.processRefund now amount reason processedBy) o) = false ∧
  Order.canBeRefunded (exec (Order.processRefund now amount reason processedBy) o) = false ∧
  Order_isPaid (exec (Order.processRefund now amount reason processedBy) o) = false ∧
  Order.statusHistory (exec (Order.processRefund now amount reason processedBy) o)
    = Order.statusHistory o ∧
  (∀ now' amount' reason' processedBy',
     exec (Order.processRefund now' amount' reason' processedBy')
       (exec (Order.processRefund now amount reason processedBy) o)
     = exec (Order.processRefund now' amount' reason' processedBy') o) ∧
  (∀ now' amount' reason' processedBy',
     amount' < Order.total o →
     Order.paymentStatus
       (exec (Order.processRefund now' amount' reason' processedBy')
          (exec (Order.processRefund now amount reason processedBy) o))
     = "partially_refunded"%string).
Proof.
  unfold exec. rewrite processRefund_run. cbn [snd].
  split_and!.
  - reflexivity.
  - unfold Order.canBeRefunded. cbn [Order.paymentStatus Order.status].
    rewrite (bool_decide_eq_false_2 ("refunded"%string = "delivered"%string)) by done.
    apply andb_false_r.
  - unfold Order_isPaid. cbn [Order.paymentStatus].
    by destruct (decide (amount >= Order.total o)).
  - reflexivity.
  - intros now' amount' reason' processedBy'. by rewrite !processRefund_run.
  - intros now' amount' reason' processedBy' Hlt. rewrite !processRefund_run.
    cbn [snd Order.paymentStatus Order.total]. by rewrite decide_False by lia.
Qed.

Lemma processRefund_is_final_witness :
  Order.paymentStatus
    (exec (Order.processRefund 6 500 "rest" 3)
       (exec (Order.processRefund 5 500 "half" 3) (Sample.order 1 "delivered" "paid" 0)))
  = "partially_refunded"%string.
Proof.
  apply processRefund_is_final. simpl. lia.
Defined.

(** What one call does to the history. *)
Lemma invoke_history (call : OrderCall.t) (o : Order.t) :
  ∃ o',
    OrderCall.invoke call o = (Normal tt, o') ∧
    ((logs_status call = false ∧ Order.statusHistory o' = Order.statusHistory o) ∨
     (logs_status call = true ∧
      ∃ entry, Order.statusHistory o' = Order.statusHistory o ++ [entry] ∧
               StatusEntry.status entry = Order.status o')).
Proof.
  destruct call as [now newStatus note updatedBy|now amount reason processedBy|[|] now];
    cbn [OrderCall.invoke logs_status].
  - eexists. split; [apply updateStatus_run|]. right. split; [done|].
    eexists. by split.
  - eexists. split; [apply processRefund_run|]. by left.
  - eexists. split; [reflexivity|]. right. split; [done|]. eexists. by split.
  - exists o. split; [reflexivity|]. by left.
Qed.

Lemma order_run_cons (call : OrderCall.t) (calls : list OrderCall.t) (o o1 : Order.t) :
  OrderCall.invoke call o = (Normal tt, o1) →
  OrderCall.run (call :: calls) o = OrderCall.run calls o1.
Proof. intros E. cbn [OrderCall.run]. by rewrite (bind_normal _ _ _ _ _ E). Qed.

(** X15. The status history is append-only. Through every sequence of
    [updateStatus], [processRefund] and saves the old history stays a
    prefix of the new one, and it grows by exactly one entry for each
    [updateStatus] and each save that finds [status] modified
    ([processRefund] itself logs nothing). When the last call is one of
    those, the newest entry carries the order's current status. *)
Theorem statusHistory_append_only (calls : list OrderCall.t) (o : Order.t) :
  ∃ o',
    OrderCall.run calls o = (Normal tt, o') ∧
    Order.statusHistory o `prefix_of` Order.statusHistory o' ∧
    length (Order.statusHistory o')
      = (length (Order.statusHistory o) + length (filter (λ c, logs_status c = true) calls))%nat ∧
    (∀ call, last calls = Some call → logs_status call = true →
       StatusEntry.status <$> last (Order.statusHistory o') = Some (Order.status o')).
Proof.
  revert o. induction calls as [|call calls IH]; intros o.
  - exists o. split_and!; [done|done|simpl; lia|done].
  - destruct (invoke_history call o) as (o1 & E1 & Hstep).
    destruct (IH o1) as (o' & E & Hpre & Hlen & Hlast).
    exists o'. rewrite (order_run_cons call calls o o1 E1).
    split_and!; [done| | |].
    + destruct Hstep as [[_ <-]|(_ & entry & Heq & _)]; [done|].
      etrans; [|exact Hpre]. rewrite Heq. by apply prefix_app_r.
    + rewrite Hlen. destruct Hstep as [[Hlog ->]|(Hlog & entry & -> & _)].
      * rewrite filter_cons_False by (by rewrite Hlog). lia.
      * rewrite filter_cons_True by done. rewrite length_app. simpl. lia.
    + intros c Hc Hlog. destruct calls as [|call' calls'].
      * injection Hc as <-. cbn [OrderCall.run] in E. injection E as <-.
        destruct Hstep as [[Hno _]|(_ & entry & -> & Hentry)]; [congruence|].
        by rewrite last_snoc; simpl; rewrite Hentry.
      * apply (Hlast c); [|done]. by rewrite last_cons_cons in Hc.
Qed.

Lemma statusHistory_append_only_witness :
  ∃ o',
    OrderCall.run
      [OrderCall.UpdateStatus 1 "shipped" None None;
       OrderCall.ProcessRefund 2 1000 "lost" 3;
       OrderCall.Save true 3] (Sample.order 1 "processing" "paid" 0) = (Normal tt, o') ∧
    StatusEntry.status <$> last (Order.statusHistory o') = Some "refunded"%string ∧
    length (Order.statusHistory o') = 2%nat.
Proof.
  destruct (statusHistory_append_only
              [OrderCall.UpdateStatus 1 "shipped" None None;
               OrderCall.ProcessRefund 2 1000 "lost" 3;
               OrderCall.Save true 3] (Sample.order 1 "processing" "paid" 0))
    as (o' & Hrun & _ & Hlen & Hlast).
  exists o'. split; [exact Hrun|]. split.
  - rewrite (Hlast (OrderCall.Save true 3) eq_refl eq_refl).
    injection Hrun as <-. reflexivity.
  - rewrite Hlen. reflexivity.
Defined.

(** ** Order lines *)

Lemma order_addItem_run product quantity price variant (this : OrderLines.t) :
  OrderLines.addItem product quantity price variant this
  = (Normal tt,
     exec OrderLines.calculateTotals
       (OrderLines.mk
          (OrderLines.items this ++
           [OrderItem.mk (Product._id product) (Product.name product)
              (Product.sku product) quantity price (quantity * price) variant
              (Product.primaryImage product)])
          (OrderLines.subtotal this) (OrderLines.tax this) (OrderLines.shipping_cost this)
          (OrderLines.discount_amount this) (OrderLines.total this))).
Proof. reflexivity. Qed.

(** X16. An order's [addItem] always appends a line, also for a product
    the order already has (it never merges, unlike the cart's): the line
    is priced by the [price] argument, not by the product, and totals
    [quantity * price]. The order's subtotal becomes the sum of the line
    totals, which is the sum over the lines it had plus the new line's
    total, and its total [subtotal + tax + shipping.cost -
    discount.amount]; [totalItems] grows by [quantity]. *)
Theorem order_addItem_appends (this : OrderLines.t) (product : Product.t)
    (quantity price : Z) (variant : option Variant.t) :
  ∃ this' line,
    OrderLines.addItem product quantity price variant this = (Normal tt, this') ∧
    OrderLines.items this' = OrderLines.items this ++ [line] ∧
    OrderItem.product line = Product._id product ∧
    OrderItem.name line = Product.name product ∧
    OrderItem.quantity line = quantity ∧
    OrderItem.price line = price ∧
    OrderItem.total line = quantity * price ∧
    length (OrderLines.items this') = S (length (OrderLines.items this)) ∧
    OrderLines.totalItems this' = OrderLines.totalItems this + quantity ∧
    OrderLines.subtotal this'
      = foldl (λ sum item, sum + OrderItem.total item) 0 (OrderLines.items this)
        + quantity * price ∧
    OrderLines.total this'
      = OrderLines.subtotal this' + OrderLines.tax this + OrderLines.shipping_cost this
        - OrderLines.discount_amount this.
Proof.
  eexists _, _. split; [apply order_addItem_run|].
  assert (Hsub : foldl (λ sum item, sum + OrderItem.total item) 0
                   (OrderLines.items this ++
                    [OrderItem.mk (Product._id product) (Product.name product)
                       (Product.sku product) quantity price (quantity * price) variant
                       (Product.primaryImage product)])
                 = foldl (λ sum item, sum + OrderItem.total item) 0 (OrderLines.items this)
                   + quantity * price).
  { rewrite (reduce_app OrderItem.total). simpl. lia. }
  unfold exec, OrderLines.calculateTotals, modify. cbn [snd].
  cbn [OrderLines.items OrderLines.subtotal OrderLines.total OrderLines.tax
       OrderLines.shipping_cost OrderLines.discount_amount].
  split_and!; try reflexivity.
  - rewrite length_app. simpl. lia.
  - unfold OrderLines.totalItems. cbn [OrderLines.items].
    rewrite (reduce_app OrderItem.quantity). simpl. lia.
  - exact Hsub.
Qed.

Lemma order_addItem_appends_witness :
  ∃ this' line,
    OrderLines.addItem Sample.pen 2 199 None (OrderLines.mk [] 0 10 5 0 15)
      = (Normal tt, this') ∧
    OrderLines.items this' = [line] ∧ OrderItem.price line = 199 ∧
    OrderLines.total this' = 413.
Proof.
  destruct (order_addItem_appends (OrderLines.mk [] 0 10 5 0 15) Sample.pen 2 199 None)
    as (this' & line & Hrun & Hitems & _ & _ & _ & Hprice & _ & _ & _ & Hsub & Htotal).
  exists this', line. split_and!; [exact Hrun | exact Hitems | exact Hprice |].
  rewrite Htotal, Hsub. reflexivity.
Defined.

(** ** Reading an order number back *)

Lemma append_cancel (p s t : string) : p +:+ s = p +:+ t → s = t.
Proof.
  induction p as [|c p IH]; [done|].
  rewrite !append_cons. intros [= H]. by apply IH.
Qed.

Lemma parse_digits_append acc (s t : string) :
  parse_digits acc (s +:+ t) = parse_digits (parse_digits acc s) t.
Proof.
  revert acc. induction s as [|c s IH]; intros acc; [done|].
  rewrite append_cons. cbn [parse_digits]. apply IH.
Qed.

Lemma digit_value_digit d : 0 ≤ d < 10 → digit_value (JsString.digit d) = d.
Proof.
  intros Hd. unfold digit_value, JsString.digit.
  rewrite Ascii.nat_ascii_embedding by lia. lia.
Qed.

Lemma parse_decimal_snoc (s : string) d :
  0 ≤ d < 10 →
  parse_decimal (s +:+ String (JsString.digit d) "") = 10 * parse_decimal s + d.
Proof.
  intros Hd. unfold parse_decimal. rewrite parse_digits_append.
  cbn [parse_digits]. by rewrite digit_value_digit.
Qed.

(** Round trip: the decimal string of a natural number reads back as it. *)
Lemma parse_toString k : 0 ≤ k → parse_decimal (JsString.toString k) = k.
Proof.
  intros Hk. remember (Z.to_nat k) as n eqn:Hn.
  revert k Hk Hn. induction (lt_wf n) as [n _ IH]. intros k Hk ->.
  destruct (decide (k < 10)).
  - rewrite toString_small by lia. unfold parse_decimal. cbn [parse_digits].
    rewrite digit_value_digit by lia. lia.
  - rewrite toString_step by lia.
    assert (0 ≤ k / 10 < k) by (split; [apply Z.div_pos | apply Z.div_lt]; lia).
    rewrite parse_decimal_snoc by (apply Z.mod_pos_bound; lia).
    rewrite (IH (Z.to_nat (k / 10))); [|lia|lia|done].
    pose proof (Z.div_mod k 10). lia.
Qed.

Lemma parse_padStart w k :
  0 ≤ k → parse_decimal (JsString.padStart w "0" (JsString.toString k)) = k.
Proof.
  intros Hk. unfold JsString.padStart, parse_decimal.
  rewrite parse_digits_append.
  assert (Hzero : ∀ n, parse_digits 0 (JsString.repeat "0" n) = 0).
  { induction n as [|n IH]; [done|]. cbn [JsString.repeat parse_digits]. exact IH. }
  rewrite Hzero. by apply parse_toString.
Qed.

Section order_number_decode.
Context `{LocalTime}.

(** X17. The digits after the date in an order number read back as the
    count plus one, for every count (also beyond 9999, where the field
    outgrows its four digits). So two orders created on the same day that
    read different counts always get different order numbers: numbers
    collide only when counts do. *)
Theorem orderNumber_decodes (date : Z) (store : list Order.t) (o : Order.t) :
  (∃ o' prefix sequence,
     Order.pre_save_orderNumber true date store o = (Normal tt, o') ∧
     Order.orderNumber o' = Some (prefix +:+ sequence) ∧
     prefix =
       "ORD" +:+ JsString.slice_last 2 (JsString.toString (getFullYear date)) +:+
       JsString.padStart 2 "0" (JsString.toString (getMonth date + 1)) +:+
       JsString.padStart 2 "0" (JsString.toString (getDate date)) ∧
     parse_decimal sequence
       = Order.countDocuments_since
           (newDate (getFullYear date) (getMonth date) (getDate date)) store + 1) ∧
  (∀ (store2 : list Order.t) (o2 : Order.t),
     Order.countDocuments_since
       (newDate (getFullYear date) (getMonth date) (getDate date)) store
     ≠ Order.countDocuments_since
         (newDate (getFullYear date) (getMonth date) (getDate date)) store2 →
     Order.orderNumber (exec (Order.pre_save_orderNumber true date store) o)
     ≠ Order.orderNumber (exec (Order.pre_save_orderNumber true date store2) o2)).
Proof.
  assert (Hcount : ∀ st, 0 ≤ Order.countDocuments_since
                              (newDate (getFullYear date) (getMonth date) (getDate date)) st + 1).
  { intros st. unfold Order.countDocuments_since. lia. }
  split.
  - eexists _, _, _. split; [apply pre_save_orderNumber_new|].
    split; [|split; [reflexivity|]].
    + cbn [Order.orderNumber Order.set_orderNumber]. f_equal.
      by rewrite !append_assoc.
    + by apply parse_padStart.
  - intros store2 o2 Hne Heq. apply Hne.
    unfold exec in Heq. rewrite !pre_save_orderNumber_new in Heq.
    cbn [snd Order.orderNumber Order.set_orderNumber] in Heq.
    injection Heq as Heq. do 4 apply append_cancel in Heq.
    apply (f_equal parse_decimal) in Heq.
    rewrite !parse_padStart in Heq by done. lia.
Qed.
End order_number_decode.

Lemma orderNumber_decodes_witness :
  Order.orderNumber
    (exec (@Order.pre_save_orderNumber Utc.local_time true Sample.morning Sample.orders)
       (Sample.order 5 "pending" "pending" Sample.morning))
  ≠ Order.orderNumber
      (exec (@Order.pre_save_orderNumber Utc.local_time true Sample.morning [])
         (Sample.order 6 "pending" "pending" Sample.morning)).
Proof.
  apply (@orderNumber_decodes Utc.local_time). vm_compute. discriminate.
Defined.

(** ** Votes: round trips *)

(** X18. A vote can be taken back exactly: for a user who has not voted, on
    a review whose count is not negative, [markHelpful] followed by
    [unmarkHelpful] gives back the review as it was. The other way round,
    for a user who has voted (in a duplicate-free list, count at least 1),
    [unmarkHelpful] then [markHelpful] keeps the count and the voters, the
    user moving to the end of the list. *)
Theorem helpful_vote_round_trip (r : Review.t) (u : ObjectId) :
  (u ∉ Helpful.users (Review.helpful r) → 0 ≤ Helpful.count (Review.helpful r) →
   (Review.markHelpful u;; Review.unmarkHelpful u) r = (Normal tt, r)) ∧
  (u ∈ Helpful.users (Review.helpful r) → NoDup (Helpful.users (Review.helpful r)) →
   1 ≤ Helpful.count (Review.helpful r) →
   ∃ r' index,
     (Review.unmarkHelpful u;; Review.markHelpful u) r = (Normal tt, r') ∧
     Helpful.users (Review.helpful r) !! index = Some u ∧
     Helpful.users (Review.helpful r')
       = delete index (Helpful.users (Review.helpful r)) ++ [u] ∧
     Helpful.users (Review.helpful r') ≡ₚ Helpful.users (Review.helpful r) ∧
     Helpful.count (Review.helpful r') = Helpful.count (Review.helpful r)).
Proof.
  split.
  - intros Hnot Hcount.
    rewrite (bind_normal _ _ _ _ _ (markHelpful_new u r Hnot)).
    rewrite (unmarkHelpful_present u _ (length (Helpful.users (Review.helpful r))) u).
    + cbn [Review.helpful Review.set_helpful Helpful.count Helpful.users].
      rewrite (delete_middle _ [] u), app_nil_r.
      replace (Z.max 0 (Helpful.count (Review.helpful r) + 1 - 1))
        with (Helpful.count (Review.helpful r)) by lia.
      f_equal. destruct r as [? ? ? ? ? []]. reflexivity.
    + cbn [Review.helpful Review.set_helpful Helpful.users].
      apply list_find_Some. split_and!; [|done|].
      * by rewrite (list_lookup_middle _ [] u).
      * intros j y Hj Hlt ->. rewrite lookup_app_l in Hj by done.
        by apply Hnot, (list_elem_of_lookup_2 _ j).
  - intros Hin Hnd Hcount.
    destruct (indexOf_present u _ Hin) as (i & E & Hi).
    destruct (delete_NoDup _ i u Hnd Hi) as [_ Hgone].
    eexists _, i.
    rewrite (bind_normal _ _ _ _ _ (unmarkHelpful_present u r i u E)).
    split; [by apply markHelpful_new|].
    cbn [Review.helpful Review.set_helpful Helpful.count Helpful.users].
    split_and!; [done|done| |lia].
    rewrite (delete_Permutation _ i u Hi) at 2.
    by rewrite Permutation_app_comm.
Qed.

Lemma helpful_vote_round_trip_witness :
  (Review.markHelpful 4;; Review.unmarkHelpful 4) Sample.review = (Normal tt, Sample.review).
Proof.
  apply helpful_vote_round_trip.
  - simpl. apply not_elem_of_nil.
  - simpl. lia.
Defined.

(** ** Login attempts and the lockout *)

Lemma attempts_set (x : Z) (u : User.t) :
  User.attempts (User.set_loginAttempts (Some x) u) = x.
Proof. reflexivity. Qed.

Lemma at_time_expired now (u : User.t) t :
  User.lockUntil u = Some t → t < now →
  FailedLogin.at_time now u
  = (Normal tt, User.set_loginAttempts (Some 1) (User.set_lockUntil None u)).
Proof.
  intros Hl Hlt. unfold FailedLogin.at_time, mbind, M_bind, get. simpl.
  unfold User.incLoginAttempts. rewrite Hl. by rewrite bool_decide_eq_true_2.
Qed.

Lemma at_time_locked now (u : User.t) t :
  User.lockUntil u = Some t → now < t →
  FailedLogin.at_time now u
  = (Normal tt, User.set_loginAttempts (Some (User.attempts u + 1)) u).
Proof.
  intros Hl Hlt. unfold FailedLogin.at_time, mbind, M_bind, get. simpl.
  unfold User.incLoginAttempts, User.isLocked. rewrite Hl.
  rewrite bool_decide_eq_false_2 by lia.
  rewrite (bool_decide_eq_true_2 (t > now)) by lia.
  by rewrite andb_false_r.
Qed.

(** Not locked at [now]: no lock, or one that ends at this very instant. *)
Lemma at_time_unlocked now (u : User.t) :
  User.lockUntil u = None ∨ User.lockUntil u = Some now →
  FailedLogin.at_time now u
  = (Normal tt,
     if decide (5 ≤ User.attempts u + 1) then
       User.set_lockUntil (Some (now + 7200000))
         (User.set_loginAttempts (Some (User.attempts u + 1)) u)
     else User.set_loginAttempts (Some (User.attempts u + 1)) u).
Proof.
  intros Hl. unfold FailedLogin.at_time, mbind, M_bind, get. simpl.
  unfold User.incLoginAttempts, User.isLocked.
  assert (Hno : match User.lockUntil u with
                | Some t => bool_decide (t < now)
                | None => false
                end = false
                ∧ match User.lockUntil u with
                  | Some t => bool_decide (t > now)
                  | None => false
                  end = false).
  { destruct Hl as [->| ->]; [done|]. split; apply bool_decide_eq_false; lia. }
  destruct Hno as [-> ->]. unfold modify. simpl.
  destruct (decide (5 ≤ User.attempts u + 1)).
  - by rewrite bool_decide_eq_true_2 by lia.
  - by rewrite bool_decide_eq_false_2 by lia.
Qed.

Lemma failed_run_cons now (times : list Z) (u u1 : User.t) :
  FailedLogin.at_time now u = (Normal tt, u1) →
  FailedLogin.run (now :: times) u = FailedLogin.run times u1.
Proof. intros E. cbn [FailedLogin.run]. by rewrite (bind_normal _ _ _ _ _ E). Qed.

(** X19. Five strikes. For an account without a lock, failed logins only
    count up as long as fewer than five are on record, whenever they
    happen; the failure that brings the count to five locks the account
    for two hours from that moment: the account then reads as locked at
    exactly the times before the end of those two hours. *)
Theorem lock_after_five_failures (times : list Z) (u : User.t) :
  User.lockUntil u = None → 0 ≤ User.attempts u →
  User.attempts u + Z.of_nat (length times) ≤ 5 →
  ∃ u',
    FailedLogin.run times u = (Normal tt, u') ∧
    User.attempts u' = User.attempts u + Z.of_nat (length times) ∧
    (User.attempts u + Z.of_nat (length times) < 5 →
     User.lockUntil u' = None ∧ ∀ t, User.isLocked t u' = false) ∧
    (∀ now, last times = Some now →
       User.attempts u + Z.of_nat (length times) = 5 →
       User.lockUntil u' = Some (now + 7200000) ∧
       ∀ t, User.isLocked t u' = true ↔ t < now + 7200000).
Proof.
  revert u. induction times as [|now times IH]; intros u Hl Ha Hsum.
  - exists u. split_and!; [done|simpl; lia| |done].
    intros _. split; [done|]. intros t. unfold User.isLocked. by rewrite Hl.
  - pose proof (at_time_unlocked now u (or_introl Hl)) as E.
    rewrite (failed_run_cons now times u _ E).
    cbn [length] in *.
    destruct (decide (5 ≤ User.attempts u + 1)) as [Hfive|Hless].
    + assert (times = []) as -> by (destruct times; [done|simpl in Hsum; lia]).
      eexists. split; [reflexivity|]. simpl. split_and!; [done|lia|].
      intros now' [= <-] _. split; [done|].
      intros t. unfold User.isLocked. simpl. rewrite bool_decide_eq_true. lia.
    + destruct (IH (User.set_loginAttempts (Some (User.attempts u + 1)) u))
        as (u' & Hrun & Hatt & Hnone & Hlock);
        [done|rewrite attempts_set; lia|rewrite attempts_set; lia|].
      exists u'. split; [done|]. rewrite attempts_set in Hatt, Hnone, Hlock.
      split_and!.
      * lia.
      * intros Hlt. apply Hnone. lia.
      * intros now' Hlast Hfive. destruct times as [|t0 times']; [simpl in Hfive; lia|].
        rewrite last_cons_cons in Hlast. apply Hlock; [done|lia].
Qed.

Lemma lock_after_five_failures_witness :
  ∃ u',
    FailedLogin.run [10; 20; 30; 40; 50] (User.mk 1 "ann" "ann@example.org" [] None None)
      = (Normal tt, u') ∧
    User.lockUntil u' = Some 7200050 ∧ User.isLocked 7200049 u' = true ∧
    User.isLocked 7200050 u' = false.
Proof.
  destruct (lock_after_five_failures [10; 20; 30; 40; 50]
              (User.mk 1 "ann" "ann@example.org" [] None None))
    as (u' & Hrun & _ & _ & Hlock);
    [reflexivity | unfold User.attempts; simpl; lia | unfold User.attempts; simpl; lia |].
  destruct (Hlock 50) as [Hl Hiff]; [reflexivity | unfold User.attempts; simpl; lia |].
  exists u'. split_and!; [exact Hrun | exact Hl | apply Hiff; lia |].
  destruct (User.isLocked 7200050 u') eqn:E; [|reflexivity].
  apply Hiff in E. lia.
Defined.

(** X20. A locked account is never locked for longer by further failures.
    Every failed login before the lock ends adds one to the counter and
    leaves [lockUntil] where it is, through any number of attempts; the
    account reads as locked at each of those moments. *)
Theorem failures_never_extend_lock (times : list Z) (u : User.t) (t : Z) :
  User.lockUntil u = Some t → Forall (λ now, now < t) times →
  ∃ u',
    FailedLogin.run times u = (Normal tt, u') ∧
    User.lockUntil u' = Some t ∧
    User.attempts u' = User.attempts u + Z.of_nat (length times) ∧
    Forall (λ now, User.isLocked now u' = true) times.
Proof.
  revert u. induction times as [|now times IH]; intros u Hl Hbefore.
  - exists u. split_and!; [done|done|simpl; lia|done].
  - apply Forall_cons in Hbefore as [Hnow Hbefore].
    rewrite (failed_run_cons now times u _ (at_time_locked now u t Hl Hnow)).
    destruct (IH (User.set_loginAttempts (Some (User.attempts u + 1)) u))
      as (u' & Hrun & Hl' & Hatt & Hlocked); [done|done|].
    exists u'. split_and!; [done|done|cbn [length]; rewrite attempts_set in Hatt; lia|].
    apply Forall_cons. split; [|done].
    unfold User.isLocked. rewrite Hl'. apply bool_decide_eq_true. lia.
Qed.

Lemma failures_never_extend_lock_witness :
  ∃ u',
    FailedLogin.run [10; 20; 30]
      (User.mk 1 "ann" "ann@example.org" [] (Some 5) (Some 1000)) = (Normal tt, u') ∧
    User.lockUntil u' = Some 1000 ∧ User.attempts u' = 8.
Proof.
  destruct (failures_never_extend_lock [10; 20; 30]
              (User.mk 1 "ann" "ann@example.org" [] (Some 5) (Some 1000)) 1000)
    as (u' & Hrun & Hl & Hatt & _); [reflexivity | repeat constructor |].
  exists u'. split_and!; [exact Hrun | exact Hl |]. rewrite Hatt. reflexivity.
Defined.

(** X21. When the lock ends. A failed login after [lockUntil] clears the
    lock and restarts the counter at 1. A failed login at the very instant
    [lockUntil] is neither: the account is no longer locked, but the
    counter goes on from where it was and, having reached five, locks the
    account for two more hours. *)
Theorem lock_expiry (u : User.t) (t now : Z) :
  User.lockUntil u = Some t →
  (t < now →
   ∃ u', FailedLogin.at_time now u = (Normal tt, u') ∧
         User.lockUntil u' = None ∧ User.attempts u' = 1 ∧
         ∀ t', User.isLocked t' u' = false) ∧
  (now = t →
   User.isLocked now u = false ∧
   ∃ u', FailedLogin.at_time now u = (Normal tt, u') ∧
         User.attempts u' = User.attempts u + 1 ∧
         (4 ≤ User.attempts u → User.lockUntil u' = Some (now + 7200000)) ∧
         (User.attempts u < 4 → User.lockUntil u' = Some t)).
Proof.
  intros Hl. split.
  - intros Hlt. eexists. split; [by apply (at_time_expired now u t)|]. by simpl.
  - intros ->. split.
    + unfold User.isLocked. rewrite Hl. apply bool_decide_eq_false. lia.
    + eexists. split; [apply at_time_unlocked; by right|].
      destruct (decide (5 ≤ User.attempts u + 1)); simpl; split_and!; try done; lia.
Qed.

Lemma lock_expiry_witness :
  (∃ u', FailedLogin.at_time 1001
           (User.mk 1 "ann" "ann@example.org" [] (Some 7) (Some 1000)) = (Normal tt, u') ∧
         User.lockUntil u' = None ∧ User.attempts u' = 1) ∧
  (∃ u', FailedLogin.at_time 1000
           (User.mk 1 "ann" "ann@example.org" [] (Some 7) (Some 1000)) = (Normal tt, u') ∧
         User.lockUntil u' = Some 7201000 ∧ User.attempts u' = 8).
Proof.
  split.
  - destruct (lock_expiry (User.mk 1 "ann" "ann@example.org" [] (Some 7) (Some 1000))
                1000 1001 eq_refl) as [Hafter _].
    destruct Hafter as (u' & Hrun & Hl & Ha & _); [lia|].
    exists u'. by split_and!.
  - destruct (lock_expiry (User.mk 1 "ann" "ann@example.org" [] (Some 7) (Some 1000))
                1000 1000 eq_refl) as [_ Hat].
    destruct Hat as (_ & u' & Hrun & Ha & Hrelock & _); [reflexivity|].
    exists u'. split_and!; [exact Hrun | apply Hrelock; unfold User.attempts; simpl; lia | rewrite Ha; reflexivity].
Defined.

Lemma at_time_justified now (u : User.t) :
  lock_justified u → 0 ≤ User.attempts u →
  ∃ u', FailedLogin.at_time now u = (Normal tt, u') ∧
        lock_justified u' ∧ 1 ≤ User.attempts u'.
Proof.
  intros Hj Ha. unfold lock_justified in *.
  destruct (User.lockUntil u) as [t|] eqn:Hl.
  - specialize (Hj (mk_is_Some _ _ eq_refl)).
    destruct (Z.lt_trichotomy t now) as [Hlt|[->|Hgt]].
    + rewrite (at_time_expired now u t Hl Hlt). eexists. split; [done|].
      unfold User.attempts. simpl. split; [by intros [? [=]]|lia].
    + rewrite (at_time_unlocked now u (or_intror Hl)).
      rewrite decide_True by lia. eexists. split; [done|].
      unfold User.attempts in *. simpl. split; intros; lia.
    + rewrite (at_time_locked now u t Hl Hgt). eexists. split; [done|].
      unfold User.attempts in *. simpl. split; intros; lia.
  - rewrite (at_time_unlocked now u (or_introl Hl)). eexists. split; [done|].
    destruct (decide (5 ≤ User.attempts u + 1)) as [Hfive|Hless];
      unfold User.attempts in *; simpl.
    + split; intros; lia.
    + rewrite Hl. split; [by intros [? [=]]|lia].
Qed.

(** X22. No lock without five failures. Starting from an account whose
    lock, if it has one, has at least five failures on record, any number
    of failed logins, at any times and in any order, ends in an account
    with the same property: [lockUntil] is set only when [loginAttempts]
    is at least five. [resetLoginAttempts] then removes both fields, so that the
    account is unlocked at every time and counts from zero again. *)
Theorem lock_needs_five_failures (times : list Z) (u : User.t) :
  lock_justified u → 0 ≤ User.attempts u →
  ∃ u',
    FailedLogin.run times u = (Normal tt, u') ∧
    lock_justified u' ∧
    0 ≤ User.attempts u' ∧ (times ≠ [] → 1 ≤ User.attempts u') ∧
    User.resetLoginAttempts u'
    = (Normal tt, User.mk (User._id u') (User.name u') (User.email u')
                    (User.addresses u') None None) ∧
    ∀ t, User.isLocked t (exec User.resetLoginAttempts u') = false.
Proof.
  revert u. induction times as [|now times IH]; intros u Hj Ha.
  - exists u. by split_and!.
  - destruct (at_time_justified now u Hj Ha) as (u1 & E & Hj1 & Ha1).
    rewrite (failed_run_cons now times u u1 E).
    destruct (IH u1 Hj1) as (u' & Hrun & Hj' & Ha' & Hpos & Hreset & Hunlocked); [lia|].
    exists u'. split_and!; [done|done|done| |done|done].
    intros _. destruct times as [|t0 times']; [|by apply Hpos].
    injection Hrun as <-. done.
Qed.

Lemma lock_needs_five_failures_witness :
  ∃ u',
    FailedLogin.run [10; 5; 7200020; 7]
      (User.mk 1 "ann" "ann@example.org" [] (Some 4) None) = (Normal tt, u') ∧
    lock_justified u'.
Proof.
  destruct (lock_needs_five_failures [10; 5; 7200020; 7]
              (User.mk 1 "ann" "ann@example.org" [] (Some 4) None))
    as (u' & Hrun & Hj & _); [by intros [? [=]] | unfold User.attempts; simpl; lia |].
  exists u'. split; [exact Hrun | exact Hj].
Defined.

(** X23. The [defaultAddress] virtual is [undefined] exactly for a user
    without addresses; otherwise it is the first address flagged
    [isDefault], also when several are flagged, or the first address when
    none is. *)
Theorem defaultAddress_choice (u : User.t) :
  (User.defaultAddress u = None ↔ User.addresses u = []) ∧
  (∀ addr, User.defaultAddress u = Some addr → addr ∈ User.addresses u) ∧
  (∀ i addr,
     User.addresses u !! i = Some addr → Address.isDefault addr = true →
     (∀ j y, User.addresses u !! j = Some y → (j < i)%nat → Address.isDefault y = false) →
     User.defaultAddress u = Some addr) ∧
  ((∀ addr, addr ∈ User.addresses u → Address.isDefault addr = false) →
   User.defaultAddress u = head (User.addresses u)).
Proof.
  unfold User.defaultAddress.
  pose proof (find_first_flag Address.isDefault (User.addresses u)) as Hfind.
  destruct (list_find _ (User.addresses u)) as [[k first]|] eqn:E.
  - destruct Hfind as (Hk & Hdefault & Hfirst). split_and!.
    + split; [done|]. intros Hnil. by rewrite Hnil in Hk.
    + intros addr [= <-]. by eapply list_elem_of_lookup_2.
    + intros i addr Hi Haddr Hbefore.
      destruct (Nat.lt_trichotomy i k) as [Hlt|[->|Hgt]].
      * specialize (Hfirst i addr Hi Hlt). congruence.
      * congruence.
      * specialize (Hbefore k first Hk Hgt). congruence.
    + intros Hnone. apply list_elem_of_lookup_2 in Hk. specialize (Hnone _ Hk). congruence.
  - split_and!.
    + by destruct (User.addresses u).
    + destruct (User.addresses u) as [|a l]; [done|]. intros addr [= <-]. left.
    + intros i addr Hi Haddr _. apply list_elem_of_lookup_2 in Hi.
      specialize (Hfind _ Hi). congruence.
    + done.
Qed.

Lemma defaultAddress_choice_witness :
  User.defaultAddress
    (User.mk 1 "ann" "ann@example.org"
       [Address.mk "1 Elm St" "Springfield" "IL" "62701" "US" false;
        Address.mk "2 Oak Ave" "Springfield" "IL" "62702" "US" true;
        Address.mk "3 Pine Rd" "Springfield" "IL" "62703" "US" true]
       None None)
  = Some (Address.mk "2 Oak Ave" "Springfield" "IL" "62702" "US" true).
Proof.
  destruct (defaultAddress_choice
              (User.mk 1 "ann" "ann@example.org"
                 [Address.mk "1 Elm St" "Springfield" "IL" "62701" "US" false;
                  Address.mk "2 Oak Ave" "Springfield" "IL" "62702" "US" true;
                  Address.mk "3 Pine Rd" "Springfield" "IL" "62703" "US" true]
                 None None)) as (_ & _ & Hfirst & _).
  apply (Hfirst 1%nat); [reflexivity | reflexivity |].
  intros [|j] y Hj Hlt; [by injection Hj as <-|lia].
Defined.

(** ** Category paths, breadcrumbs and what a save leaves behind *)

Lemma join_snoc sep (l : list (option string)) x :
  l ≠ [] →
  JsArray.join sep (l ++ [x]) = JsArray.join sep l +:+ sep +:+ default ""%string x.
Proof.
  induction l as [|a l IH]; [done|]. intros _.
  destruct l as [|b l].
  - reflexivity.
  - change (JsArray.join sep ((a :: b :: l) ++ [x]))
      with (default ""%string a +:+ sep +:+ JsArray.join sep ((b :: l) ++ [x])).
    rewrite IH by done.
    change (JsArray.join sep (a :: b :: l))
      with (default ""%string a +:+ sep +:+ JsArray.join sep (b :: l)).
    by rewrite !append_assoc.
Qed.

Lemma getBreadcrumb_run (store : gmap ObjectId Category.t) id :
  CategoryView.getBreadcrumb id store
  = (Normal (match store !! id with
             | None => []
             | Some category => Category.ancestors category ++ [Category.summary category]
             end), store).
Proof. reflexivity. Qed.

Section category_paths.
Context (slugify : string → string) (countActiveProducts : ObjectId → Z).

#[local] Abbreviation pre_save := (Category.pre_save slugify countActiveProducts).
#[local] Abbreviation save := (Category.save slugify countActiveProducts).

Lemma category_pre_save_frame (store : gmap ObjectId Category.t) tr (doc : Category.t) :
  Category.name (exec (pre_save store tr) doc) = Category.name doc ∧
  Category.status (exec (pre_save store tr) doc) = Category.status doc ∧
  (Category.isModified_name tr = false →
   Category.slug (exec (pre_save store tr) doc) = Category.slug doc) ∧
  (Category.isModified_name tr = true →
   Category.slug (exec (pre_save store tr) doc) = Some (slugify (Category.name doc))).
Proof.
  unfold exec, Category.pre_save, mbind, M_bind, get, modify, mret, M_ret.
  destruct tr as [mn mp ms new], doc as [id nm sl [pid|] anc lv st pc];
    destruct mn, mp, ms, new; simpl; try destruct (store !! pid); simpl;
    split_and!; (done || by intros [=]).
Qed.

(** X24. Paths compose along a move. When a category is saved under a
    parent found in the collection, its [fullPath] is the parent's
    followed by [" > "] and its own name, its [fullSlugPath] is the
    parent's followed by ["/"] and its own slug, and its breadcrumb is the
    parent's followed by its own entry. Nothing excludes the category
    itself as the parent: the entry of its stored version is then among
    its own ancestors. *)
Theorem paths_compose (store : gmap ObjectId Category.t) (tr : Category.tracking)
    (doc : Category.t) (pid : ObjectId) (p : Category.t) :
  Category.isModified_parent tr = true →
  Category.parent doc = Some pid → store !! pid = Some p →
  ∃ doc' store' crumbs,
    save tr doc store = (Normal doc', store') ∧
    CategoryView.getBreadcrumb pid store = (Normal crumbs, store) ∧
    CategoryView.getBreadcrumb (Category._id doc) store'
    = (Normal (crumbs ++ [Category.summary doc']), store') ∧
    CategoryView.fullPath doc'
    = CategoryView.fullPath p +:+ " > " +:+ Category.name doc ∧
    CategoryView.fullSlugPath doc'
    = CategoryView.fullSlugPath p +:+ "/" +:+ default ""%string (Category.slug doc') ∧
    (pid = Category._id doc → Category.summary p ∈ Category.ancestors doc').
Proof.
  intros Hmod Hparent Hp.
  destruct (category_pre_save_returns slugify countActiveProducts store tr doc)
    as (_ & Hid & _).
  destruct (category_pre_save_found slugify countActiveProducts store tr doc pid p
              Hmod Hparent Hp) as [_ Hanc].
  destruct (category_pre_save_frame store tr doc) as (Hname & _).
  eexists _, _, _. split; [apply category_save_run|].
  split; [rewrite getBreadcrumb_run, Hp; reflexivity|].
  split_and!.
  - rewrite getBreadcrumb_run, lookup_insert_eq. by rewrite Hanc.
  - unfold CategoryView.fullPath. rewrite Hanc, Hname, fmap_app. simpl.
    rewrite join_snoc; [done|]. by destruct (_ <$> Category.ancestors p).
  - unfold CategoryView.fullSlugPath. rewrite Hanc, fmap_app. simpl.
    rewrite join_snoc; [done|]. by destruct (_ <$> Category.ancestors p).
  - intros _. rewrite Hanc. apply elem_of_app. right. by apply list_elem_of_singleton.
Qed.

(** X25. In a collection that was built by saving new categories and
    categories loaded from it and edited, every category is stored under
    its own id with [level] equal to the number of its ancestors, so its
    breadcrumb has [level + 1] entries and ends with the category itself.
    This holds whatever the saves found modified, and also when parents
    were missing or were moved afterwards. *)
Theorem built_levels_match (store : gmap ObjectId Category.t) :
  CategoryView.built slugify countActiveProducts store →
  levels_match store ∧
  (∀ id c, store !! id = Some c → Category._id c = id) ∧
  (∀ id c, store !! id = Some c →
     ∃ crumbs,
       CategoryView.getBreadcrumb id store = (Normal crumbs, store) ∧
       Z.of_nat (length crumbs) = Category.level c + 1 ∧
       last crumbs = Some (Category.summary c)).
Proof.
  intros Hbuilt.
  assert (Hinv : levels_match store ∧ ∀ id c, store !! id = Some c → Category._id c = id).
  { induction Hbuilt as [|store tr id name parent _ [IHl IHk]
                          |store tr id c name parent status _ [IHl IHk] Hc].
    - split; intros id c; by rewrite lookup_empty.
    - unfold exec. rewrite category_save_run. cbn [snd CategoryView.fresh Category._id].
      destruct (category_pre_save_returns slugify countActiveProducts store tr
                  (CategoryView.fresh id name parent)) as (_ & Hid & _).
      split; intros id' c'; rewrite lookup_insert; case_decide; subst; try by eauto.
      + intros [= <-]. by apply category_pre_save_level_matches.
      + by intros [= <-].
    - unfold exec. rewrite category_save_run. cbn [snd CategoryView.edited Category._id].
      destruct (category_pre_save_returns slugify countActiveProducts store tr
                  (CategoryView.edited c name parent status)) as (_ & Hid & _).
      split; intros id' c'; rewrite lookup_insert; case_decide; subst; try by eauto.
      + intros [= <-]. apply category_pre_save_level_matches; [done|].
        apply (IHl _ _ Hc).
      + intros [= <-]. by rewrite Hid. }
  destruct Hinv as [Hl Hk]. split_and!; [done|done|].
  intros id c Hc. eexists. rewrite getBreadcrumb_run, Hc. split; [done|].
  rewrite length_app, last_snoc. split; [|done].
  rewrite (Hl id c Hc). simpl. lia.
Qed.

(** X26. Descendants go stale. A save writes one document, so a child of
    the saved category keeps its [ancestors] and its breadcrumb, and they
    agree with the parent afterwards only if the save changed neither the
    parent's own [ancestors] nor its name and slug. After a rename of the
    parent, in particular, the child's path still shows the old name. *)
Theorem descendants_go_stale (store : gmap ObjectId Category.t) (tr : Category.tracking)
    (doc old child : Category.t) (cid : ObjectId) :
  store !! Category._id doc = Some old →
  store !! cid = Some child → cid ≠ Category._id doc →
  Category.parent child = Some (Category._id doc) →
  CategoryView.path_of_parent store child →
  ∃ doc' store',
    save tr doc store = (Normal doc', store') ∧
    store' !! cid = Some child ∧
    CategoryView.getBreadcrumb cid store'
    = (Normal (Category.ancestors old ++ [Category.summary old; Category.summary child]),
       store') ∧
    (CategoryView.path_of_parent store' child ↔
     Category.ancestors doc' = Category.ancestors old ∧
     Category.summary doc' = Category.summary old) ∧
    (Category.name doc ≠ Category.name old →
     ¬ CategoryView.path_of_parent store' child).
Proof.
  intros Hold Hchild Hne Hparent (pid & p & Hpid & Hp & Hpath).
  assert (pid = Category._id doc) as -> by congruence.
  assert (p = old) as -> by congruence.
  destruct (category_pre_save_returns slugify countActiveProducts store tr doc)
    as (_ & Hid & _).
  destruct (category_pre_save_frame store tr doc) as (Hname & _).
  set (doc' := exec (pre_save store tr) doc) in *.
  assert (Hiff : CategoryView.path_of_parent (<[Category._id doc := doc']> store) child ↔
                 Category.ancestors doc' = Category.ancestors old ∧
                 Category.summary doc' = Category.summary old).
  { split.
    - intros (pid' & p' & Hpid' & Hp' & Hpath').
      assert (pid' = Category._id doc) as -> by congruence.
      rewrite lookup_insert_eq in Hp'. injection Hp' as <-.
      rewrite Hpath in Hpath'. by apply app_inj_tail in Hpath' as [-> ->].
    - intros [Ha Hs]. exists (Category._id doc), doc'.
      split_and!; [done|by rewrite lookup_insert_eq|by rewrite Ha, Hs]. }
  exists doc', (<[Category._id doc := doc']> store).
  split; [apply category_save_run|].
  assert (Hkept : <[Category._id doc := doc']> store !! cid = Some child)
    by (by rewrite lookup_insert_ne).
  split_and!; [done| |done|].
  - rewrite getBreadcrumb_run, Hkept, Hpath. by rewrite <- app_assoc.
  - intros Hrenamed [_ Hs]%Hiff. apply Hrenamed. rewrite <- Hname. fold doc'.
    by injection Hs.
Qed.

(** X27. A parent that is not there. Saving a category whose [parent] id
    is not in the collection does not fail: the document is stored with
    that parent id and with the [level] and [ancestors] it had before,
    whether or not the parent was modified, so its path is not the path of
    any stored parent. *)
Theorem dangling_parent_keeps_path (store : gmap ObjectId Category.t)
    (tr : Category.tracking) (doc : Category.t) (pid : ObjectId) :
  Category.parent doc = Some pid → store !! pid = None →
  ∃ doc',
    save tr doc store = (Normal doc', <[Category._id doc := doc']> store) ∧
    Category.parent doc' = Some pid ∧
    Category.level doc' = Category.level doc ∧
    Category.ancestors doc' = Category.ancestors doc ∧
    ¬ CategoryView.path_of_parent (<[Category._id doc := doc']> store) doc'.
Proof.
  intros Hparent Hmissing.
  destruct (category_pre_save_returns slugify countActiveProducts store tr doc)
    as (_ & Hid & Hpar).
  destruct (category_pre_save_unchanged slugify countActiveProducts store tr doc)
    as [Hl Ha]; [right; by exists pid|].
  eexists. split; [apply category_save_run|].
  split_and!; [congruence|done|done|].
  intros (pid' & p & Hpid' & Hp & Hpath).
  assert (pid' = pid) as -> by congruence.
  rewrite lookup_insert in Hp. case_decide; [|congruence].
  injection Hp as <-. apply (f_equal length) in Hpath.
  rewrite length_app in Hpath. simpl in Hpath. lia.
Qed.
End category_paths.

Lemma paths_compose_witness :
  ∃ doc' store',
    Category.save (λ s, s) (λ _, 0) Sample.parent_changed
      (Category.mk 13 "Poetry" (Some "poetry"%string) (Some 11%nat) [] 0 "active" 0)
      Sample.categories = (Normal doc', store') ∧
    CategoryView.fullPath doc' = "Books > Fiction > Poetry"%string ∧
    CategoryView.getBreadcrumb 13%nat store'
    = (Normal [Ancestor.mk 10 "Books" (Some "books"%string);
               Ancestor.mk 11 "Fiction" (Some "fiction"%string);
               Category.summary doc'], store').
Proof.
  destruct (paths_compose (λ s, s) (λ _, 0) Sample.categories Sample.parent_changed
              (Category.mk 13 "Poetry" (Some "poetry"%string) (Some 11%nat) [] 0 "active" 0)
              11%nat Sample.fiction eq_refl eq_refl eq_refl)
    as (doc' & store' & crumbs & Hsave & Hcrumbs & Hcrumbs' & Hpath & _).
  injection Hcrumbs as <-.
  exists doc', store'. split_and!; [exact Hsave | exact Hpath | exact Hcrumbs'].
Defined.

Lemma built_levels_match_witness :
  levels_match
    (exec (Category.save (λ s, s) (λ _, 0) (Category.mk_tracking true true false true)
             (CategoryView.fresh 12 "Crime" (Some 11%nat)))
       (exec (Category.save (λ s, s) (λ _, 0) (Category.mk_tracking true true false true)
                (CategoryView.fresh 11 "Fiction" (Some 10%nat)))
          (exec (Category.save (λ s, s) (λ _, 0) (Category.mk_tracking true true false true)
                   (CategoryView.fresh 10 "Books" None)) ∅))).
Proof.
  apply (built_levels_match (λ s, s) (λ _, 0)).
  do 3 apply CategoryView.built_create. apply CategoryView.built_empty.
Defined.

Lemma descendants_go_stale_witness :
  ∃ doc' store',
    Category.save (λ s, s) (λ _, 0) (Category.mk_tracking true false false false)
      (Category.mk 11 "Novels" (Some "fiction"%string) (Some 10%nat)
         [Ancestor.mk 10 "Books" (Some "books"%string)] 1 "active" 0)
      Sample.categories = (Normal doc', store') ∧
    CategoryView.getBreadcrumb 12%nat store'
    = (Normal [Ancestor.mk 10 "Books" (Some "books"%string);
               Ancestor.mk 11 "Fiction" (Some "fiction"%string);
               Ancestor.mk 12 "Crime" (Some "crime"%string)], store') ∧
    ¬ CategoryView.path_of_parent store' Sample.crime.
Proof.
  destruct (descendants_go_stale (λ s, s) (λ _, 0) Sample.categories
              (Category.mk_tracking true false false false)
              (Category.mk 11 "Novels" (Some "fiction"%string) (Some 10%nat)
                 [Ancestor.mk 10 "Books" (Some "books"%string)] 1 "active" 0)
              Sample.fiction Sample.crime 12%nat)
    as (doc' & store' & Hsave & _ & Hcrumbs & _ & Hstale);
    [reflexivity | reflexivity | simpl; lia | reflexivity | |].
  - exists 11%nat, Sample.fiction. split_and!; reflexivity.
  - exists doc', store'. split_and!; [exact Hsave | exact Hcrumbs |].
    apply Hstale. simpl. intros [=].
Defined.

Lemma dangling_parent_keeps_path_witness :
  ∃ doc',
    Category.save (λ s, s) (λ _, 0) Sample.parent_changed
      (Category.mk 11 "Fiction" (Some "fiction"%string) (Some 99%nat)
         [Ancestor.mk 10 "Books" (Some "books"%string)] 1 "active" 0)
      Sample.categories = (Normal doc', <[11%nat := doc']> Sample.categories) ∧
    Category.parent doc' = Some 99%nat ∧ Category.level doc' = 1.
Proof.
  destruct (dangling_parent_keeps_path (λ s, s) (λ _, 0) Sample.categories
              Sample.parent_changed
              (Category.mk 11 "Fiction" (Some "fiction"%string) (Some 99%nat)
                 [Ancestor.mk 10 "Books" (Some "books"%string)] 1 "active" 0)
              99%nat eq_refl eq_refl)
    as (doc' & Hsave & Hparent & Hlevel & _).
  exists doc'. split_and!; [exact Hsave | exact Hparent | exact Hlevel].
Defined.
